(** * MediaEditor-SPA: the watermark composition and coordinate-transform core

    A shallow embedding of the watermark engine of the repository (both
    variants of [WatermarkEngine], the multi-watermark session logic of
    [app.js] and the queue of [batchProcessor.js]) together with the
    properties of its specification.  Around this core the embedding
    covers the previews of the two engines, the helpers of [utils.js],
    the box fitting of [mediaEditor.js] and of the video processor, the
    template store of [templateManager.js], the remaining methods of the
    batch queue and the drag handler of the editor.

    Conventions of the embedding.
    - A JavaScript number is an exact rational ([Q]): finite values, no
      rounding.  A property of a quotient is stated for a non-zero
      divisor; equality of numbers is [Qeq] ([==]).  The code computes
      in double precision: where it rounds a computed value to a whole
      number, its answer is the neighbour of the exact one when the
      error of the arithmetic carries the value across a half.  A
      property that depends on which neighbour is taken is stated with
      [wholeNear], which either neighbour meets.
    - A string is the sequence of its code units, each below 256 (the
      characters of Latin-1); what the language counts as white space
      among them is listed in [is_ws].
    - An object is a record; a property that the code tests for presence
      is an [option] ([None] is [undefined]/[null]).
    - A drawing surface is a value: its current paint state, its
      save/restore stack and the list of paint commands issued so far.
    - [async] functions run to completion one after the other; [await]
      is sequencing.  A promise that never settles is the outcome
      [Pending]. *)

From Stdlib Require Import QArith Qminmax Qround ZArith List String Ascii Bool.
From Stdlib Require Import Lia Lqa Permutation Sorted Recdef.
Import ListNotations.

Local Open Scope Q_scope.

(** ** Numbers *)

Definition Qltb (a b : Q) : bool := negb (Qle_bool b a).
Definition Qgtb (a b : Q) : bool := Qltb b a.

(** [Math.min] and [Math.max] on two finite numbers. *)
Definition Math_min (a b : Q) : Q := if Qle_bool a b then a else b.
Definition Math_max (a b : Q) : Q := if Qle_bool a b then b else a.

(** Truthiness of a number: every finite number but zero. *)
Definition truthyQ (q : Q) : bool := negb (Qeq_bool q 0).

(** [v || d] on numbers. *)
Definition orQ (v d : Q) : Q := if truthyQ v then v else d.

(** A property that may hold a number, [undefined] or [null]. *)
Inductive JsVal : Type :=
| JUndefined
| JNull
| JNum (q : Q).

Definition typeof_number (v : JsVal) : bool :=
  match v with JNum _ => true | _ => false end.

(** [ToNumber]: [undefined] is NaN ([None]), [null] is 0. *)
Definition toNumber (v : JsVal) : option Q :=
  match v with
  | JUndefined => None
  | JNull => Some 0
  | JNum q => Some q
  end.

(** [v < k] and [v > k] against a numeric literal: false on NaN. *)
Definition js_lt (v : JsVal) (k : Q) : bool :=
  match toNumber v with Some q => Qltb q k | None => false end.
Definition js_gt (v : JsVal) (k : Q) : bool :=
  match toNumber v with Some q => Qgtb q k | None => false end.

(** A destructuring default [x = d]: applies to [undefined] only. *)
Definition withDefault (v : JsVal) (d : Q) : JsVal :=
  match v with JUndefined => JNum d | _ => v end.

(** ** Strings *)

Local Open Scope string_scope.

(** White space and line terminators of the language among the code
    units below 256: U+0009 to U+000D, U+0020 and U+00A0. *)
Definition is_ws (c : ascii) : bool :=
  let n := nat_of_ascii c in
  (Nat.leb 9 n && Nat.leb n 13) || Nat.eqb n 32 || Nat.eqb n 160.

Fixpoint trimStart (s : string) : string :=
  match s with
  | EmptyString => EmptyString
  | String c r => if is_ws c then trimStart r else s
  end.

Fixpoint rev_string (s acc : string) : string :=
  match s with
  | EmptyString => acc
  | String c r => rev_string r (String c acc)
  end.

(** [String.prototype.trim]. *)
Definition trim (s : string) : string :=
  rev_string (trimStart (rev_string (trimStart s) "")) "".

Definition truthyS (s : string) : bool :=
  match s with EmptyString => false | _ => true end.

Fixpoint includes (xs : list string) (s : string) : bool :=
  match xs with
  | [] => false
  | x :: r => if String.eqb x s then true else includes r s
  end.

(** ** Errors and effects *)

(** An [Error] object, by its [message]. *)
Record JsError : Type := mkError { message : string }.

(** The message of the [TypeError] raised by reading property [p] of
    [undefined]. *)
Definition TypeError (p : string) : JsError :=
  mkError ("Cannot read properties of undefined (reading '" ++ p ++ "')").

(** The message of the [TypeError] raised by writing property [p] of
    [undefined]. *)
Definition SetTypeError (p : string) : JsError :=
  mkError ("Cannot set properties of undefined (setting '" ++ p ++ "')").

Inductive Outcome (A : Type) : Type :=
| Returned (a : A)
| Thrown (e : JsError)
| Pending.
Arguments Returned {A} a.
Arguments Thrown {A} e.
Arguments Pending {A}.

(** Code that runs on a mutable object of type [S]: a throw keeps the
    mutations made so far. *)
Definition Js (S A : Type) : Type := S -> Outcome A * S.

Definition ret {S A} (a : A) : Js S A := fun s => (Returned a, s).
Definition throw {S A} (e : JsError) : Js S A := fun s => (Thrown e, s).
Definition never {S A} : Js S A := fun s => (Pending, s).

Definition bind {S A B} (c : Js S A) (k : A -> Js S B) : Js S B :=
  fun s =>
    match c s with
    | (Returned a, s') => k a s'
    | (Thrown e, s') => (Thrown e, s')
    | (Pending, s') => (Pending, s')
    end.

(** [try { c } catch (error) { h error }]. *)
Definition try_catch {S A} (c : Js S A) (h : JsError -> Js S A) : Js S A :=
  fun s =>
    match c s with
    | (Thrown e, s') => h e s'
    | r => r
    end.

(** Reading a property of a value that may be [undefined]. *)
Definition prop {S A} (p : string) (o : option A) : Js S A :=
  match o with
  | Some a => ret a
  | None => throw (TypeError p)
  end.

Declare Scope js_scope.
Delimit Scope js_scope with js.
Notation "x <- c ;; k" := (bind c (fun x => k))
  (at level 61, c at next level, right associativity) : js_scope.
Notation "c ;; k" := (bind c (fun _ => k))
  (at level 61, right associativity) : js_scope.

(** [for (const x of xs) { await body(x); }]. *)
Fixpoint for_of {S A} (xs : list A) (body : A -> Js S unit) : Js S unit :=
  match xs with
  | [] => ret tt
  | x :: r => bind (body x) (fun _ => for_of r body)
  end.

Local Close Scope string_scope.

(** ** Data model *)

Module Text.
Record t : Type := mk
  { content : string; font : string; size : Q; color : string;
    opacity : Q; rotation : Q }.
End Text.

(** A decoded raster: what [drawImage] paints from. *)
Record Raster : Type := mkRaster
  { naturalWidth : Q; naturalHeight : Q; pixels : string }.

(** The object made by [ImageProcessor.loadImage]. *)
Record LoadedImage : Type := mkLoaded
  { li_src : string; li_width : Q; li_height : Q;
    li_element : option Raster }.

(** [image.imageData] is either a data URL (a string) or a loaded image
    object; both occur in [app.js]. *)
Inductive ImageData : Type :=
| DataUrl (src : string)
| Loaded (o : LoadedImage).

Module Image.
Record t : Type := mk
  { imageData : option ImageData; scale : Q; opacity : Q; rotation : Q }.
End Image.

Module Position.
Record t : Type := mk { preset : string; x : JsVal; y : JsVal }.
End Position.

Module Transform.
Record t : Type := mk
  { x : Q; y : Q; width : Q; height : Q; rotation : Q;
    previewCanvasWidth : option Q; previewCanvasHeight : option Q }.
End Transform.

Module Output.
Record t : Type := mk { format : string; quality : Q }.
End Output.

Module Bounds.
Record t : Type := mk { x : Q; y : Q; width : Q; height : Q }.
End Bounds.

Module Settings.
Record t : Type := mk
  { type : string;
    text : option Text.t;
    image : option Image.t;
    position : option Position.t;
    transform : option Transform.t;
    output : option Output.t }.
End Settings.

Record Size : Type := mkSize { sz_width : Q; sz_height : Q }.

(** ** The drawing surface *)

(** The argument of [ctx.font = `${px}px ${family}`]; [quoted] tells
    whether the family is written between double quotes. *)
Record FontSpec : Type := mkFont
  { font_px : Q; font_family : string; font_quoted : bool }.

(** The current transformation matrix, as the operations applied to it.
    [Rotate] holds the angle in degrees; the code passes
    [degrees * Math.PI / 180]. *)
Inductive MatrixOp : Type :=
| Translate (x y : Q)
| Rotate (degrees : Q).

Record PaintState : Type := mkPaint
  { globalAlpha : Q;
    matrix : list MatrixOp;
    fillStyle : string;
    strokeStyle : string;
    lineWidth : Q;
    font : option FontSpec;
    textAlign : string;
    textBaseline : string;
    imageSmoothingEnabled : bool;
    imageSmoothingQuality : string }.

Inductive PaintCmd : Type :=
| ClearRect (x y w h : Q)
| StrokeText (s : string) (x y : Q) (st : PaintState)
| FillText (s : string) (x y : Q) (st : PaintState)
| DrawImage (img : Raster) (x y w h : Q) (st : PaintState).

Record Canvas : Type := mkCanvas
  { state : PaintState;
    saved : list PaintState;
    painted : list PaintCmd }.

Local Open Scope string_scope.

Definition defaultPaint : PaintState :=
  {| globalAlpha := 1; matrix := []; fillStyle := "#000000";
     strokeStyle := "#000000"; lineWidth := 1; font := None;
     textAlign := "start"; textBaseline := "alphabetic";
     imageSmoothingEnabled := true; imageSmoothingQuality := "low" |}.

(** Assigning [canvas.width] resets the surface. *)
Definition freshCanvas : Canvas :=
  {| state := defaultPaint; saved := []; painted := [] |}.

Definition modify {S} (f : S -> S) : Js S unit := fun s => (Returned tt, f s).

Definition withState (f : PaintState -> PaintState) : Js Canvas unit :=
  modify (fun c => {| state := f (state c); saved := saved c;
                      painted := painted c |}).

Definition paint (cmd : PaintState -> PaintCmd) : Js Canvas unit :=
  modify (fun c => {| state := state c; saved := saved c;
                      painted := painted c ++ [cmd (state c)] |}).

Definition save : Js Canvas unit :=
  modify (fun c => {| state := state c; saved := state c :: saved c;
                      painted := painted c |}).

(** [restore] on an empty stack does nothing. *)
Definition restore : Js Canvas unit :=
  modify (fun c =>
    match saved c with
    | [] => c
    | p :: r => {| state := p; saved := r; painted := painted c |}
    end).

(** [ctx.translate] and [ctx.rotate] compose one more operation with the
    current matrix. *)
Definition pushOp (op : MatrixOp) (p : PaintState) : PaintState :=
  let '(mkPaint a m f s l fo ta tb e q) := p in
  mkPaint a (m ++ [op]) f s l fo ta tb e q.

Definition translate (x y : Q) : Js Canvas unit :=
  withState (pushOp (Translate x y)).
Definition rotate (degrees : Q) : Js Canvas unit :=
  withState (pushOp (Rotate degrees)).

(** The writes to the properties of the paint state. *)
Definition set_globalAlpha (v : Q) : Js Canvas unit :=
  withState (fun '(mkPaint a m f s l fo ta tb e q) =>
               mkPaint v m f s l fo ta tb e q).
Definition set_fillStyle (v : string) : Js Canvas unit :=
  withState (fun '(mkPaint a m f s l fo ta tb e q) =>
               mkPaint a m v s l fo ta tb e q).
Definition set_strokeStyle (v : string) : Js Canvas unit :=
  withState (fun '(mkPaint a m f s l fo ta tb e q) =>
               mkPaint a m f v l fo ta tb e q).
Definition set_lineWidth (v : Q) : Js Canvas unit :=
  withState (fun '(mkPaint a m f s l fo ta tb e q) =>
               mkPaint a m f s v fo ta tb e q).
Definition set_font (v : FontSpec) : Js Canvas unit :=
  withState (fun '(mkPaint a m f s l fo ta tb e q) =>
               mkPaint a m f s l (Some v) ta tb e q).
Definition set_textAlign (v : string) : Js Canvas unit :=
  withState (fun '(mkPaint a m f s l fo ta tb e q) =>
               mkPaint a m f s l fo v tb e q).
Definition set_textBaseline (v : string) : Js Canvas unit :=
  withState (fun '(mkPaint a m f s l fo ta tb e q) =>
               mkPaint a m f s l fo ta v e q).
Definition set_imageSmoothingEnabled (v : bool) : Js Canvas unit :=
  withState (fun '(mkPaint a m f s l fo ta tb e q) =>
               mkPaint a m f s l fo ta tb v q).
Definition set_imageSmoothingQuality (v : string) : Js Canvas unit :=
  withState (fun '(mkPaint a m f s l fo ta tb e q) =>
               mkPaint a m f s l fo ta tb e v).

Definition clearRect (x y w h : Q) : Js Canvas unit :=
  paint (fun _ => ClearRect x y w h).
Definition strokeText (s : string) (x y : Q) : Js Canvas unit :=
  paint (StrokeText s x y).
Definition fillText (s : string) (x y : Q) : Js Canvas unit :=
  paint (FillText s x y).
Definition drawImage (img : Raster) (x y w h : Q) : Js Canvas unit :=
  paint (DrawImage img x y w h).

(** What the host supplies: text measurement on the scratch canvas of the
    engine and the decoding of an image source.  A source that does not
    decode never fires [onload]. *)
Record Host : Type := mkHost
  { measureText : FontSpec -> string -> Q;
    decode : string -> option Raster }.

Local Close Scope string_scope.

(** ** Parts that the two engine variants share, word for word *)

Local Open Scope string_scope.
Local Open Scope js_scope.

(** The [switch (preset)] of [calculatePosition]: the base point per
    anchor, the bounds' centre by default. *)
Definition anchorBase (preset : string) (b : Bounds.t)
    (scaledWmWidth scaledWmHeight : Q) : Q * Q :=
  let boundsX := Bounds.x b in
  let boundsY := Bounds.y b in
  let boundsWidth := Bounds.width b in
  let boundsHeight := Bounds.height b in
  if String.eqb preset "top-left" then
    (boundsX + scaledWmWidth / 2, boundsY + scaledWmHeight / 2)
  else if String.eqb preset "top-center" then
    (boundsX + boundsWidth / 2, boundsY + scaledWmHeight / 2)
  else if String.eqb preset "top-right" then
    (boundsX + boundsWidth - scaledWmWidth / 2, boundsY + scaledWmHeight / 2)
  else if String.eqb preset "center-left" then
    (boundsX + scaledWmWidth / 2, boundsY + boundsHeight / 2)
  else if String.eqb preset "center" then
    (boundsX + boundsWidth / 2, boundsY + boundsHeight / 2)
  else if String.eqb preset "center-right" then
    (boundsX + boundsWidth - scaledWmWidth / 2, boundsY + boundsHeight / 2)
  else if String.eqb preset "bottom-left" then
    (boundsX + scaledWmWidth / 2, boundsY + boundsHeight - scaledWmHeight / 2)
  else if String.eqb preset "bottom-center" then
    (boundsX + boundsWidth / 2, boundsY + boundsHeight - scaledWmHeight / 2)
  else if String.eqb preset "bottom-right" then
    (boundsX + boundsWidth - scaledWmWidth / 2,
     boundsY + boundsHeight - scaledWmHeight / 2)
  else
    (boundsX + boundsWidth / 2, boundsY + boundsHeight / 2).

(** [applyWatermark], over the two layer renderers of the variant. *)
Definition applyWatermarkWith
    (applyTextWatermark applyImageWatermark :
       Settings.t -> Bounds.t -> Q -> Js Canvas unit)
    (settings : Settings.t) (bounds : Bounds.t) (scaleFactor : Q)
  : Js Canvas unit :=
  try_catch
    (let type := Settings.type settings in
     save ;;
     (if String.eqb type "text" then
        applyTextWatermark settings bounds scaleFactor
      else if String.eqb type "image" then
        applyImageWatermark settings bounds scaleFactor
      else if String.eqb type "combined" then
        applyTextWatermark settings bounds scaleFactor ;;
        applyImageWatermark settings bounds scaleFactor
      else
        throw (mkError ("Unknown watermark type: " ++ type))) ;;
     restore)
    (fun error =>
       throw (mkError ("Failed to apply watermark: " ++ message error))).

(** [applyWatermarks]: the loop has no [try] of its own. *)
Definition applyWatermarksWith
    (applyWatermark : Settings.t -> Bounds.t -> Q -> Js Canvas unit)
    (watermarks : list Settings.t) (bounds : Bounds.t) (scaleFactor : Q)
  : Js Canvas unit :=
  for_of watermarks (fun wm => applyWatermark wm bounds scaleFactor).

Definition push (msg : string) : Js (list string) unit :=
  modify (fun errors => (errors ++ [msg])%list).

Definition when {S} (c : bool) (k : Js S unit) : Js S unit :=
  if c then k else ret tt.

Definition truthyImageData (d : option ImageData) : bool :=
  match d with
  | None => false
  | Some (DataUrl src) => truthyS src
  | Some (Loaded _) => true
  end.

(** The type, text and image rules of [validateSettings]. *)
Definition validateContent (settings : Settings.t) : Js (list string) unit :=
  let type := Settings.type settings in
  when (negb (includes ["text"; "image"; "combined"] type))
    (push "Invalid watermark type") ;;
  when (String.eqb type "text" || String.eqb type "combined")
    (text <- prop "content" (Settings.text settings) ;;
     when (negb (truthyS (Text.content text))
           || String.eqb (trim (Text.content text)) "")
       (push "Text content is required") ;;
     when (Qltb (Text.size text) 8 || Qgtb (Text.size text) 500)
       (push "Text size must be between 8 and 500 pixels") ;;
     when (Qltb (Text.opacity text) 0 || Qgtb (Text.opacity text) 100)
       (push "Text opacity must be between 0 and 100")) ;;
  when (String.eqb type "image" || String.eqb type "combined")
    (image <- prop "imageData" (Settings.image settings) ;;
     when (negb (truthyImageData (Image.imageData image)))
       (push "Watermark image is required") ;;
     when (Qltb (Image.scale image) 1 || Qgtb (Image.scale image) 500)
       (push "Image scale must be between 1 and 500 percent") ;;
     when (Qltb (Image.opacity image) 0 || Qgtb (Image.opacity image) 100)
       (push "Image opacity must be between 0 and 100")).

Module Validation.
Record t : Type := mk { isValid : bool; errors : list string }.
End Validation.

(** The [try]/[catch] frame of [validateSettings]: the array built so far
    is dropped when the body throws. *)
Definition validationOf (body : Js (list string) unit) : Validation.t :=
  match body [] with
  | (Returned _, errors) =>
      {| Validation.isValid := Nat.eqb (List.length errors) 0;
         Validation.errors := errors |}
  | _ => {| Validation.isValid := false;
            Validation.errors := ["Failed to validate settings"] |}
  end.

Definition anchors : list string :=
  ["top-left"; "top-center"; "top-right";
   "center-left"; "center"; "center-right";
   "bottom-left"; "bottom-center"; "bottom-right"].

(** The source image handed to the export functions. *)
Record SourceImageData : Type := mkSource { element : option Raster }.

(** What [canvas.toDataURL(format, quality)] is asked to encode. *)
Record Encoded : Type := mkEncoded
  { enc_type : string; enc_quality : Q; enc_pixels : list PaintCmd }.

Record Generated : Type := mkGenerated
  { dataUrl : Encoded; width : Q; height : Q; format : string }.

Definition toDataURL (type : string) (quality : Q) : Js Canvas Encoded :=
  fun c => (Returned {| enc_type := type; enc_quality := quality;
                        enc_pixels := painted c |}, c).

(** [generateWatermarkedImage], on the canvas owned by the engine. *)
Definition generateWatermarkedImageWith
    (applyWatermark : Settings.t -> Bounds.t -> Q -> Js Canvas unit)
    (sourceImageData : SourceImageData) (settings : Settings.t)
  : Js Canvas Generated :=
  try_catch
    (img <- prop "width" (element sourceImageData) ;;
     modify (fun _ => freshCanvas) ;;
     clearRect 0 0 (naturalWidth img) (naturalHeight img) ;;
     drawImage img 0 0 (naturalWidth img) (naturalHeight img) ;;
     let bounds := Bounds.mk 0 0 (naturalWidth img) (naturalHeight img) in
     applyWatermark settings bounds 1 ;;
     output <- prop "format" (Settings.output settings) ;;
     let format := if String.eqb (Output.format output) "jpeg"
                   then "image/jpeg" else "image/png" in
     let quality := Output.quality output / 100 in
     url <- toDataURL format quality ;;
     ret {| dataUrl := url; width := naturalWidth img;
            height := naturalHeight img; format := format |})
    (fun error =>
       throw (mkError ("Failed to generate watermarked image: "
                       ++ message error))).

Local Close Scope js_scope.
Local Close Scope string_scope.

(** ** The anchor-only engine ([js/watermarkEngine.js]) *)

Module Legacy.
Local Open Scope string_scope.
Local Open Scope js_scope.

(** The result of [calculatePosition]; a coordinate is NaN ([None])
    when the offset it adds is [undefined]. *)
Record Pos : Type := mkPos
  { x : option Q; y : option Q; scaleFactor : Q }.

Definition plusN (base : Q) (offset : option Q) : option Q :=
  match offset with Some o => Some (base + o) | None => None end.

Definition timesN (v : JsVal) (k : Q) : option Q :=
  match toNumber v with Some q => Some (q * k) | None => None end.

Definition calculatePosition (positionSettings : option Position.t)
    (bounds : Bounds.t) (watermarkSize : Size) (scaleFactor : Q) : Pos :=
  match positionSettings with
  | Some p =>
      let preset := Position.preset p in
      let offsetX := Position.x p in
      let offsetY := Position.y p in
      let wmWidth := sz_width watermarkSize in
      let wmHeight := sz_height watermarkSize in
      let scaledOffsetX := timesN offsetX scaleFactor in
      let scaledOffsetY := timesN offsetY scaleFactor in
      let scaledWmWidth := wmWidth * scaleFactor in
      let scaledWmHeight := wmHeight * scaleFactor in
      let (baseX, baseY) :=
        anchorBase preset bounds scaledWmWidth scaledWmHeight in
      {| x := plusN baseX scaledOffsetX;
         y := plusN baseY scaledOffsetY;
         scaleFactor := scaleFactor |}
  | None =>
      (* the destructuring throws; the [catch] answers *)
      {| x := Some (Bounds.x bounds + Bounds.width bounds / 2);
         y := Some (Bounds.y bounds + Bounds.height bounds / 2);
         scaleFactor := 1 |}
  end.

(** [ctx.translate] ignores a call with a NaN argument. *)
Definition translateN (x y : option Q) : Js Canvas unit :=
  match x, y with
  | Some a, Some b => translate a b
  | _, _ => ret tt
  end.

Record Rgb : Type := mkRgb { r : Z; g : Z; b : Z }.

Definition hexDigit (c : ascii) : option Z :=
  let n := Z.of_nat (nat_of_ascii c) in
  if ((48 <=? n) && (n <=? 57))%Z then Some (n - 48)%Z
  else if ((97 <=? n) && (n <=? 102))%Z then Some (n - 87)%Z
  else if ((65 <=? n) && (n <=? 70))%Z then Some (n - 55)%Z
  else None.

Definition hexPair (hi lo : ascii) : option Z :=
  match hexDigit hi, hexDigit lo with
  | Some h, Some l => Some (16 * h + l)%Z
  | _, _ => None
  end.

(** [/^#?([a-f\d]{2})([a-f\d]{2})([a-f\d]{2})$/i]. *)
Definition hexToRgb (hex : string) : option Rgb :=
  let digits := match hex with
                | String "#" rest => rest
                | _ => hex
                end in
  match digits with
  | String r1 (String r2 (String g1 (String g2
      (String b1 (String b2 EmptyString))))) =>
      match hexPair r1 r2, hexPair g1 g2, hexPair b1 b2 with
      | Some r, Some g, Some b => Some {| r := r; g := g; b := b |}
      | _, _, _ => None
      end
  | _ => None
  end.

Definition luminance (rgb : Rgb) : Q :=
  ((299 # 1000) * inject_Z (r rgb) + (587 # 1000) * inject_Z (g rgb)
   + (114 # 1000) * inject_Z (b rgb)) / 255.

Definition needsStroke (color : string) : bool :=
  match hexToRgb color with
  | None => false
  | Some rgb =>
      Qgtb (luminance rgb) (7 # 10) || Qltb (luminance rgb) (3 # 10)
  end.

Definition getContrastColor (color : string) : string :=
  match hexToRgb color with
  | None => "#000000"
  | Some rgb =>
      if Qgtb (luminance rgb) (1 # 2) then "#000000" else "#FFFFFF"
  end.

Section WithHost.
Context (host : Host).

(** The measurement assigns the size of the scratch canvas of the
    engine ([this.tempCanvas]) and the font of its context.  The
    functions of this module draw on another surface, as the export does
    ([this.ctx]): to them the measurement is a function of the text.
    The same engine drawing on the scratch canvas itself, as its
    previews do, is [LegacyPreview] below. *)
Definition estimateTextWidth (textSettings : Text.t) : Q :=
  measureText host
    {| font_px := Text.size textSettings;
       font_family := Text.font textSettings;
       font_quoted := false |}
    (Text.content textSettings).

Definition applyTextWatermark (settings : Settings.t)
    (bounds : Bounds.t) (scaleFactor : Q) : Js Canvas unit :=
  try_catch
    (let position := Settings.position settings in
     text <- prop "content" (Settings.text settings) ;;
     if negb (truthyS (Text.content text))
        || String.eqb (trim (Text.content text)) ""
     then ret tt
     else
       let scaledTextSize := Text.size text * scaleFactor in
       let textWidth :=
         estimateTextWidth
           (Text.mk (Text.content text) (Text.font text) scaledTextSize
              (Text.color text) (Text.opacity text)
              (Text.rotation text)) in
       let pos :=
         calculatePosition position bounds
           {| sz_width := textWidth; sz_height := scaledTextSize |}
           scaleFactor in
       save ;;
       translateN (x pos) (y pos) ;;
       when (negb (Qeq_bool (Text.rotation text) 0))
         (rotate (Text.rotation text)) ;;
       set_font {| font_px := scaledTextSize;
                   font_family := Text.font text;
                   font_quoted := false |} ;;
       set_textAlign "center" ;;
       set_textBaseline "middle" ;;
       set_globalAlpha (Text.opacity text / 100) ;;
       when (needsStroke (Text.color text))
         (set_strokeStyle (getContrastColor (Text.color text)) ;;
          set_lineWidth (Math_max 1 (scaledTextSize / 20)) ;;
          strokeText (Text.content text) 0 0) ;;
       set_fillStyle (Text.color text) ;;
       fillText (Text.content text) 0 0 ;;
       restore)
    (fun error =>
       throw (mkError ("Failed to apply text watermark: "
                       ++ message error))).

(** [image.imageData.element]: a string has no such property. *)
Definition elementOf (d : option ImageData) : option Raster :=
  match d with
  | Some (Loaded o) => li_element o
  | _ => None
  end.

Definition applyImageWatermark (settings : Settings.t)
    (bounds : Bounds.t) (scaleFactor : Q) : Js Canvas unit :=
  try_catch
    (image <- prop "imageData" (Settings.image settings) ;;
     match elementOf (Image.imageData image) with
     | None => ret tt
     | Some img =>
         let scale := (Image.scale image / 100) * scaleFactor in
         let scaledWidth := naturalWidth img * scale in
         let scaledHeight := naturalHeight img * scale in
         let pos :=
           calculatePosition (Settings.position settings) bounds
             {| sz_width := scaledWidth; sz_height := scaledHeight |}
             scaleFactor in
         save ;;
         translateN (x pos) (y pos) ;;
         when (negb (Qeq_bool (Image.rotation image) 0))
           (rotate (Image.rotation image)) ;;
         set_globalAlpha (Image.opacity image / 100) ;;
         drawImage img (- scaledWidth / 2) (- scaledHeight / 2)
           scaledWidth scaledHeight ;;
         restore
     end)
    (fun error =>
       throw (mkError ("Failed to apply image watermark: "
                       ++ message error))).

Definition applyWatermark : Settings.t -> Bounds.t -> Q -> Js Canvas unit :=
  applyWatermarkWith applyTextWatermark applyImageWatermark.

Definition applyWatermarks :
  list Settings.t -> Bounds.t -> Q -> Js Canvas unit :=
  applyWatermarksWith applyWatermark.

Definition generateWatermarkedImage :
  SourceImageData -> Settings.t -> Js Canvas Generated :=
  generateWatermarkedImageWith applyWatermark.
End WithHost.

(** The nine anchors are the only presets this variant accepts. *)
Definition validateSettings (settings : Settings.t) : Validation.t :=
  validationOf
    (validateContent settings ;;
     position <- prop "preset" (Settings.position settings) ;;
     when (negb (includes anchors (Position.preset position)))
       (push "Invalid position preset")).
End Legacy.

(** ** The transform-based engine (the second [WatermarkEngine] source) *)

Module Engine.
Local Open Scope string_scope.
Local Open Scope js_scope.

Record Pos : Type := mkPos { x : Q; y : Q; scaleFactor : Q }.

(** A number read from an offset after its default [= 0] was applied:
    [null] counts as 0 in arithmetic. *)
Definition numOf (v : JsVal) : Q :=
  match toNumber v with Some q => q | None => 0 end.

Definition calculatePosition (positionSettings : option Position.t)
    (bounds : Bounds.t) (watermarkSize : Size) (scaleFactor : Q) : Pos :=
  (* [positionSettings || {}] *)
  let preset := option_map Position.preset positionSettings in
  let offsetX :=
    match positionSettings with
    | Some p => numOf (withDefault (Position.x p) 0)
    | None => 0
    end in
  let offsetY :=
    match positionSettings with
    | Some p => numOf (withDefault (Position.y p) 0)
    | None => 0
    end in
  let boundsX := Bounds.x bounds in
  let boundsY := Bounds.y bounds in
  let boundsWidth := Bounds.width bounds in
  let boundsHeight := Bounds.height bounds in
  let wmWidth := sz_width watermarkSize in
  let wmHeight := sz_height watermarkSize in
  let scaledWmWidth := wmWidth * scaleFactor in
  let scaledWmHeight := wmHeight * scaleFactor in
  let scaledOffsetX := offsetX * scaleFactor in
  let scaledOffsetY := offsetY * scaleFactor in
  match preset with
  | Some "custom" =>
      let nx := Math_max 0 (Math_min 1 (orQ offsetX 0 / 1000)) in
      let ny := Math_max 0 (Math_min 1 (orQ offsetY 0 / 1000)) in
      (* "Calculate center position, then convert to top-left" *)
      let centerX := boundsX + boundsWidth * nx in
      let centerY := boundsY + boundsHeight * ny in
      {| x := centerX - scaledWmWidth / 2;
         y := centerY - scaledWmHeight / 2;
         scaleFactor := scaleFactor |}
  | _ =>
      let (baseX, baseY) :=
        match preset with
        | Some p => anchorBase p bounds scaledWmWidth scaledWmHeight
        | None => (boundsX + boundsWidth / 2, boundsY + boundsHeight / 2)
        end in
      {| x := baseX + scaledOffsetX;
         y := baseY + scaledOffsetY;
         scaleFactor := scaleFactor |}
  end.

(** The value of [actualTransform] in the two layer renderers: the
    transform rescaled from the preview canvas to [bounds] when both
    preview dimensions are truthy, the transform itself otherwise. *)
Definition actualTransform (transform : Transform.t) (bounds : Bounds.t)
  : Transform.t :=
  match Transform.previewCanvasWidth transform,
        Transform.previewCanvasHeight transform with
  | Some previewCanvasWidth, Some previewCanvasHeight =>
      if truthyQ previewCanvasWidth && truthyQ previewCanvasHeight then
        let scaleX := Bounds.width bounds / previewCanvasWidth in
        let scaleY := Bounds.height bounds / previewCanvasHeight in
        {| Transform.x := Transform.x transform * scaleX;
           Transform.y := Transform.y transform * scaleY;
           Transform.width := Transform.width transform * scaleX;
           Transform.height := Transform.height transform * scaleY;
           Transform.rotation := Transform.rotation transform;
           Transform.previewCanvasWidth := None;
           Transform.previewCanvasHeight := None |}
      else transform
  | _, _ => transform
  end.

(** The error is logged and not thrown again. *)
Definition applyTextWatermark (settings : Settings.t)
    (bounds : Bounds.t) (scaleFactor : Q) : Js Canvas unit :=
  try_catch
    (let transform := Settings.transform settings in
     save ;;
     let actual := option_map (fun t => actualTransform t bounds) transform in
     text <- prop "size" (Settings.text settings) ;;
     let fontSize := Text.size text * scaleFactor in
     set_font {| font_px := fontSize; font_family := Text.font text;
                 font_quoted := true |} ;;
     set_fillStyle (Text.color text) ;;
     set_globalAlpha (Text.opacity text / 100) ;;
     set_textAlign "center" ;;
     set_textBaseline "middle" ;;
     a <- prop "x" actual ;;
     let centerX := Transform.x a + Transform.width a / 2 in
     let centerY := Transform.y a + Transform.height a / 2 in
     translate centerX centerY ;;
     rotate (Transform.rotation a) ;;
     set_imageSmoothingEnabled true ;;
     fillText (Text.content text) 0 0 ;;
     restore)
    (fun error => ret tt).

(** What [img.src = image.imageData] receives. *)
Definition srcOf (d : ImageData) : string :=
  match d with
  | DataUrl src => src
  | Loaded _ => "[object Object]"
  end.

Section WithHost.
Context (host : Host).

(** [await new Promise(resolve => img.onload = resolve)]. *)
Definition loaded (src : string) : Js Canvas Raster :=
  match decode host src with
  | Some img => ret img
  | None => never
  end.

Definition applyImageWatermark (settings : Settings.t)
    (bounds : Bounds.t) (scaleFactor : Q) : Js Canvas unit :=
  try_catch
    (let position := Settings.position settings in
     let transform := Settings.transform settings in
     image <- prop "imageData" (Settings.image settings) ;;
     match Image.imageData image with
     | Some d =>
       if negb (truthyImageData (Some d)) then ret tt
       else
         img <- loaded (srcOf d) ;;
         save ;;
         match transform with
         | Some t =>
             let a := actualTransform t bounds in
             let centerX := Transform.x a + Transform.width a / 2 in
             let centerY := Transform.y a + Transform.height a / 2 in
             translate centerX centerY ;;
             rotate (orQ (Transform.rotation a) 0) ;;
             set_globalAlpha (Image.opacity image / 100) ;;
             set_imageSmoothingEnabled true ;;
             set_imageSmoothingQuality "high" ;;
             drawImage img (- Transform.width a / 2)
               (- Transform.height a / 2)
               (Transform.width a) (Transform.height a)
         | None =>
             let originalWidth := naturalWidth img in
             let originalHeight := naturalHeight img in
             let scale := orQ (Image.scale image) 100 / 100 * scaleFactor in
             let watermarkWidth := originalWidth * scale in
             let watermarkHeight := originalHeight * scale in
             let pos :=
               calculatePosition position bounds
                 {| sz_width := watermarkWidth;
                    sz_height := watermarkHeight |} scaleFactor in
             let rotation := orQ (Image.rotation image) 0 in
             when (negb (Qeq_bool rotation 0))
               (let centerX := x pos + watermarkWidth / 2 in
                let centerY := y pos + watermarkHeight / 2 in
                translate centerX centerY ;;
                rotate rotation ;;
                translate (- centerX) (- centerY)) ;;
             set_globalAlpha (Image.opacity image / 100) ;;
             set_imageSmoothingEnabled true ;;
             set_imageSmoothingQuality "high" ;;
             drawImage img (x pos) (y pos) watermarkWidth watermarkHeight
         end ;;
         restore
     | None => ret tt
     end)
    (fun error => throw error).

Definition applyWatermark : Settings.t -> Bounds.t -> Q -> Js Canvas unit :=
  applyWatermarkWith applyTextWatermark applyImageWatermark.

Definition applyWatermarks :
  list Settings.t -> Bounds.t -> Q -> Js Canvas unit :=
  applyWatermarksWith applyWatermark.

Definition generateWatermarkedImage :
  SourceImageData -> Settings.t -> Js Canvas Generated :=
  generateWatermarkedImageWith applyWatermark.

(** The argument of the [console.log] of each round is evaluated:
    it reads [wm.text.content] for a text watermark. *)
Definition generateWatermarkedImageMultiple
    (sourceImageData : SourceImageData) (watermarks : list Settings.t)
  : Js Canvas Generated :=
  try_catch
    (img <- prop "width" (element sourceImageData) ;;
     modify (fun _ => freshCanvas) ;;
     clearRect 0 0 (naturalWidth img) (naturalHeight img) ;;
     drawImage img 0 0 (naturalWidth img) (naturalHeight img) ;;
     let bounds :=
       Bounds.mk 0 0 (naturalWidth img) (naturalHeight img) in
     for_of watermarks
       (fun wm =>
          when (String.eqb (Settings.type wm) "text")
            (_ <- prop "content" (Settings.text wm) ;; ret tt) ;;
          applyWatermark wm bounds 1) ;;
     let first := List.hd_error watermarks in
     let firstOutput :=
       match first with
       | Some wm => Settings.output wm
       | None => None
       end in
     let out :=
       match firstOutput with
       | Some o => if truthyS (Output.format o)
                   then Output.format o else "png"
       | None => "png"
       end in
     let qual :=
       match firstOutput with
       | Some o => orQ (Output.quality o) 95
       | None => 95
       end in
     let format :=
       if String.eqb out "jpeg" then "image/jpeg"
       else if String.eqb out "webp" then "image/webp"
       else "image/png" in
     let quality := Math_max 0 (Math_min 1 (qual / 100)) in
     url <- toDataURL format quality ;;
     ret {| dataUrl := url; width := naturalWidth img;
            height := naturalHeight img; format := format |})
    (fun error =>
       throw (mkError ("Failed to generate watermarked image: "
                       ++ message error))).
End WithHost.

Definition validPositions : list string := (anchors ++ ["custom"])%list.

Definition validateSettings (settings : Settings.t) : Validation.t :=
  validationOf
    (validateContent settings ;;
     position <- prop "preset" (Settings.position settings) ;;
     let preset := Position.preset position in
     when (negb (includes validPositions preset))
       (push ("Invalid position preset: " ++ preset)) ;;
     when (String.eqb preset "custom")
       (when (negb (typeof_number (Position.x position))
              || negb (typeof_number (Position.y position)))
          (push "Custom position requires valid x and y coordinates") ;;
        when (js_lt (Position.x position) 0
              || js_gt (Position.x position) 1000
              || js_lt (Position.y position) 0
              || js_gt (Position.y position) 1000)
          (push "Custom position coordinates must be between 0 and 1000"))).
End Engine.

(** ** [Array.prototype.sort]

    The sort of the language is stable; with a comparator that is a
    difference of integers every stable sort returns the same array, here
    computed by insertion. *)

Fixpoint insertSorted {A} (compareFn : A -> A -> Z) (a : A) (l : list A)
  : list A :=
  match l with
  | [] => [a]
  | b :: r =>
      if (compareFn a b <=? 0)%Z then a :: l
      else b :: insertSorted compareFn a r
  end.

Definition array_sort {A} (compareFn : A -> A -> Z) (l : list A) : list A :=
  fold_right (insertSorted compareFn) [] l.

(** [Math.round]: the nearest integer, halves upwards. *)
Definition Math_round (q : Q) : Q := inject_Z (Qfloor (q + (1 # 2))).

(** [n] is a whole number less than one away from [x]: an answer of
    [Math.round] for a value computed as [x]. *)
Definition wholeNear (n x : Q) : Prop :=
  (exists z : Z, n = inject_Z z) /\ x - 1 < n /\ n < x + 1.

(** ** The editing session ([js/app.js]) *)

Module App.
Local Open Scope string_scope.
Local Open Scope js_scope.

Record Scaling : Type := mkScaling
  { baseFontSize : option Q;
    baseWidth : Q;
    baseHeight : Q;
    aspectRatio : option Q;
    minFontSize : Q;
    maxFontSize : Q;
    fontScaleFactor : Q;
    maintainAspectRatio : bool }.

Record Watermark : Type := mkWatermark
  { id : Z;
    settings : Settings.t;
    transform : Transform.t;
    zIndex : Z;
    scaling : Scaling }.

Record Session : Type := mkSession
  { watermarks : list Watermark;
    watermarkIdCounter : Z;
    canvasBounds : Bounds.t;
    watermarkSettings : Settings.t }.

Definition truthyOQ (v : option Q) : bool :=
  match v with Some q => truthyQ q | None => false end.

(** [img.width / img.height] of the image data when both are truthy. *)
Definition aspectOf (image : option Image.t) : option Q :=
  match image with
  | Some im =>
      match Image.imageData im with
      | Some (Loaded o) =>
          if truthyQ (li_width o) && truthyQ (li_height o)
          then Some (li_width o / li_height o) else None
      | _ => None
      end
  | None => None
  end.

Definition createWatermark (settings : option Settings.t)
  : Js Session Watermark :=
  fun this =>
    let watermarkSettings :=
      match settings with
      | Some s => s
      | None => watermarkSettings this
      end in
    let isText := String.eqb (Settings.type watermarkSettings) "text" in
    let counter := (watermarkIdCounter this + 1)%Z in
    let this' :=
      {| watermarks := watermarks this;
         watermarkIdCounter := counter;
         canvasBounds := canvasBounds this;
         watermarkSettings := App.watermarkSettings this |} in
    let n := inject_Z (Z.of_nat (List.length (watermarks this))) in
    let w := if isText then 200 else 150 in
    let h := if isText then 60 else 100 in
    let build (base : option Q) : Watermark :=
      let centred :=
        Nat.eqb (List.length (watermarks this)) 0
        && Qgtb (Bounds.width (canvasBounds this)) 0 in
      {| id := counter;
         settings := watermarkSettings;
         transform :=
           {| Transform.x :=
                if centred
                then (Bounds.width (canvasBounds this) - w) / 2
                else 50 + n * 30;
              Transform.y :=
                if centred
                then (Bounds.height (canvasBounds this) - h) / 2
                else 50 + n * 30;
              Transform.width := w;
              Transform.height := h;
              Transform.rotation := 0;
              Transform.previewCanvasWidth := None;
              Transform.previewCanvasHeight := None |};
         zIndex := counter;
         scaling :=
           {| baseFontSize := base;
              baseWidth := w;
              baseHeight := h;
              aspectRatio :=
                if isText then None
                else aspectOf (Settings.image watermarkSettings);
              minFontSize := 8;
              maxFontSize := 200;
              fontScaleFactor := 1;
              maintainAspectRatio := negb isText |} |} in
    if isText then
      match Settings.text watermarkSettings with
      | Some text => (Returned (build (Some (Text.size text))), this')
      | None => (Thrown (TypeError "size"), this')
      end
    else (Returned (build None), this').

(** The function reads a field of the watermark and changes none. *)
Definition calculateDynamicFontSize (watermark : Watermark) : Outcome Q :=
  let base := baseFontSize (scaling watermark) in
  if negb (String.eqb (Settings.type (settings watermark)) "text")
     || negb (truthyOQ base)
  then
    match Settings.text (settings watermark) with
    | Some text => Returned (Text.size text)
    | None => Thrown (TypeError "size")
    end
  else
    let widthScale :=
      Transform.width (transform watermark)
      / baseWidth (scaling watermark) in
    let heightScale :=
      Transform.height (transform watermark)
      / baseHeight (scaling watermark) in
    let scaleFactor := Math_min widthScale heightScale in
    let newFontSize :=
      match base with Some b => b * scaleFactor | None => 0 end in
    Returned
      (Math_max (minFontSize (scaling watermark))
         (Math_min (maxFontSize (scaling watermark)) newFontSize)).

Definition setSize (w : Watermark) (width height : Q) : Watermark :=
  let t := transform w in
  {| id := id w; settings := settings w;
     transform :=
       {| Transform.x := Transform.x t; Transform.y := Transform.y t;
          Transform.width := width; Transform.height := height;
          Transform.rotation := Transform.rotation t;
          Transform.previewCanvasWidth := Transform.previewCanvasWidth t;
          Transform.previewCanvasHeight := Transform.previewCanvasHeight t |};
     zIndex := zIndex w; scaling := scaling w |}.

Definition setFontScaleFactor (w : Watermark) (f : Q) : Watermark :=
  let s := scaling w in
  {| id := id w; settings := settings w; transform := transform w;
     zIndex := zIndex w;
     scaling :=
       {| baseFontSize := baseFontSize s; baseWidth := baseWidth s;
          baseHeight := baseHeight s; aspectRatio := aspectRatio s;
          minFontSize := minFontSize s; maxFontSize := maxFontSize s;
          fontScaleFactor := f;
          maintainAspectRatio := maintainAspectRatio s |} |}.

Definition setTextSize (w : Watermark) (text : Text.t) (size : Q)
  : Watermark :=
  let s := settings w in
  {| id := id w;
     settings :=
       {| Settings.type := Settings.type s;
          Settings.text :=
            Some (Text.mk (Text.content text) (Text.font text) size
                    (Text.color text) (Text.opacity text)
                    (Text.rotation text));
          Settings.image := Settings.image s;
          Settings.position := Settings.position s;
          Settings.transform := Settings.transform s;
          Settings.output := Settings.output s |};
     transform := transform w; zIndex := zIndex w; scaling := scaling w |}.

Definition lift {S A} (o : Outcome A) : Js S A := fun s => (o, s).
Definition get {S} : Js S S := fun s => (Returned s, s).

(** [updateWatermarkScaling] mutates the watermark it is given; the
    image branch only reassigns its own parameters. *)
Definition updateWatermarkScaling (newWidth newHeight : Q)
  : Js Watermark Size :=
  modify (fun w => setSize w newWidth newHeight) ;;
  watermark <- get ;;
  (if String.eqb (Settings.type (settings watermark)) "text" then
     let widthScale := newWidth / baseWidth (scaling watermark) in
     let heightScale := newHeight / baseHeight (scaling watermark) in
     modify (fun w =>
               setFontScaleFactor w (Math_min widthScale heightScale)) ;;
     watermark <- get ;;
     newFontSize <- lift (calculateDynamicFontSize watermark) ;;
     text <- match Settings.text (settings watermark) with
             | Some text => ret text
             | None => throw (SetTypeError "size")
             end ;;
     modify (fun w => setTextSize w text newFontSize)
   else ret tt) ;;
  watermark <- get ;;
  ret {| sz_width := Transform.width (transform watermark);
         sz_height := Transform.height (transform watermark) |}.
(** [[...this.watermarks].sort((a, b) => a.zIndex - b.zIndex)]. *)
Definition byZIndex (a b : Watermark) : Z := (zIndex a - zIndex b)%Z.

Definition sortedWatermarksToRender (this : Session) : list Watermark :=
  array_sort byZIndex (watermarks this).

(** [renderWatermarksOnCanvas], over the renderer of one watermark. *)
Definition renderWatermarksOnCanvas {S}
    (renderSingleWatermark : Watermark -> Js S unit) (this : Session)
  : Js S unit :=
  for_of (sortedWatermarksToRender this) renderSingleWatermark.

(** A renderer that only records which watermark it was called with. *)
Definition recordCall (w : Watermark) : Js (list Watermark) unit :=
  modify (fun calls => (calls ++ [w])%list).

Definition invocations (this : Session) : list Watermark :=
  snd (renderWatermarksOnCanvas recordCall this []).

Definition setText (s : Settings.t) (t : option Text.t) : Settings.t :=
  {| Settings.type := Settings.type s; Settings.text := t;
     Settings.image := Settings.image s;
     Settings.position := Settings.position s;
     Settings.transform := Settings.transform s;
     Settings.output := Settings.output s |}.

Definition setImage (s : Settings.t) (i : option Image.t) : Settings.t :=
  {| Settings.type := Settings.type s; Settings.text := Settings.text s;
     Settings.image := i;
     Settings.position := Settings.position s;
     Settings.transform := Settings.transform s;
     Settings.output := Settings.output s |}.

(** [JSON.parse(JSON.stringify(settings))]: of a loaded image object the
    DOM element does not survive (it comes back as an empty object, which
    the transform-based engine never reads). *)
Definition cloneImage (image : option Image.t) : option Image.t :=
  match image with
  | Some im =>
      Some (Image.mk
              match Image.imageData im with
              | Some (Loaded o) =>
                  Some (Loaded {| li_src := li_src o; li_width := li_width o;
                                  li_height := li_height o;
                                  li_element := None |})
              | d => d
              end
              (Image.scale im) (Image.opacity im) (Image.rotation im))
  | None => None
  end.

(** [toSettingsFromWatermark] of [getWatermarkSettingsFromTransform]; the
    [scalingInfo] notes it attaches are not read by the engine. *)
Definition toSettingsFromWatermark (this : Session) (wm : Watermark)
  : Outcome Settings.t :=
  let t := transform wm in
  let cx := Transform.x t + Transform.width t / 2 in
  let cy := Transform.y t + Transform.height t / 2 in
  let canvasWidth := orQ (Bounds.width (canvasBounds this)) 800 in
  let canvasHeight := orQ (Bounds.height (canvasBounds this)) 600 in
  let out :=
    {| Settings.type := Settings.type (settings wm);
       Settings.text := Settings.text (settings wm);
       Settings.image := cloneImage (Settings.image (settings wm));
       Settings.position :=
         Some {| Position.preset := "custom";
                 Position.x := JNum (Math_round (cx / canvasWidth * 1000));
                 Position.y := JNum (Math_round (cy / canvasHeight * 1000)) |};
       Settings.transform :=
         Some {| Transform.x := Transform.x t;
                 Transform.y := Transform.y t;
                 Transform.width := Transform.width t;
                 Transform.height := Transform.height t;
                 Transform.rotation := orQ (Transform.rotation t) 0;
                 Transform.previewCanvasWidth := Some canvasWidth;
                 Transform.previewCanvasHeight := Some canvasHeight |};
       Settings.output := Settings.output (settings wm) |} in
  if String.eqb (Settings.type out) "text" then
    match Settings.text out with
    | None => Thrown (SetTypeError "rotation")
    | Some text =>
        match calculateDynamicFontSize wm with
        | Returned dynamicFontSize =>
            Returned
              (setText out
                 (Some (Text.mk (Text.content text) (Text.font text)
                          (Math_round dynamicFontSize) (Text.color text)
                          (Text.opacity text)
                          (Math_round (orQ (Transform.rotation t) 0)))))
        | Thrown e => Thrown e
        | Pending => Pending
        end
    end
  else if String.eqb (Settings.type out) "image" then
    match Settings.image out with
    | None => Thrown (SetTypeError "rotation")
    | Some image =>
        let rotation := Math_round (orQ (Transform.rotation t) 0) in
        let nat :=
          match Settings.image (settings wm) with
          | Some original =>
              match Image.imageData original with
              | Some (Loaded o) => li_element o
              | _ => None
              end
          | None => None
          end in
        let scale :=
          match nat with
          | Some img =>
              if truthyQ (naturalWidth img) && truthyQ (naturalHeight img)
              then
                let scaleX := Transform.width t / naturalWidth img in
                let scaleY := Transform.height t / naturalHeight img in
                Math_max 1
                  (Math_min 500 (Math_round (Math_min scaleX scaleY * 100)))
              else Image.scale image
          | None => Image.scale image
          end in
        Returned
          (setImage out
             (Some (Image.mk (Image.imageData image) scale
                      (Image.opacity image) rotation)))
    end
  else Returned out.

Fixpoint mapOutcome {A B} (f : A -> Outcome B) (l : list A)
  : Outcome (list B) :=
  match l with
  | [] => Returned []
  | a :: r =>
      match f a with
      | Returned b =>
          match mapOutcome f r with
          | Returned bs => Returned (b :: bs)
          | Thrown e => Thrown e
          | Pending => Pending
          end
      | Thrown e => Thrown e
      | Pending => Pending
      end
  end.

(** The multi-watermark branch of [getWatermarkSettingsFromTransform],
    which the function takes when the session has a watermark.  With no
    watermark the function answers one settings object made from the
    single box of the session ([this.watermarkTransform]) instead of an
    array; that branch is not part of this definition, whose answer for
    an empty list of watermarks is the empty list. *)
Definition getWatermarkSettingsFromTransform (this : Session)
  : Outcome (list Settings.t) :=
  let ordered := array_sort byZIndex (watermarks this) in
  mapOutcome (toSettingsFromWatermark this) ordered.
End App.

(** ** The batch queue ([js/batchProcessor.js]) *)

Module Batch.
Local Open Scope string_scope.
Local Open Scope js_scope.

Record SourceImage : Type := mkSourceImage
  { name : string; imageData : option SourceImageData }.

(** The [settings] argument: one settings object or an array of them. *)
Inductive SettingsArg : Type :=
| One (s : Settings.t)
| Many (l : list Settings.t).

(** The fields of a result that do not depend on the clock. *)
Record Result : Type := mkResult
  { originalName : string;
    res_dataUrl : Encoded;
    res_width : Q;
    res_height : Q;
    res_format : string }.

(** An item of the queue; its [image] is whatever was handed to
    [addToQueue], [None] for [null] or [undefined]. *)
Record QueueItem : Type := mkItem
  { image : option SourceImage;
    settings : SettingsArg;
    status : string;
    result : option Result;
    error : option string }.

Record ErrorEntry : Type := mkErrorEntry
  { err_image : string; err_error : string }.

(** The processor; [canvas] is the canvas of its [watermarkEngine].  The
    callbacks [onProgress], [onComplete] and [onError] are unset, as the
    constructor leaves them, and nobody calls [stopProcessing] while the
    queue runs. *)
Record BatchProcessor : Type := mkBatch
  { processingQueue : list QueueItem;
    isProcessing : bool;
    results : list Result;
    errors : list ErrorEntry;
    shouldStop : bool;
    canvas : Canvas }.

Record Summary : Type := mkSummary
  { total : nat; completed : nat; failed : nat; pending : nat;
    processing : nat;
    sum_results : list Result; sum_errors : list ErrorEntry }.

Definition get {S} : Js S S := fun s => (Returned s, s).

(** Code of the engine, run on the canvas the processor owns. *)
Definition onCanvas {A} (c : Js Canvas A) : Js BatchProcessor A :=
  fun this =>
    let (o, cv) := c (canvas this) in
    (o, {| processingQueue := processingQueue this;
           isProcessing := isProcessing this;
           results := results this;
           errors := errors this;
           shouldStop := shouldStop this;
           canvas := cv |}).

Definition withQueue (f : list QueueItem -> list QueueItem)
  : Js BatchProcessor unit :=
  modify (fun this =>
    {| processingQueue := f (processingQueue this);
       isProcessing := isProcessing this;
       results := results this;
       errors := errors this;
       shouldStop := shouldStop this;
       canvas := canvas this |}).

Fixpoint updateAt {A} (i : nat) (f : A -> A) (l : list A) : list A :=
  match l, i with
  | [], _ => []
  | a :: r, O => f a :: r
  | a :: r, S j => a :: updateAt j f r
  end.

(** A write to a property of [this.processingQueue[i]]. *)
Definition onItem (i : nat) (f : QueueItem -> QueueItem)
  : Js BatchProcessor unit :=
  withQueue (updateAt i f).

Definition setStatus (s : string) (it : QueueItem) : QueueItem :=
  {| image := image it; settings := settings it; status := s;
     result := result it; error := error it |}.
Definition setResult (r : Result) (it : QueueItem) : QueueItem :=
  {| image := image it; settings := settings it; status := status it;
     result := Some r; error := error it |}.
Definition setError (e : string) (it : QueueItem) : QueueItem :=
  {| image := image it; settings := settings it; status := status it;
     result := result it; error := Some e |}.

Definition pushResult (r : Result) : Js BatchProcessor unit :=
  modify (fun this =>
    {| processingQueue := processingQueue this;
       isProcessing := isProcessing this;
       results := (results this ++ [r])%list;
       errors := errors this;
       shouldStop := shouldStop this;
       canvas := canvas this |}).

Definition pushError (e : ErrorEntry) : Js BatchProcessor unit :=
  modify (fun this =>
    {| processingQueue := processingQueue this;
       isProcessing := isProcessing this;
       results := results this;
       errors := (errors this ++ [e])%list;
       shouldStop := shouldStop this;
       canvas := canvas this |}).

Definition setIsProcessing (b : bool) : Js BatchProcessor unit :=
  modify (fun this =>
    {| processingQueue := processingQueue this;
       isProcessing := b;
       results := results this;
       errors := errors this;
       shouldStop := shouldStop this;
       canvas := canvas this |}).

(** [this.shouldStop = false; this.results = []; this.errors = []]. *)
Definition resetRun : Js BatchProcessor unit :=
  modify (fun this =>
    {| processingQueue := processingQueue this;
       isProcessing := isProcessing this;
       results := [];
       errors := [];
       shouldStop := false;
       canvas := canvas this |}).

(** [try { c } finally { f }]; a pending [c] never reaches [f]. *)
Definition try_finally {S A} (c : Js S A) (f : Js S unit) : Js S A :=
  fun s =>
    match c s with
    | (Pending, s') => (Pending, s')
    | (o, s') =>
        match f s' with
        | (Returned _, s'') => (o, s'')
        | (Thrown e, s'') => (Thrown e, s'')
        | (Pending, s'') => (Pending, s'')
        end
    end.

Definition countStatus (s : string) (q : list QueueItem) : nat :=
  List.length (filter (fun it => String.eqb (status it) s) q).

Definition generateProcessingSummary : Js BatchProcessor Summary :=
  this <- get ;;
  let q := processingQueue this in
  ret {| total := List.length q;
         completed := countStatus "completed" q;
         failed := countStatus "failed" q;
         pending := countStatus "pending" q;
         processing := countStatus "processing" q;
         sum_results := results this;
         sum_errors := errors this |}.

Section WithHost.
Context (host : Host).

(** The validation step of [processImage]. *)
Definition checkSettings {S} (s : Settings.t) : Js S unit :=
  let validation := Engine.validateSettings s in
  if negb (Validation.isValid validation) then
    throw (mkError ("Invalid settings: "
                    ++ String.concat ", " (Validation.errors validation)))
  else ret tt.

(** The argument of the [console.log] that describes one watermark. *)
Definition describe {S} (s : Settings.t) : Js S unit :=
  when (String.eqb (Settings.type s) "text")
    (_ <- prop "content" (Settings.text s) ;; ret tt).

(** [processImage]; with no [sourceImage] the [catch] itself throws,
    on reading [sourceImage.name]. *)
Definition processImage (sourceImage : option SourceImage)
    (settings : SettingsArg) : Js Canvas Result :=
  try_catch
    (image <- match sourceImage with
              | Some image => ret image
              | None => throw (mkError "Invalid source image data")
              end ;;
     data <- match imageData image with
             | Some d => ret d
             | None => throw (mkError "Invalid source image data")
             end ;;
     match settings with
     | Many l =>
         when (Nat.eqb (List.length l) 0)
           (throw (mkError "No watermark settings provided")) ;;
         for_of l checkSettings
     | One s => checkSettings s
     end ;;
     match settings with
     | Many l => for_of l describe
     | One s => describe s
     end ;;
     generated <-
       match settings with
       | Many l => Engine.generateWatermarkedImageMultiple host data l
       | One s => Engine.generateWatermarkedImage host data s
       end ;;
     ret {| originalName := name image;
            res_dataUrl := dataUrl generated;
            res_width := width generated;
            res_height := height generated;
            res_format := format generated |})
    (fun error =>
       image <- prop "name" sourceImage ;;
       throw (mkError ("Failed to process " ++ name image ++ ": "
                       ++ message error))).

(** One round of the [for] loop of [processQueue], for the item at [i].
    The text of the progress report and the entry of the error list both
    read [item.image.name]: without an image the first read throws in
    the [try] and the second in the [catch], out of the loop. *)
Definition processItem (i : nat) (item : QueueItem)
  : Js BatchProcessor unit :=
  try_catch
    (onItem i (setStatus "processing") ;;
     _ <- prop "name" (image item) ;;
     result <- onCanvas (processImage (image item) (settings item)) ;;
     onItem i (setResult result) ;;
     onItem i (setStatus "completed") ;;
     pushResult result)
    (fun error =>
       onItem i (setError (message error)) ;;
       onItem i (setStatus "failed") ;;
       image <- prop "name" (image item) ;;
       pushError {| err_image := name image;
                    err_error := message error |}).

(** The loop from index [i]; [rounds] is the number of items left. *)
Fixpoint processFrom (rounds i : nat) : Js BatchProcessor unit :=
  match rounds with
  | O => ret tt
  | S rounds' =>
      this <- get ;;
      if shouldStop this then ret tt
      else
        match nth_error (processingQueue this) i with
        | None => ret tt
        | Some item =>
            processItem i item ;;
            processFrom rounds' (S i)
        end
  end.

Definition processQueue : Js BatchProcessor Summary :=
  this <- get ;;
  if isProcessing this then throw (mkError "Already processing queue")
  else if Nat.eqb (List.length (processingQueue this)) 0 then
    throw (mkError "No images in queue to process")
  else
    try_finally
      (try_catch
         (setIsProcessing true ;;
          resetRun ;;
          processFrom (List.length (processingQueue this)) 0 ;;
          generateProcessingSummary)
         (fun error => throw error))
      (setIsProcessing false).
End WithHost.
End Batch.

(** ** 32-bit integer operators

    The bitwise operators of the language work on the 32-bit two's
    complement image of an integer. *)

Definition toInt32 (z : Z) : Z :=
  ((z + 2147483648) mod 4294967296 - 2147483648)%Z.

(** [x << n] *)
Definition shiftLeft (x n : Z) : Z :=
  toInt32 (Z.shiftl (toInt32 x) (Z.land n 31)).

(** [x & y] *)
Definition bitAnd (x y : Z) : Z :=
  toInt32 (Z.land (toInt32 x) (toInt32 y)).

(** ** The helpers of [js/utils.js], on integers and finite numbers *)

Module Utils.
Local Open Scope string_scope.

Definition clamp (value min max : Q) : Q :=
  Math_min (Math_max value min) max.

Definition lerp (start end_ factor : Q) : Q :=
  start + (end_ - start) * factor.

(** [gcd(a, b)] on integers; [a % b] has the sign of [a]. *)
Function gcd (a b : Z) {measure Z.abs_nat b} : Z :=
  if (b =? 0)%Z then a else gcd b (Z.rem a b).
Proof.
  intros a b Hb. apply Z.eqb_neq in Hb.
  pose proof (Z.rem_bound_abs a b Hb). lia.
Defined.

(** The same regular expression as in the engine. *)
Definition hexToRgb (hex : string) : option Legacy.Rgb := Legacy.hexToRgb hex.

(** The digit of [Number.prototype.toString(16)] for [d] in 0..15. *)
Definition hexChar (d : Z) : ascii :=
  if (d <? 10)%Z then ascii_of_nat (Z.to_nat (48 + d))
  else ascii_of_nat (Z.to_nat (87 + d)).

(** The hexadecimal digits of a non-negative integer, before [acc]. *)
Function hexDigits (n : Z) (acc : string) {measure Z.to_nat n} : string :=
  if (0 <? n / 16)%Z
  then hexDigits (n / 16) (String (hexChar (n mod 16)) acc)
  else String (hexChar (n mod 16)) acc.
Proof.
  intros n acc H. apply Z.ltb_lt in H.
  assert (0 < n)%Z by (destruct (Z_lt_le_dec 0 n) as [|Hn]; [assumption|];
    pose proof (Z.div_le_upper_bound n 16 0); lia).
  assert (n / 16 < n)%Z by (apply Z.div_lt; lia).
  lia.
Defined.

(** [n.toString(16)] on an integer. *)
Definition toString16 (n : Z) : string :=
  if (n <? 0)%Z then String "-" (hexDigits (- n) "") else hexDigits n "".

(** [s.slice(1)] *)
Definition slice1 (s : string) : string :=
  match s with
  | EmptyString => EmptyString
  | String _ r => r
  end.

Definition rgbToHex (r g b : Z) : string :=
  "#" ++ slice1 (toString16
                   (shiftLeft 1 24 + shiftLeft r 16 + shiftLeft g 8 + b)%Z).

(** The body of the [for] loop of [hashString], from the character at
    the head of [str] on. *)
Fixpoint hashFrom (hash : Z) (str : string) : Z :=
  match str with
  | EmptyString => hash
  | String c rest =>
      let char := Z.of_nat (nat_of_ascii c) in
      let hash := (shiftLeft hash 5 - hash + char)%Z in
      let hash := bitAnd hash hash in
      hashFrom hash rest
  end.

Definition hashString (str : string) : Z :=
  let hash := 0%Z in
  if Nat.eqb (String.length str) 0 then hash else hashFrom hash str.

End Utils.

(** ** Fitting a picture into a box *)

Module MediaEditor.

(** [calculateScaledDimensions] of [js/mediaEditor.js]. *)
Definition calculateScaledDimensions
    (originalWidth originalHeight maxWidth maxHeight : Q) : Size :=
  let aspectRatio := originalWidth / originalHeight in
  let width := originalWidth in
  let height := originalHeight in
  let '(width, height) :=
    if Qgtb width maxWidth then (maxWidth, maxWidth / aspectRatio)
    else (width, height) in
  let '(width, height) :=
    if Qgtb height maxHeight then (maxHeight * aspectRatio, maxHeight)
    else (width, height) in
  {| sz_width := Math_round width; sz_height := Math_round height |}.

End MediaEditor.

Module VideoProcessor.

Record Resize : Type := mkResize
  { width : Q; height : Q; scaleX : Q; scaleY : Q;
    aspectRatio : option Q }.

(** [calculateVideoResize]; the answer without [maintainAspectRatio]
    has no [aspectRatio] property and is not rounded. *)
Definition calculateVideoResize
    (originalWidth originalHeight maxWidth maxHeight : Q)
    (maintainAspectRatio : bool) : Resize :=
  if negb maintainAspectRatio then
    {| width := maxWidth; height := maxHeight;
       scaleX := maxWidth / originalWidth;
       scaleY := maxHeight / originalHeight;
       aspectRatio := None |}
  else
    let aspectRatio := originalWidth / originalHeight in
    let '(newWidth, newHeight) :=
      if Qgtb (maxWidth / maxHeight) aspectRatio
      then (maxHeight * aspectRatio, maxHeight)
      else (maxWidth, maxWidth / aspectRatio) in
    {| width := Math_round newWidth; height := Math_round newHeight;
       scaleX := newWidth / originalWidth;
       scaleY := newHeight / originalHeight;
       aspectRatio := Some aspectRatio |}.

End VideoProcessor.

(** ** Previews

    The preview functions draw on the second canvas of the engine
    ([this.tempCanvas]), which is the state below. *)

Record Preview : Type := mkPreview
  { pv_type : string; pv_pixels : list PaintCmd; pv_width : Q; pv_height : Q }.

(** [canvas.toDataURL('image/png')] *)
Definition toPngDataURL : Js Canvas (string * list PaintCmd) :=
  fun c => (Returned ("image/png"%string, painted c), c).

Module EnginePreview.
Local Open Scope string_scope.
Local Open Scope js_scope.
Section WithHost.
Context (host : Host).

(** [generatePreview] of the transform-based engine: the preview scale
    is handed on as the scale factor. *)
Definition generatePreview (sourceImageData : SourceImageData)
    (settings : Settings.t) (maxSize : Q) : Js Canvas Preview :=
  try_catch
    (img <- prop "width" (element sourceImageData) ;;
     let scale := Math_min (maxSize / naturalWidth img)
                    (maxSize / naturalHeight img) in
     let previewWidth := Math_round (naturalWidth img * scale) in
     let previewHeight := Math_round (naturalHeight img * scale) in
     modify (fun _ => freshCanvas) ;;
     modify (fun _ => freshCanvas) ;;
     clearRect 0 0 previewWidth previewHeight ;;
     drawImage img 0 0 previewWidth previewHeight ;;
     let bounds := Bounds.mk 0 0 previewWidth previewHeight in
     Engine.applyWatermark host settings bounds scale ;;
     url <- toPngDataURL ;;
     ret {| pv_type := fst url; pv_pixels := snd url;
            pv_width := previewWidth; pv_height := previewHeight |})
    (fun error =>
       throw (mkError ("Failed to generate preview: " ++ message error))).

Definition generatePreviewMultiple (sourceImageData : SourceImageData)
    (watermarks : list Settings.t) (maxSize : Q) : Js Canvas Preview :=
  try_catch
    (img <- prop "width" (element sourceImageData) ;;
     let scale := Math_min (maxSize / naturalWidth img)
                    (maxSize / naturalHeight img) in
     let previewWidth := Math_round (naturalWidth img * scale) in
     let previewHeight := Math_round (naturalHeight img * scale) in
     modify (fun _ => freshCanvas) ;;
     modify (fun _ => freshCanvas) ;;
     clearRect 0 0 previewWidth previewHeight ;;
     drawImage img 0 0 previewWidth previewHeight ;;
     let bounds := Bounds.mk 0 0 previewWidth previewHeight in
     for_of watermarks
       (fun wm => Engine.applyWatermark host wm bounds scale) ;;
     url <- toPngDataURL ;;
     ret {| pv_type := fst url; pv_pixels := snd url;
            pv_width := previewWidth; pv_height := previewHeight |})
    (fun error =>
       throw (mkError ("Failed to generate preview: " ++ message error))).

End WithHost.
End EnginePreview.

(** In the anchor-only engine the text layer measures its text with
    [estimateTextWidth], which assigns the size of [this.tempCanvas] and
    the font of its context: on the canvas of a preview the measurement
    is a write to the surface that is being drawn. *)
Module LegacyPreview.
Local Open Scope string_scope.
Local Open Scope js_scope.
Section WithHost.
Context (host : Host).

Definition estimateTextWidth (textSettings : Text.t) : Js Canvas Q :=
  let font := {| font_px := Text.size textSettings;
                 font_family := Text.font textSettings;
                 font_quoted := false |} in
  modify (fun _ => freshCanvas) ;;
  modify (fun _ => freshCanvas) ;;
  set_font font ;;
  ret (measureText host font (Text.content textSettings)).

Definition applyTextWatermark (settings : Settings.t)
    (bounds : Bounds.t) (scaleFactor : Q) : Js Canvas unit :=
  try_catch
    (let position := Settings.position settings in
     text <- prop "content" (Settings.text settings) ;;
     if negb (truthyS (Text.content text))
        || String.eqb (trim (Text.content text)) ""
     then ret tt
     else
       let scaledTextSize := Text.size text * scaleFactor in
       textWidth <-
         estimateTextWidth
           (Text.mk (Text.content text) (Text.font text) scaledTextSize
              (Text.color text) (Text.opacity text)
              (Text.rotation text)) ;;
       let pos :=
         Legacy.calculatePosition position bounds
           {| sz_width := textWidth; sz_height := scaledTextSize |}
           scaleFactor in
       save ;;
       Legacy.translateN (Legacy.x pos) (Legacy.y pos) ;;
       when (negb (Qeq_bool (Text.rotation text) 0))
         (rotate (Text.rotation text)) ;;
       set_font {| font_px := scaledTextSize;
                   font_family := Text.font text;
                   font_quoted := false |} ;;
       set_textAlign "center" ;;
       set_textBaseline "middle" ;;
       set_globalAlpha (Text.opacity text / 100) ;;
       when (Legacy.needsStroke (Text.color text))
         (set_strokeStyle (Legacy.getContrastColor (Text.color text)) ;;
          set_lineWidth (Math_max 1 (scaledTextSize / 20)) ;;
          strokeText (Text.content text) 0 0) ;;
       set_fillStyle (Text.color text) ;;
       fillText (Text.content text) 0 0 ;;
       restore)
    (fun error =>
       throw (mkError ("Failed to apply text watermark: "
                       ++ message error))).

Definition applyWatermark : Settings.t -> Bounds.t -> Q -> Js Canvas unit :=
  applyWatermarkWith applyTextWatermark Legacy.applyImageWatermark.

Definition generatePreview (sourceImageData : SourceImageData)
    (settings : Settings.t) (maxSize : Q) : Js Canvas Preview :=
  try_catch
    (img <- prop "width" (element sourceImageData) ;;
     let scale := Math_min (maxSize / naturalWidth img)
                    (maxSize / naturalHeight img) in
     let previewWidth := Math_round (naturalWidth img * scale) in
     let previewHeight := Math_round (naturalHeight img * scale) in
     modify (fun _ => freshCanvas) ;;
     modify (fun _ => freshCanvas) ;;
     clearRect 0 0 previewWidth previewHeight ;;
     drawImage img 0 0 previewWidth previewHeight ;;
     let bounds := Bounds.mk 0 0 previewWidth previewHeight in
     applyWatermark settings bounds 1 ;;
     url <- toPngDataURL ;;
     ret {| pv_type := fst url; pv_pixels := snd url;
            pv_width := previewWidth; pv_height := previewHeight |})
    (fun error =>
       throw (mkError ("Failed to generate preview: " ++ message error))).

Definition generatePreviewMultiple (sourceImageData : SourceImageData)
    (watermarks : list Settings.t) (maxSize : Q) : Js Canvas Preview :=
  try_catch
    (img <- prop "width" (element sourceImageData) ;;
     let scale := Math_min (maxSize / naturalWidth img)
                    (maxSize / naturalHeight img) in
     let previewWidth := Math_round (naturalWidth img * scale) in
     let previewHeight := Math_round (naturalHeight img * scale) in
     modify (fun _ => freshCanvas) ;;
     modify (fun _ => freshCanvas) ;;
     clearRect 0 0 previewWidth previewHeight ;;
     drawImage img 0 0 previewWidth previewHeight ;;
     let bounds := Bounds.mk 0 0 previewWidth previewHeight in
     for_of watermarks (fun wm => applyWatermark wm bounds 1) ;;
     url <- toPngDataURL ;;
     ret {| pv_type := fst url; pv_pixels := snd url;
            pv_width := previewWidth; pv_height := previewHeight |})
    (fun error =>
       throw (mkError ("Failed to generate preview: " ++ message error))).

End WithHost.
End LegacyPreview.

(** ** Untyped values

    What [JSON.stringify] can write and [JSON.parse] can read, and
    [undefined].  An object is the list of its properties in insertion
    order; a property is read at its first occurrence. *)

#[warnings="-register-all"] Inductive Value : Type :=
| VUndefined
| VNull
| VBool (b : bool)
| VNum (q : Q)
| VStr (s : string)
| VArr (items : list Value)
| VObj (fields : list (string * Value)).

Module Json.
Local Open Scope string_scope.

Definition truthy (v : Value) : bool :=
  match v with
  | VUndefined | VNull => false
  | VBool b => b
  | VNum q => truthyQ q
  | VStr s => truthyS s
  | VArr _ | VObj _ => true
  end.

(** [typeof v === 'object'] *)
Definition isObject (v : Value) : bool :=
  match v with
  | VNull | VArr _ | VObj _ => true
  | _ => false
  end.

Definition isNumber (v : Value) : bool :=
  match v with VNum _ => true | _ => false end.

Fixpoint lookup (fields : list (string * Value)) (k : string) : Value :=
  match fields with
  | [] => VUndefined
  | (k', v) :: rest => if String.eqb k' k then v else lookup rest k
  end.

(** [v.k]: a [TypeError] on [undefined] and [null]; of the properties
    that arrays and primitives have of their own, none is read by the
    code below. *)
Definition field {S} (v : Value) (k : string) : Js S Value :=
  match v with
  | VUndefined | VNull => throw (TypeError k)
  | VObj fields => ret (lookup fields k)
  | _ => ret VUndefined
  end.

(** [list.includes(v)] for a list of strings. *)
Definition oneOf (list : list string) (v : Value) : bool :=
  match v with
  | VStr s => includes list s
  | _ => false
  end.

(** [v < k] and [v > k] once [typeof v] is known to be ['number']. *)
Definition below (v : Value) (k : Q) : bool :=
  match v with VNum q => Qltb q k | _ => false end.
Definition above (v : Value) (k : Q) : bool :=
  match v with VNum q => Qgtb q k | _ => false end.

(** [JSON.parse(JSON.stringify(v))] below the top level: a property
    that holds [undefined] is left out, [undefined] in an array comes
    back as [null]. *)
Fixpoint clone (v : Value) : Value :=
  match v with
  | VArr items =>
      VArr (map (fun i => match i with
                          | VUndefined => VNull
                          | _ => clone i
                          end) items)
  | VObj fields =>
      VObj ((fix cloneFields (fs : list (string * Value)) :=
               match fs with
               | [] => []
               | (k, x) :: rest =>
                   match x with
                   | VUndefined => cloneFields rest
                   | _ => (k, clone x) :: cloneFields rest
                   end
               end) fields)
  | _ => v
  end.

End Json.

(** ** Templates ([js/templateManager.js]) *)

Module Templates.
Local Open Scope string_scope.
Local Open Scope js_scope.

(** A stored template; [created], [modified] and [lastAccessed] are
    the instants (in milliseconds) that their ISO strings denote. *)
Record Template : Type := mkTemplate
  { id : string;
    name : string;
    settings : Value;
    created : Z;
    modified : Z;
    version : string;
    lastAccessed : option Z }.

(** The entry of [localStorage] under the storage key, as the array it
    serialises, and whether the store accepts a write. *)
Record Storage : Type := mkStorage
  { item : option (list Template); writable : bool }.

Record TemplateManager : Type := mkManager
  { templates : list Template; storage : Storage }.

Definition maxTemplates : nat := 50.

Definition get {S} : Js S S := fun s => (Returned s, s).

Definition setTemplates (l : list Template) : Js TemplateManager unit :=
  modify (fun this => {| templates := l; storage := storage this |}).

(** The rules of [validateTemplateSettings] after the test that the
    settings are an object. *)
Definition rules (settings : Value) : Js (list string) unit :=
  type <- Json.field settings "type" ;;
  when (negb (Json.truthy type)
        || negb (Json.oneOf ["text"; "image"; "combined"] type))
    (push "Invalid watermark type") ;;
  text <- Json.field settings "text" ;;
  when (Json.truthy text)
    (size <- Json.field text "size" ;;
     when (negb (Json.isNumber size) || Json.below size 8
           || Json.above size 500)
       (push "Invalid text size") ;;
     opacity <- Json.field text "opacity" ;;
     when (negb (Json.isNumber opacity) || Json.below opacity 0
           || Json.above opacity 100)
       (push "Invalid text opacity")) ;;
  image <- Json.field settings "image" ;;
  when (Json.truthy image)
    (scale <- Json.field image "scale" ;;
     when (negb (Json.isNumber scale) || Json.below scale 1
           || Json.above scale 500)
       (push "Invalid image scale") ;;
     opacity <- Json.field image "opacity" ;;
     when (negb (Json.isNumber opacity) || Json.below opacity 0
           || Json.above opacity 100)
       (push "Invalid image opacity")) ;;
  position <- Json.field settings "position" ;;
  when (Json.truthy position)
    (preset <- Json.field position "preset" ;;
     when (negb (Json.oneOf anchors preset))
       (push "Invalid position preset")) ;;
  output <- Json.field settings "output" ;;
  when (Json.truthy output)
    (format <- Json.field output "format" ;;
     when (negb (Json.oneOf ["png"; "jpeg"; "webp"] format))
       (push "Invalid output format") ;;
     quality <- Json.field output "quality" ;;
     when (negb (Json.isNumber quality) || Json.below quality 1
           || Json.above quality 100)
       (push "Invalid output quality")).

Definition validateTemplateSettings (settings : Value) : Validation.t :=
  if negb (Json.truthy settings) || negb (Json.isObject settings) then
    {| Validation.isValid := false;
       Validation.errors := ["Settings must be an object"] |}
  else
    let errors :=
      snd (try_catch (rules settings)
             (fun _ => push "Settings validation failed") []) in
    {| Validation.isValid := Nat.eqb (List.length errors) 0;
       Validation.errors := errors |}.

(** [cloneSettings]: [JSON.stringify(undefined)] is [undefined], which
    [JSON.parse] refuses; the [catch] then answers [{...settings}]. *)
Definition cloneSettings (settings : Value) : Value :=
  match settings with
  | VUndefined => VObj []
  | _ => Json.clone settings
  end.

Definition saveTemplates : Js TemplateManager unit :=
  try_catch
    (this <- get ;;
     if writable (storage this) then
       modify (fun this =>
                 {| templates := templates this;
                    storage := {| item := Some (templates this);
                                  writable := writable (storage this) |} |})
     else throw (mkError "QuotaExceededError"))
    (fun _ => throw (mkError "Failed to save templates")).

(** [array.findIndex(p)], [None] for -1. *)
Fixpoint findIndex {A} (p : A -> bool) (l : list A) : option nat :=
  match l with
  | [] => None
  | a :: rest =>
      if p a then Some O else option_map S (findIndex p rest)
  end.

(** [array[i] = v] for an index within the array. *)
Fixpoint setAt {A} (i : nat) (v : A) (l : list A) : list A :=
  match l, i with
  | [], _ => []
  | _ :: rest, O => v :: rest
  | a :: rest, S j => a :: setAt j v rest
  end.

(** [array.splice(i, 1)]: the array without the element at [i]. *)
Fixpoint removeAt {A} (i : nat) (l : list A) : list A :=
  match l, i with
  | [], _ => []
  | _ :: rest, O => rest
  | a :: rest, S j => a :: removeAt j rest
  end.

(** [(a, b) => new Date(b.modified) - new Date(a.modified)] *)
Definition byModifiedDescending (a b : Template) : Z :=
  (modified b - modified a)%Z.

(** [saveTemplate]; the host supplies the new identifier and the two
    readings of the clock. *)
Definition saveTemplate (name : string) (settings : Value)
    (newId : string) (createdNow modifiedNow : Z)
  : Js TemplateManager Template :=
  try_catch
    (when (negb (truthyS name) || String.eqb (trim name) "")
       (throw (mkError "Template name is required")) ;;
     let cleanName := trim name in
     let validation := validateTemplateSettings settings in
     when (negb (Validation.isValid validation))
       (throw (mkError ("Invalid template settings: "
                        ++ String.concat ", " (Validation.errors validation)))) ;;
     let template :=
       {| id := newId; name := cleanName;
          settings := cloneSettings settings;
          created := createdNow; modified := modifiedNow;
          version := "1.0"; lastAccessed := None |} in
     this <- get ;;
     template <-
       match findIndex (fun t => String.eqb (Templates.name t) cleanName)
               (templates this) with
       | Some existingIndex =>
           match nth_error (templates this) existingIndex with
           | Some existing =>
               let template :=
                 {| id := id existing; name := cleanName;
                    settings := cloneSettings settings;
                    created := created existing; modified := modifiedNow;
                    version := "1.0"; lastAccessed := None |} in
               setTemplates (setAt existingIndex template (templates this)) ;;
               ret template
           | None => throw (TypeError "id")
           end
       | None =>
           setTemplates (templates this ++ [template])%list ;;
           this <- get ;;
           when (Nat.ltb maxTemplates (List.length (templates this)))
             (setTemplates
                (firstn maxTemplates
                   (array_sort byModifiedDescending (templates this)))) ;;
           ret template
       end ;;
     saveTemplates ;;
     ret template)
    (fun error =>
       throw (mkError ("Failed to save template: " ++ message error))).

Definition matches (identifier : string) (t : Template) : bool :=
  String.eqb (id t) identifier || String.eqb (name t) identifier.

Definition touch (now : Z) (t : Template) : Template :=
  {| id := id t; name := name t; settings := settings t;
     created := created t; modified := modified t;
     version := version t; lastAccessed := Some now |}.

(** [loadTemplate]: the template found is stamped in place, and a copy
    of it with cloned settings is answered. *)
Definition loadTemplate (identifier : string) (now : Z)
  : Js TemplateManager Template :=
  try_catch
    (when (negb (truthyS identifier))
       (throw (mkError "Template identifier is required")) ;;
     this <- get ;;
     match findIndex (matches identifier) (templates this) with
     | None => throw (mkError ("Template not found: " ++ identifier))
     | Some i =>
         match nth_error (templates this) i with
         | None => throw (mkError ("Template not found: " ++ identifier))
         | Some template =>
             setTemplates (setAt i (touch now template) (templates this)) ;;
             saveTemplates ;;
             let stamped := touch now template in
             ret {| id := id stamped; name := name stamped;
                    settings := cloneSettings (settings stamped);
                    created := created stamped;
                    modified := modified stamped;
                    version := version stamped;
                    lastAccessed := lastAccessed stamped |}
         end
     end)
    (fun error =>
       throw (mkError ("Failed to load template: " ++ message error))).

Definition deleteTemplate (identifier : string)
  : Js TemplateManager Template :=
  try_catch
    (this <- get ;;
     match findIndex (matches identifier) (templates this) with
     | None => throw (mkError ("Template not found: " ++ identifier))
     | Some index =>
         match nth_error (templates this) index with
         | None => throw (TypeError "0")
         | Some deletedTemplate =>
             setTemplates (removeAt index (templates this)) ;;
             saveTemplates ;;
             ret deletedTemplate
         end
     end)
    (fun error =>
       throw (mkError ("Failed to delete template: " ++ message error))).

(** [duplicateTemplate]; [newName] is [None] when the argument is
    left out.  The two clocks and the fresh identifier are those of the
    [loadTemplate] and the [saveTemplate] that it calls. *)
Definition duplicateTemplate (identifier : string) (newName : option string)
    (newId : string) (createdNow modifiedNow now : Z)
  : Js TemplateManager Template :=
  try_catch
    (template <- loadTemplate identifier now ;;
     let newName :=
       match newName with
       | Some n => if negb (truthyS n) then name template ++ " (Copy)" else n
       | None => name template ++ " (Copy)"
       end in
     saveTemplate newName (settings template) newId createdNow modifiedNow)
    (fun error =>
       throw (mkError ("Failed to duplicate template: " ++ message error))).

Definition clearAllTemplates : Js TemplateManager unit :=
  try_catch
    (setTemplates [] ;; saveTemplates)
    (fun _ => throw (mkError "Failed to clear templates")).

(** [loadTemplates], which the constructor calls. *)
Definition loadTemplates (s : Storage) : list Template :=
  match item s with
  | Some l => l
  | None => []
  end.

(** The object that [WatermarkApp.saveTemplate] hands to
    [saveTemplate]: the watermarks of the session, the canvas bounds, a
    format version and the time. *)
Definition templateData (watermarks : list Value) (canvasBounds : Value)
    (createdAt : Q) : Value :=
  VObj [("watermarks", VArr watermarks);
        ("canvasBounds", canvasBounds);
        ("version", VStr "2.0");
        ("createdAt", VNum createdAt)].

End Templates.

(** ** The other methods of the batch queue ([js/batchProcessor.js]) *)

Module Queue.
Local Open Scope string_scope.
Local Open Scope js_scope.
Import Batch.

(** [JSON.parse(JSON.stringify(s))] on the settings of a watermark. *)
Definition cloneSettings (s : Settings.t) : Settings.t :=
  App.setImage s (App.cloneImage (Settings.image s)).

Definition cloneSettingsArg (settings : SettingsArg) : SettingsArg :=
  match settings with
  | One s => One (cloneSettings s)
  | Many l => Many (map cloneSettings l)
  end.

(** [addToQueue] for an array of images (a single image is first put
    into an array of its own); the identifier [`${Date.now()}_${index}`]
    of an item is answered as the pair of its two numbers, [now i] being
    the clock when item [i] is made.  All the items share the one clone
    of the settings. *)
Definition addToQueue (images : list (option SourceImage))
    (settings : SettingsArg)
    (now : nat -> Z) : Js BatchProcessor (list (Z * nat)) :=
  try_catch
    (let clonedSettings := cloneSettingsArg settings in
     let queueItems :=
       map (fun image =>
              {| image := image; settings := clonedSettings;
                 status := "pending"; result := None; error := None |})
         images in
     withQueue (fun q => (q ++ queueItems)%list) ;;
     ret (map (fun index => (now index, index))
            (seq 0 (List.length images))))
    (fun error =>
       throw (mkError ("Failed to add images to queue: " ++ message error))).

Definition stopProcessing : Js BatchProcessor unit :=
  modify (fun this =>
    {| processingQueue := processingQueue this;
       isProcessing := isProcessing this;
       results := results this;
       errors := errors this;
       shouldStop := true;
       canvas := canvas this |}).

Definition clearQueue : Js BatchProcessor unit :=
  this <- get ;;
  when (isProcessing this) stopProcessing ;;
  modify (fun this =>
    {| processingQueue := [];
       isProcessing := isProcessing this;
       results := [];
       errors := [];
       shouldStop := shouldStop this;
       canvas := canvas this |}).

Record QueueStatus : Type := mkStatus
  { qs_total : nat; qs_completed : nat; qs_failed : nat; qs_pending : nat;
    qs_processing : nat; qs_isProcessing : bool; qs_progress : Q }.

Definition ofNat (n : nat) : Q := inject_Z (Z.of_nat n).

Definition getQueueStatus (this : BatchProcessor) : QueueStatus :=
  let q := processingQueue this in
  let total := List.length q in
  let completed := countStatus "completed" q in
  {| qs_total := total;
     qs_completed := completed;
     qs_failed := countStatus "failed" q;
     qs_pending := countStatus "pending" q;
     qs_processing := countStatus "processing" q;
     qs_isProcessing := isProcessing this;
     qs_progress :=
       if Nat.ltb 0 total
       then Math_round (ofNat completed / ofNat total * 100)
       else 0 |}.

(** [s.split(',')]: the pieces between the commas. *)
Fixpoint splitComma (s : string) : list string :=
  match s with
  | EmptyString => [EmptyString]
  | String c rest =>
      if Ascii.eqb c ","
      then EmptyString :: splitComma rest
      else match splitComma rest with
           | piece :: more => String c piece :: more
           | [] => [String c EmptyString]
           end
  end.

(** The number of matches of [/=/g]. *)
Fixpoint countEquals (s : string) : nat :=
  match s with
  | EmptyString => O
  | String c rest =>
      if Ascii.eqb c "=" then S (countEquals rest) else countEquals rest
  end.

(** [estimateDataUrlSize]: without a comma there is no second piece and
    the [catch] answers 0. *)
Definition estimateDataUrlSize (dataUrl : string) : Q :=
  match nth_error (splitComma dataUrl) 1 with
  | Some base64 =>
      let padding := countEquals base64 in
      Math_round (ofNat (String.length base64) * (75 # 100) - ofNat padding)
  | None => 0
  end.

Fixpoint noneOf (p : ascii -> bool) (s : string) : bool :=
  match s with
  | EmptyString => true
  | String c rest => negb (p c) && noneOf p rest
  end.

(** The match of [/\.[^/.]+$/] in [s]: what stands before it. *)
Fixpoint beforeExtension (s : string) : option string :=
  match s with
  | EmptyString => None
  | String c rest =>
      match beforeExtension rest with
      | Some stem => Some (String c stem)
      | None =>
          if Ascii.eqb c "." && truthyS rest
             && noneOf (fun d => Ascii.eqb d "/" || Ascii.eqb d ".") rest
          then Some EmptyString
          else None
      end
  end.

(** [originalName.replace(/\.[^/.]+$/, '')] *)
Definition withoutExtension (originalName : string) : string :=
  match beforeExtension originalName with
  | Some stem => stem
  | None => originalName
  end.

(** [s.replace(/[:.]/g, '-')] *)
Fixpoint dashed (s : string) : string :=
  match s with
  | EmptyString => EmptyString
  | String c rest =>
      String (if Ascii.eqb c ":" || Ascii.eqb c "." then "-"%char else c)
        (dashed rest)
  end.

(** [generateOutputFilename]; [isoNow] is [new Date().toISOString()]
    and [nowText] the digits of [Date.now()], which the host supplies. *)
Definition generateOutputFilename (originalName : string)
    (settings : Settings.t) (isoNow nowText : string) : string :=
  match Settings.output settings with
  | Some output =>
      let nameWithoutExt := withoutExtension originalName in
      let ext :=
        if String.eqb (Output.format output) "jpeg" then "jpg"
        else if String.eqb (Output.format output) "png" then "png"
        else "webp" in
      let timestamp := dashed (String.substring 0 19 isoNow) in
      nameWithoutExt ++ "_watermarked_" ++ timestamp ++ "." ++ ext
  | None => "watermarked_" ++ nowText ++ ".png"
  end.

Record CustomSummary : Type := mkCustomSummary
  { cs_total : nat; cs_completed : nat; cs_failed : nat;
    cs_results : list Result; cs_errors : list ErrorEntry }.

Section WithHost.
Context (host : Host).

(** The [try] of one round of the loop of [processWithCustomSettings]:
    the text of the progress report reads [image.name], then the image
    is processed. *)
Definition customAttempt (pair : option SourceImage * SettingsArg)
  : Js BatchProcessor Result :=
  _ <- prop "name" (fst pair) ;;
  onCanvas (processImage host (fst pair) (snd pair)).

(** One round of the loop; the two arrays of the call are the state
    beside the processor.  The [catch] reads [image.name] for its entry
    and throws without an image. *)
Definition customRound (pair : option SourceImage * SettingsArg)
  : Js (BatchProcessor * (list Result * list ErrorEntry)) unit :=
  fun st =>
    let '(this, (results, errors)) := st in
    match customAttempt pair this with
    | (Returned result, this') =>
        (Returned tt, (this', ((results ++ [result])%list, errors)))
    | (Thrown error, this') =>
        match fst pair with
        | Some image =>
            (Returned tt,
             (this', (results,
                      (errors ++ [{| err_image := name image;
                                     err_error := message error |}])%list)))
        | None => (Thrown (TypeError "name"), (this', (results, errors)))
        end
    | (Pending, this') => (Pending, (this', (results, errors)))
    end.

Definition processWithCustomSettings
    (imageSettingsPairs : list (option SourceImage * SettingsArg))
  : Js BatchProcessor CustomSummary :=
  try_catch
    (clearQueue ;;
     fun this =>
       match for_of imageSettingsPairs customRound (this, ([], [])) with
       | (Returned _, (this', (results, errors))) =>
           (Returned {| cs_total := List.length imageSettingsPairs;
                        cs_completed := List.length results;
                        cs_failed := List.length errors;
                        cs_results := results; cs_errors := errors |},
            this')
       | (Thrown e, (this', _)) => (Thrown e, this')
       | (Pending, (this', _)) => (Pending, this')
       end)
    (fun error =>
       throw (mkError ("Batch processing failed: " ++ message error))).

(** The three calls on the processor in [processBatch] of [js/app.js]:
    [clearQueue()], [addToQueue(sourceImages, settings)] and
    [processQueue()].  The progress callback that [processBatch] installs
    before them writes to the page only. *)
Definition processBatch (sourceImages : list (option SourceImage))
    (settings : SettingsArg) (now : nat -> Z) : Js BatchProcessor Summary :=
  clearQueue ;;
  _ <- addToQueue sourceImages settings now ;;
  processQueue host.

End WithHost.
End Queue.

(** ** Dragging a watermark in the editor ([js/app.js]) *)

Module Drag.
Import App.

Record MouseEvent : Type := mkMouse { clientX : Q; clientY : Q }.

(** What [canvas.getBoundingClientRect()] answers. *)
Record DOMRect : Type := mkRect
  { left : Q; top : Q; rect_width : Q; rect_height : Q }.

Record DragState : Type := mkDrag
  { draggedWatermarkId : Z; dragStartX : Q; dragStartY : Q }.

Definition DRAG_MARGIN : Q := 6.

Definition setXY (w : Watermark) (x y : Q) : Watermark :=
  let t := transform w in
  {| id := id w; settings := settings w;
     transform :=
       {| Transform.x := x; Transform.y := y;
          Transform.width := Transform.width t;
          Transform.height := Transform.height t;
          Transform.rotation := Transform.rotation t;
          Transform.previewCanvasWidth := Transform.previewCanvasWidth t;
          Transform.previewCanvasHeight := Transform.previewCanvasHeight t |};
     zIndex := zIndex w; scaling := scaling w |}.

(** A write to the object that [this.watermarks.find(p)] answers. *)
Fixpoint onFound (p : Watermark -> bool) (f : Watermark -> Watermark)
    (l : list Watermark) : list Watermark :=
  match l with
  | [] => []
  | w :: r => if p w then f w :: r else w :: onFound p f r
  end.

(** The writes of [handleWatermarkDrag] to the session; [canvasRect] is
    the rectangle of the preview canvas, if the page has one.  What
    follows the writes touches the overlays of the page and schedules a
    later [updatePreview]. *)
Definition handleWatermarkDrag (e : MouseEvent) (dragState : DragState)
    (canvasRect : option DOMRect) (this : Session) : Session :=
  match canvasRect with
  | None => this
  | Some canvasRect =>
      {| watermarks :=
           onFound (fun w => (id w =? draggedWatermarkId dragState)%Z)
             (fun watermark =>
                let newX := clientX e - left canvasRect
                            - dragStartX dragState in
                let newY := clientY e - top canvasRect
                            - dragStartY dragState in
                let minX := DRAG_MARGIN in
                let minY := DRAG_MARGIN in
                let maxX := rect_width canvasRect
                            - Transform.width (transform watermark)
                            - DRAG_MARGIN in
                let maxY := rect_height canvasRect
                            - Transform.height (transform watermark)
                            - DRAG_MARGIN in
                setXY watermark
                  (Math_round (Math_max minX (Math_min newX maxX)))
                  (Math_round (Math_max minY (Math_min newY maxY))))
             (watermarks this);
         watermarkIdCounter := watermarkIdCounter this;
         canvasBounds := canvasBounds this;
         watermarkSettings := watermarkSettings this |}
  end.
End Drag.

(** * Properties *)

(** ** Numbers *)

Lemma Qltb_lt (a b : Q) : Qltb a b = true <-> a < b.
Proof.
  unfold Qltb. rewrite negb_true_iff.
  split; intro H.
  - apply Qnot_le_lt. intro Hle. apply Qle_bool_iff in Hle. congruence.
  - destruct (Qle_bool b a) eqn:E; [|reflexivity].
    apply Qle_bool_iff in E. exfalso. apply (Qlt_not_le _ _ H E).
Qed.

Lemma Qltb_ge (a b : Q) : Qltb a b = false <-> b <= a.
Proof.
  unfold Qltb. rewrite negb_false_iff. apply Qle_bool_iff.
Qed.

Lemma Qgtb_gt (a b : Q) : Qgtb a b = true <-> b < a.
Proof. apply Qltb_lt. Qed.

Lemma Qgtb_le (a b : Q) : Qgtb a b = false <-> a <= b.
Proof. apply Qltb_ge. Qed.

Lemma Math_min_spec (a b : Q) :
  (a <= b /\ Math_min a b = a) \/ (b < a /\ Math_min a b = b).
Proof.
  unfold Math_min. destruct (Qle_bool a b) eqn:E.
  - left. split; [now apply Qle_bool_iff | reflexivity].
  - right. split; [|reflexivity].
    apply Qnot_le_lt. intro H. apply Qle_bool_iff in H. congruence.
Qed.

Lemma Math_max_spec (a b : Q) :
  (a <= b /\ Math_max a b = b) \/ (b < a /\ Math_max a b = a).
Proof.
  unfold Math_max. destruct (Qle_bool a b) eqn:E.
  - left. split; [now apply Qle_bool_iff | reflexivity].
  - right. split; [|reflexivity].
    apply Qnot_le_lt. intro H. apply Qle_bool_iff in H. congruence.
Qed.

Lemma truthyQ_true (q : Q) : truthyQ q = true <-> ~ q == 0.
Proof.
  unfold truthyQ. rewrite negb_true_iff. split; intro H.
  - intro E. apply Qeq_bool_iff in E. congruence.
  - destruct (Qeq_bool q 0) eqn:E; [|reflexivity].
    apply Qeq_bool_iff in E. contradiction.
Qed.

#[global] Instance Math_min_compat : Proper (Qeq ==> Qeq ==> Qeq) Math_min.
Proof.
  intros a a' Ha b b' Hb.
  destruct (Math_min_spec a b) as [[H ->]|[H ->]];
    destruct (Math_min_spec a' b') as [[H' ->]|[H' ->]];
    rewrite ?Ha, ?Hb in *; try reflexivity; try assumption.
  - apply Qle_antisym; [assumption | now apply Qlt_le_weak].
  - apply Qle_antisym; [now apply Qlt_le_weak | assumption].
Qed.

#[global] Instance Math_max_compat : Proper (Qeq ==> Qeq ==> Qeq) Math_max.
Proof.
  intros a a' Ha b b' Hb.
  destruct (Math_max_spec a b) as [[H ->]|[H ->]];
    destruct (Math_max_spec a' b') as [[H' ->]|[H' ->]];
    rewrite ?Ha, ?Hb in *; try reflexivity; try assumption.
  - apply Qle_antisym; [now apply Qlt_le_weak | assumption].
  - apply Qle_antisym; [assumption | now apply Qlt_le_weak].
Qed.

(** ** Position resolution *)

(** Where an anchor puts the watermark box, horizontally and vertically. *)
Inductive HAlign : Type := HLeft | HCenter | HRight.
Inductive VAlign : Type := VTop | VMiddle | VBottom.

Definition anchorTable : list (string * HAlign * VAlign) :=
  [("top-left", HLeft, VTop); ("top-center", HCenter, VTop);
   ("top-right", HRight, VTop);
   ("center-left", HLeft, VMiddle); ("center", HCenter, VMiddle);
   ("center-right", HRight, VMiddle);
   ("bottom-left", HLeft, VBottom); ("bottom-center", HCenter, VBottom);
   ("bottom-right", HRight, VBottom)]%string.

(** The box of width [w] whose centre has abscissa [cx] sits at [h] in
    the bounds: an edge flush with the bounds' edge, or centred. *)
Definition alignedH (h : HAlign) (b : Bounds.t) (w cx : Q) : Prop :=
  match h with
  | HLeft => cx - w / 2 == Bounds.x b
  | HCenter => cx == Bounds.x b + Bounds.width b / 2
  | HRight => cx + w / 2 == Bounds.x b + Bounds.width b
  end.

Definition alignedV (v : VAlign) (b : Bounds.t) (h cy : Q) : Prop :=
  match v with
  | VTop => cy - h / 2 == Bounds.y b
  | VMiddle => cy == Bounds.y b + Bounds.height b / 2
  | VBottom => cy + h / 2 == Bounds.y b + Bounds.height b
  end.

Definition preset0 (name : string) : option Position.t :=
  Some (Position.mk name (JNum 0) (JNum 0)).

Definition custom500 : option Position.t :=
  Some (Position.mk "custom" (JNum 500) (JNum 500)).

Lemma half_of_custom_500 :
  Math_max 0 (Math_min 1 (orQ (Engine.numOf (withDefault (JNum 500) 0)) 0 / 1000))
  == 1 # 2.
Proof. vm_compute. reflexivity. Qed.

Lemma Engine_custom_500 (b : Bounds.t) (sz : Size) (sf : Q) :
  let p := Engine.calculatePosition custom500 b sz sf in
  Engine.x p == Bounds.x b + Bounds.width b / 2 - sz_width sz * sf / 2 /\
  Engine.y p == Bounds.y b + Bounds.height b / 2 - sz_height sz * sf / 2.
Proof.
  unfold Engine.calculatePosition, custom500.
  cbn [option_map Position.preset Position.x Position.y Engine.x Engine.y].
  rewrite half_of_custom_500. split; field.
Qed.

Lemma Engine_center_0 (b : Bounds.t) (sz : Size) (sf : Q) :
  let p := Engine.calculatePosition (preset0 "center") b sz sf in
  Engine.x p == Bounds.x b + Bounds.width b / 2 /\
  Engine.y p == Bounds.y b + Bounds.height b / 2.
Proof.
  unfold Engine.calculatePosition, preset0, anchorBase.
  cbn. split; field.
Qed.

(** C1, the counterexample: in bounds 800x600 a 200x100 watermark at
    custom (500, 500) is answered (300, 250) by the transform-based engine
    and (900, 800) by the anchor-only engine, neither of which is the
    bounds' centre (400, 300) that [center] with zero offsets gives. *)
Lemma C1_custom_500_is_not_the_centre :
  let b := Bounds.mk 0 0 800 600 in
  let sz := mkSize 200 100 in
  let custom := Engine.calculatePosition custom500 b sz 1 in
  let centre := Engine.calculatePosition (preset0 "center") b sz 1 in
  let legacy := Legacy.calculatePosition custom500 b sz 1 in
  (Engine.x custom == 300 /\ Engine.y custom == 250) /\
  (Engine.x centre == 400 /\ Engine.y centre == 300) /\
  (Legacy.x legacy = Some (1800 # 2) /\ Legacy.y legacy = Some (1600 # 2)) /\
  ~ (Engine.x custom == Engine.x centre /\ Engine.y custom == Engine.y centre).
Proof.
  vm_compute. repeat split; try reflexivity; try discriminate.
  intros [H _]. discriminate H.
Qed.

(** C1, as amended: with [{preset:'custom', x:500, y:500}] the
    transform-based engine answers the top-left corner of a watermark
    centred on the bounds' centre, that is the answer for
    [{preset:'center', x:0, y:0}] (the bounds' centre) less half the scaled
    watermark size; for each of the nine anchors with zero offsets the
    answer is the centre of the watermark box placed at that anchor; the
    anchor-only engine treats [custom] as an unknown preset and answers
    the bounds' centre plus the scaled offsets. *)
Theorem C1_custom_500_is_top_left_of_centred_box :
  forall (b : Bounds.t) (sz : Size) (sf : Q),
    let custom := Engine.calculatePosition custom500 b sz sf in
    let centre := Engine.calculatePosition (preset0 "center") b sz sf in
    let legacy := Legacy.calculatePosition custom500 b sz sf in
    (Engine.x centre == Bounds.x b + Bounds.width b / 2 /\
     Engine.y centre == Bounds.y b + Bounds.height b / 2) /\
    (Engine.x custom == Engine.x centre - sz_width sz * sf / 2 /\
     Engine.y custom == Engine.y centre - sz_height sz * sf / 2) /\
    Forall
      (fun a : string * HAlign * VAlign =>
         let '(name, h, v) := a in
         let p := Engine.calculatePosition (preset0 name) b sz sf in
         let q := Legacy.calculatePosition (preset0 name) b sz sf in
         alignedH h b (sz_width sz * sf) (Engine.x p) /\
         alignedV v b (sz_height sz * sf) (Engine.y p) /\
         Legacy.x q = Some (Engine.x p) /\ Legacy.y q = Some (Engine.y p))
      anchorTable /\
    (exists lx ly,
        Legacy.x legacy = Some lx /\ Legacy.y legacy = Some ly /\
        lx == Bounds.x b + Bounds.width b / 2 + 500 * sf /\
        ly == Bounds.y b + Bounds.height b / 2 + 500 * sf).
Proof.
  intros b sz sf custom centre legacy.
  destruct (Engine_custom_500 b sz sf) as [Hx Hy].
  destruct (Engine_center_0 b sz sf) as [Cx Cy].
  split; [split; assumption|].
  split.
  { subst custom centre. rewrite Hx, Hy, Cx, Cy. split; reflexivity. }
  split.
  { unfold anchorTable.
    repeat (apply Forall_cons || apply Forall_nil);
      (split; [cbn; field | split; [cbn; field | split; reflexivity]]). }
  eexists. eexists.
  split; [reflexivity|]. split; [reflexivity|].
  split; cbn; field.
Qed.

(** ** What the layer renderers paint *)

Section Layers.
Local Open Scope string_scope.
Context (host : Host).

Definition centreOf (a : Transform.t) : Q * Q :=
  (Transform.x a + Transform.width a / 2,
   Transform.y a + Transform.height a / 2).

(** The text layer of the transform-based engine paints the text once,
    at the centre of the rescaled transform, and restores the surface. *)
Lemma Engine_text_paints (s : Settings.t) (t : Text.t) (tr : Transform.t)
    (b : Bounds.t) (sf : Q) (c : Canvas) :
  Settings.text s = Some t -> Settings.transform s = Some tr ->
  exists st,
    Engine.applyTextWatermark s b sf c
    = (Returned tt,
       {| state := state c; saved := saved c;
          painted := painted c ++ [FillText (Text.content t) 0 0 st] |}) /\
    matrix st
    = (matrix (state c)
       ++ [Translate (fst (centreOf (Engine.actualTransform tr b)))
             (snd (centreOf (Engine.actualTransform tr b)));
           Rotate (Transform.rotation (Engine.actualTransform tr b))])%list /\
    font st = Some (mkFont (Text.size t * sf) (Text.font t) true) /\
    globalAlpha st = Text.opacity t / 100 /\
    fillStyle st = Text.color t.
Proof.
  intros Ht Htr.
  destruct c as [[ga mx fs ss lw fo ta tb se sq] sv pt].
  unfold Engine.applyTextWatermark, try_catch, bind, prop.
  rewrite Ht, Htr.
  cbn [option_map ret save restore translate rotate set_font set_fillStyle
       set_globalAlpha set_textAlign set_textBaseline
       set_imageSmoothingEnabled fillText paint withState modify
       state saved painted pushOp].
  eexists. split; [reflexivity|].
  cbn [matrix font globalAlpha fillStyle centreOf fst snd state].
  rewrite <- app_assoc. repeat split.
Qed.

(** The image layer of the transform-based engine paints the raster in
    the box of the rescaled transform, about its centre. *)
Lemma Engine_image_paints (s : Settings.t) (im : Image.t) (d : ImageData)
    (img : Raster) (tr : Transform.t) (b : Bounds.t) (sf : Q) (c : Canvas) :
  Settings.image s = Some im -> Image.imageData im = Some d ->
  truthyImageData (Some d) = true ->
  decode host (Engine.srcOf d) = Some img ->
  Settings.transform s = Some tr ->
  let a := Engine.actualTransform tr b in
  exists st,
    Engine.applyImageWatermark host s b sf c
    = (Returned tt,
       {| state := state c; saved := saved c;
          painted :=
            painted c
            ++ [DrawImage img (- Transform.width a / 2)
                  (- Transform.height a / 2)
                  (Transform.width a) (Transform.height a) st] |}) /\
    matrix st
    = (matrix (state c)
       ++ [Translate (fst (centreOf a)) (snd (centreOf a));
           Rotate (orQ (Transform.rotation a) 0)])%list /\
    globalAlpha st = Image.opacity im / 100.
Proof.
  intros Hi Hd Htruthy Hdec Htr a.
  destruct c as [[ga mx fs ss lw fo ta tb se sq] sv pt].
  unfold Engine.applyImageWatermark, try_catch, bind, prop, Engine.loaded.
  rewrite Hi. cbn [ret]. rewrite Hd, Htruthy. cbn [negb]. rewrite Hdec, Htr.
  cbn [ret save restore translate rotate set_globalAlpha
       set_imageSmoothingEnabled set_imageSmoothingQuality drawImage paint
       withState modify state saved painted pushOp].
  eexists. split; [reflexivity|].
  cbn [matrix globalAlpha centreOf fst snd state].
  rewrite <- app_assoc. repeat split.
Qed.
End Layers.

(** ** Transform scaling *)

Definition transformOfSpec : Transform.t :=
  {| Transform.x := 100; Transform.y := 100;
     Transform.width := 200; Transform.height := 60;
     Transform.rotation := 15;
     Transform.previewCanvasWidth := Some 800;
     Transform.previewCanvasHeight := Some 600 |}.

Lemma actualTransform_absent (t : Transform.t) (b : Bounds.t) :
  Transform.previewCanvasWidth t = None \/
  Transform.previewCanvasHeight t = None ->
  Engine.actualTransform t b = t.
Proof.
  unfold Engine.actualTransform.
  intros [H|H]; rewrite H;
    [|destruct (Transform.previewCanvasWidth t)]; reflexivity.
Qed.

(** A zero preview dimension is falsy: the transform is left as it is. *)
Lemma actualTransform_zero (t : Transform.t) (b : Bounds.t) (pw ph : Q) :
  Transform.previewCanvasWidth t = Some pw ->
  Transform.previewCanvasHeight t = Some ph ->
  pw == 0 \/ ph == 0 ->
  Engine.actualTransform t b = t.
Proof.
  unfold Engine.actualTransform. intros -> -> H.
  assert (E : truthyQ pw && truthyQ ph = false).
  { apply andb_false_iff.
    destruct H as [H|H]; [left|right];
      unfold truthyQ; apply negb_false_iff; now apply Qeq_bool_iff. }
  now rewrite E.
Qed.

(** C2: a transform that carries the size of the preview canvas is
    rescaled to the target bounds, each axis by its own ratio, and its
    rotation is kept; one that does not carry it is used as it is; the
    text and the image layer paint about the centre of that transform,
    turned by the rotation of the original; the transform of the
    specification, against a 1600x1200 target, comes out doubled with its
    rotation of 15 degrees. *)
Theorem C2_actualTransform_scales_by_axis :
  forall (t : Transform.t) (b : Bounds.t),
    (forall pw ph : Q,
        Transform.previewCanvasWidth t = Some pw ->
        Transform.previewCanvasHeight t = Some ph ->
        ~ pw == 0 -> ~ ph == 0 ->
        let a := Engine.actualTransform t b in
        let scaleX := Bounds.width b / pw in
        let scaleY := Bounds.height b / ph in
        Transform.x a == Transform.x t * scaleX /\
        Transform.y a == Transform.y t * scaleY /\
        Transform.width a == Transform.width t * scaleX /\
        Transform.height a == Transform.height t * scaleY /\
        Transform.rotation a = Transform.rotation t) /\
    (Transform.previewCanvasWidth t = None \/
     Transform.previewCanvasHeight t = None ->
     Engine.actualTransform t b = t) /\
    (forall (s : Settings.t) (text : Text.t) (sf : Q) (c : Canvas),
        Settings.text s = Some text -> Settings.transform s = Some t ->
        exists st,
          Engine.applyTextWatermark s b sf c
          = (Returned tt,
             {| state := state c; saved := saved c;
                painted :=
                  painted c ++ [FillText (Text.content text) 0 0 st] |}) /\
          matrix st
          = (matrix (state c)
             ++ [Translate (fst (centreOf (Engine.actualTransform t b)))
                   (snd (centreOf (Engine.actualTransform t b)));
                 Rotate (Transform.rotation t)])%list) /\
    (forall (host : Host) (s : Settings.t) (im : Image.t) (d : ImageData)
            (img : Raster) (sf : Q) (c : Canvas),
        Settings.image s = Some im -> Image.imageData im = Some d ->
        truthyImageData (Some d) = true ->
        decode host (Engine.srcOf d) = Some img ->
        Settings.transform s = Some t ->
        let a := Engine.actualTransform t b in
        exists st,
          Engine.applyImageWatermark host s b sf c
          = (Returned tt,
             {| state := state c; saved := saved c;
                painted :=
                  painted c
                  ++ [DrawImage img (- Transform.width a / 2)
                        (- Transform.height a / 2)
                        (Transform.width a) (Transform.height a) st] |}) /\
          matrix st
          = (matrix (state c)
             ++ [Translate (fst (centreOf a)) (snd (centreOf a));
                 Rotate (orQ (Transform.rotation t) 0)])%list) /\
    (let a := Engine.actualTransform transformOfSpec
                (Bounds.mk 0 0 1600 1200) in
     Transform.x a == 200 /\ Transform.y a == 200 /\
     Transform.width a == 400 /\ Transform.height a == 120 /\
     Transform.rotation a == 15).
Proof.
  intros t b.
  assert (Hrot : Transform.rotation (Engine.actualTransform t b)
                 = Transform.rotation t).
  { unfold Engine.actualTransform.
    destruct (Transform.previewCanvasWidth t) as [pw|]; [|reflexivity].
    destruct (Transform.previewCanvasHeight t) as [ph|]; [|reflexivity].
    destruct (truthyQ pw && truthyQ ph); reflexivity. }
  split; [|split; [|split; [|split]]].
  - intros pw ph Hw Hh Nw Nh a scaleX scaleY.
    subst a. unfold Engine.actualTransform. rewrite Hw, Hh.
    apply truthyQ_true in Nw. apply truthyQ_true in Nh.
    rewrite Nw, Nh. cbn.
    repeat split; reflexivity.
  - apply actualTransform_absent.
  - intros s text sf c Ht Htr.
    destruct (Engine_text_paints s text t b sf c Ht Htr)
      as (st & E & Hm & _).
    exists st. split; [exact E|]. now rewrite Hm, Hrot.
  - intros host s im d img sf c Hi Hd Htruthy Hdec Htr a.
    destruct (Engine_image_paints host s im d img t b sf c
                Hi Hd Htruthy Hdec Htr) as (st & E & Hm & _).
    exists st. split; [exact E|]. subst a. now rewrite Hm, Hrot.
  - vm_compute. repeat split; reflexivity.
Qed.

(** A witness of C2: the transform of the specification satisfies the
    hypotheses, and a transform without preview size is kept. *)
Lemma C2_witness :
  let t := transformOfSpec in
  let b := Bounds.mk 0 0 1600 1200 in
  Transform.x (Engine.actualTransform t b) == 100 * (1600 / 800) /\
  Engine.actualTransform
    (Transform.mk 100 100 200 60 15 None None) b
  = Transform.mk 100 100 200 60 15 None None.
Proof.
  split.
  - apply (proj1 (C2_actualTransform_scales_by_axis transformOfSpec
                    (Bounds.mk 0 0 1600 1200)) 800 600).
    + reflexivity.
    + reflexivity.
    + vm_compute. discriminate.
    + vm_compute. discriminate.
  - apply (proj1 (proj2 (C2_actualTransform_scales_by_axis
                           (Transform.mk 100 100 200 60 15 None None)
                           (Bounds.mk 0 0 1600 1200)))).
    left. reflexivity.
Defined.

(** ** The settings validator *)

Section Emits.
Local Open Scope string_scope.

(** [c] only appends messages of [M] to the array of errors. *)
Definition emits {A} (M : list string) (c : Js (list string) A) : Prop :=
  forall e0 o e1, c e0 = (o, e1) ->
    exists es, e1 = (e0 ++ es)%list /\ incl es M.

Lemma emits_ret {A} M (a : A) : emits M (ret a).
Proof.
  intros e0 o e1 H. inversion H; subst.
  exists []. split; [now rewrite app_nil_r | apply incl_nil_l].
Qed.

Lemma emits_throw {A} M e : emits M (@throw _ A e).
Proof.
  intros e0 o e1 H. inversion H; subst.
  exists []. split; [now rewrite app_nil_r | apply incl_nil_l].
Qed.

Lemma emits_prop {A} M p (o : option A) : emits M (prop p o).
Proof. destruct o; [apply emits_ret | apply emits_throw]. Qed.

Lemma emits_push M msg : In msg M -> emits M (push msg).
Proof.
  intros Hin e0 o e1 H. inversion H; subst.
  exists [msg]. split; [reflexivity|].
  intros m [<-|[]]. exact Hin.
Qed.

Lemma emits_bind {A B} M (c : Js (list string) A) (k : A -> Js (list string) B) :
  emits M c -> (forall a, emits M (k a)) -> emits M (bind c k).
Proof.
  intros Hc Hk e0 o e1. unfold bind.
  destruct (c e0) as [oc ec] eqn:E.
  destruct (Hc _ _ _ E) as (es & -> & Hes).
  destruct oc as [a| |]; intro H.
  - destruct (Hk a _ _ _ H) as (es' & -> & Hes').
    exists (es ++ es')%list. split; [now rewrite app_assoc|].
    now apply incl_app.
  - inversion H; subst. now exists es.
  - inversion H; subst. now exists es.
Qed.

Lemma emits_when M (b : bool) c : emits M c -> emits M (when b c).
Proof. destruct b; [trivial | intros _; apply emits_ret]. Qed.
End Emits.

Definition contentMessages : list string :=
  ["Invalid watermark type";
   "Text content is required";
   "Text size must be between 8 and 500 pixels";
   "Text opacity must be between 0 and 100";
   "Watermark image is required";
   "Image scale must be between 1 and 500 percent";
   "Image opacity must be between 0 and 100"]%string.

Lemma validateContent_emits (s : Settings.t) :
  emits contentMessages (validateContent s).
Proof.
  unfold validateContent.
  repeat first
    [ apply emits_bind; [|intros ?]
    | apply emits_when
    | apply emits_prop
    | apply emits_push; unfold contentMessages; simpl; tauto
    | apply emits_ret ].
Qed.

(** The sub-objects that the type of the settings requires are there. *)
Definition wellFormed (s : Settings.t) : Prop :=
  ((Settings.type s = "text" \/ Settings.type s = "combined")%string ->
   Settings.text s <> None) /\
  ((Settings.type s = "image" \/ Settings.type s = "combined")%string ->
   Settings.image s <> None).

Lemma validateContent_returns (s : Settings.t) (e0 : list string) :
  wellFormed s -> exists e1, validateContent s e0 = (Returned tt, e1).
Proof.
  intros [Ht Hi]. unfold validateContent, bind, when, prop.
  destruct (negb _); cbn [push modify ret].
  all: destruct (String.eqb (Settings.type s) "text") eqn:E1;
    destruct (String.eqb (Settings.type s) "combined") eqn:E2;
    destruct (String.eqb (Settings.type s) "image") eqn:E3;
    cbn [orb];
    try apply String.eqb_eq in E1; try apply String.eqb_eq in E2;
    try apply String.eqb_eq in E3;
    try (rewrite E1 in E2; discriminate E2);
    try (rewrite E1 in E3; discriminate E3);
    try (rewrite E3 in E2; discriminate E2).
  all: try (destruct (Settings.text s) as [t|];
            [|exfalso; apply Ht; tauto]).
  all: try (destruct (Settings.image s) as [i|];
            [|exfalso; apply Hi; tauto]).
  all: unfold ret, throw, push, modify;
    repeat match goal with
           | |- context [if ?b then _ else _] => destruct b
           end;
    eexists; reflexivity.
Qed.

(** A sub-object that the type of the settings requires is missing. *)
Definition lacksSubObject (s : Settings.t) : Prop :=
  (((Settings.type s = "text" \/ Settings.type s = "combined")
    /\ Settings.text s = None) \/
   ((Settings.type s = "image" \/ Settings.type s = "combined")
    /\ Settings.image s = None))%string.

Lemma validateContent_throws (s : Settings.t) (e0 : list string) :
  lacksSubObject s -> exists e e1, validateContent s e0 = (Thrown e, e1).
Proof.
  intros H. unfold validateContent, bind, when, prop.
  destruct (negb _); cbn [push modify ret].
  all: destruct H as [[[Ht|Ht] Hn]|[[Ht|Ht] Hn]]; rewrite Ht, Hn;
    cbn [String.eqb Ascii.eqb Bool.eqb orb throw].
  all: try (eexists; eexists; reflexivity).
  all: destruct (Settings.text s) as [t|]; unfold ret, throw, push, modify;
    repeat match goal with
           | |- context [if ?b then _ else _] => destruct b
           end;
    eexists; eexists; reflexivity.
Qed.

Section TextRules.
Local Open Scope string_scope.

Definition contentMissing (t : Text.t) : bool :=
  negb (truthyS (Text.content t)) || String.eqb (trim (Text.content t)) "".
Definition sizeOutOfRange (t : Text.t) : bool :=
  Qltb (Text.size t) 8 || Qgtb (Text.size t) 500.
Definition opacityOutOfRange (t : Text.t) : bool :=
  Qltb (Text.opacity t) 0 || Qgtb (Text.opacity t) 100.

Definition textErrors (t : Text.t) : list string :=
  ((if contentMissing t then ["Text content is required"] else []) ++
   (if sizeOutOfRange t
    then ["Text size must be between 8 and 500 pixels"] else []) ++
   (if opacityOutOfRange t
    then ["Text opacity must be between 0 and 100"] else []))%list.

Lemma validateContent_text (s : Settings.t) (t : Text.t) (e0 : list string) :
  Settings.type s = "text" -> Settings.text s = Some t ->
  validateContent s e0 = (Returned tt, (e0 ++ textErrors t)%list).
Proof.
  intros Ht Hs.
  unfold validateContent, textErrors, contentMissing, sizeOutOfRange,
    opacityOutOfRange.
  rewrite Ht, Hs. unfold bind, when, prop, push, modify, ret.
  cbn [includes String.eqb Ascii.eqb Bool.eqb negb orb].
  destruct (negb (truthyS (Text.content t)) || _);
    destruct (Qltb (Text.size t) 8 || _);
    destruct (Qltb (Text.opacity t) 0 || _);
    cbn [app]; rewrite <- ?app_assoc, ?app_nil_r; reflexivity.
Qed.

Lemma contentMissing_iff (t : Text.t) :
  contentMissing t = true <-> trim (Text.content t) = "".
Proof.
  unfold contentMissing. rewrite orb_true_iff, String.eqb_eq.
  split; [|tauto].
  intros [H|H]; [|exact H].
  destruct (Text.content t); [reflexivity | discriminate H].
Qed.

Lemma sizeOutOfRange_iff (t : Text.t) :
  sizeOutOfRange t = true <-> (Text.size t < 8 \/ 500 < Text.size t)%Q.
Proof.
  unfold sizeOutOfRange. now rewrite orb_true_iff, Qltb_lt, Qgtb_gt.
Qed.

Lemma opacityOutOfRange_iff (t : Text.t) :
  opacityOutOfRange t = true <->
  (Text.opacity t < 0 \/ 100 < Text.opacity t)%Q.
Proof.
  unfold opacityOutOfRange. now rewrite orb_true_iff, Qltb_lt, Qgtb_gt.
Qed.

(** What the position rules of each variant add. *)
Definition legacyPositionErrors (p : Position.t) : list string :=
  if negb (includes anchors (Position.preset p))
  then ["Invalid position preset"] else [].

Definition customErrors (p : Position.t) : list string :=
  if String.eqb (Position.preset p) "custom" then
    ((if negb (typeof_number (Position.x p))
         || negb (typeof_number (Position.y p))
      then ["Custom position requires valid x and y coordinates"] else []) ++
     (if js_lt (Position.x p) 0 || js_gt (Position.x p) 1000
         || js_lt (Position.y p) 0 || js_gt (Position.y p) 1000
      then ["Custom position coordinates must be between 0 and 1000"]
      else []))%list
  else [].

Definition enginePositionErrors (p : Position.t) : list string :=
  ((if negb (includes Engine.validPositions (Position.preset p))
    then [("Invalid position preset: " ++ Position.preset p)%string]
    else []) ++
   customErrors p)%list.

Lemma Legacy_validateSettings_errors (s : Settings.t) (p : Position.t) es :
  validateContent s [] = (Returned tt, es) ->
  Settings.position s = Some p ->
  Validation.errors (Legacy.validateSettings s)
  = (es ++ legacyPositionErrors p)%list.
Proof.
  intros Hc Hp.
  unfold Legacy.validateSettings, validationOf, bind, legacyPositionErrors.
  rewrite Hc, Hp. cbn.
  destruct (negb _); cbn; [reflexivity | now rewrite app_nil_r].
Qed.

Lemma Engine_validateSettings_errors (s : Settings.t) (p : Position.t) es :
  validateContent s [] = (Returned tt, es) ->
  Settings.position s = Some p ->
  Validation.errors (Engine.validateSettings s)
  = (es ++ enginePositionErrors p)%list.
Proof.
  intros Hc Hp.
  unfold Engine.validateSettings, validationOf, bind, enginePositionErrors,
    customErrors.
  rewrite Hc, Hp. unfold when, prop, push, modify, ret, bind.
  repeat match goal with
         | |- context [if ?b then _ else _] => destruct b
         end;
    cbn [Validation.errors app];
    rewrite <- ?app_assoc, ?app_nil_r; reflexivity.
Qed.

Lemma validateSettings_without_position (s : Settings.t) :
  Settings.position s = None ->
  Legacy.validateSettings s
  = Validation.mk false ["Failed to validate settings"] /\
  Engine.validateSettings s
  = Validation.mk false ["Failed to validate settings"].
Proof.
  intros Hp.
  unfold Legacy.validateSettings, Engine.validateSettings, validationOf, bind.
  rewrite Hp.
  destruct (validateContent s []) as [[[]| |] es]; cbn; split; reflexivity.
Qed.

Lemma validateSettings_lacking (s : Settings.t) :
  Settings.position s = None \/ lacksSubObject s ->
  Legacy.validateSettings s
  = Validation.mk false ["Failed to validate settings"] /\
  Engine.validateSettings s
  = Validation.mk false ["Failed to validate settings"].
Proof.
  intros [Hp|Hl]; [now apply validateSettings_without_position|].
  destruct (validateContent_throws s [] Hl) as (e & e1 & E).
  unfold Legacy.validateSettings, Engine.validateSettings, validationOf, bind.
  rewrite E. split; reflexivity.
Qed.
End TextRules.

Section ValidatorClaims.
Local Open Scope string_scope.

Lemma In_textErrors (t : Text.t) :
  (In "Text content is required" (textErrors t) <->
   contentMissing t = true) /\
  (In "Text size must be between 8 and 500 pixels" (textErrors t) <->
   sizeOutOfRange t = true) /\
  (In "Text opacity must be between 0 and 100" (textErrors t) <->
   opacityOutOfRange t = true).
Proof.
  unfold textErrors.
  destruct (contentMissing t), (sizeOutOfRange t), (opacityOutOfRange t);
    cbn; repeat split; intros; try tauto; try discriminate;
    repeat match goal with
           | H : _ \/ _ |- _ => destruct H
           | H : False |- _ => destruct H
           | H : _ = _ |- _ => discriminate H
           end.
Qed.

Lemma positionErrors_not_content (p : Position.t) (m : string) :
  In m contentMessages ->
  ~ In m (legacyPositionErrors p) /\ ~ In m (enginePositionErrors p).
Proof.
  intros Hm. unfold legacyPositionErrors, enginePositionErrors, customErrors.
  split; intro H;
    repeat match type of H with
           | context [if ?b then _ else _] => destruct b
           end;
    cbn in H, Hm;
    repeat match goal with
           | H : _ \/ _ |- _ => destruct H
           | H : False |- _ => destruct H
           end;
    subst; discriminate.
Qed.

(** The literal input of the specification: it has no [position]. *)
Definition literalInput : Settings.t :=
  {| Settings.type := "text";
     Settings.text := Some (Text.mk "" "" 1000 "" 150 0);
     Settings.image := None;
     Settings.position := None;
     Settings.transform := None;
     Settings.output := None |}.

Definition withPosition (s : Settings.t) (p : Position.t) : Settings.t :=
  {| Settings.type := Settings.type s;
     Settings.text := Settings.text s;
     Settings.image := Settings.image s;
     Settings.position := Some p;
     Settings.transform := Settings.transform s;
     Settings.output := Settings.output s |}.

(** C3, the counterexample: on
    [{type:'text', text:{content:'', size:1000, opacity:150}}] reading
    [settings.position.preset] throws inside the [try]; the three messages
    collected so far are dropped and each variant answers the single
    message of its [catch]. *)
Lemma C3_literal_input_yields_one_message :
  Engine.validateSettings literalInput
  = Validation.mk false ["Failed to validate settings"] /\
  Legacy.validateSettings literalInput
  = Validation.mk false ["Failed to validate settings"] /\
  ~ (3 <= List.length
            (Validation.errors (Engine.validateSettings literalInput)))%nat.
Proof.
  split; [reflexivity|]. split; [reflexivity|].
  cbn. lia.
Qed.

(** C3, as amended: for text settings that carry a [position], each of
    the three text rules is reported exactly when it is violated, whatever
    the other rules say, by either variant; so the input of the
    specification completed with a position gets its three messages and
    is invalid.  When the [position] is missing, or a sub-object that the
    type requires (the text of a text or combined watermark, the image
    of an image or combined one), the answer is invalid with the single
    message "Failed to validate settings", whatever had been collected.
    The validator is a total function: it always answers and never
    throws. *)
Theorem C3_text_rules_are_checked_independently :
  (forall (s : Settings.t) (t : Text.t) (p : Position.t),
     Settings.type s = "text" -> Settings.text s = Some t ->
     Settings.position s = Some p ->
     forall v, v = Engine.validateSettings s \/ v = Legacy.validateSettings s ->
       (In "Text content is required" (Validation.errors v) <->
        trim (Text.content t) = "") /\
       (In "Text size must be between 8 and 500 pixels" (Validation.errors v)
        <-> (Text.size t < 8 \/ 500 < Text.size t)%Q) /\
       (In "Text opacity must be between 0 and 100" (Validation.errors v)
        <-> (Text.opacity t < 0 \/ 100 < Text.opacity t)%Q) /\
       (Validation.isValid v = true <-> Validation.errors v = [])) /\
  (forall s : Settings.t,
     Settings.position s = None \/ lacksSubObject s ->
     Engine.validateSettings s
     = Validation.mk false ["Failed to validate settings"] /\
     Legacy.validateSettings s
     = Validation.mk false ["Failed to validate settings"]).
Proof.
  split; [|intros s Hn; destruct (validateSettings_lacking s Hn);
            split; assumption].
  intros s t p Ht Hs Hp v Hv.
  pose proof (validateContent_text s t [] Ht Hs) as Hc. cbn [app] in Hc.
  pose proof (Engine_validateSettings_errors s p _ Hc Hp) as He.
  pose proof (Legacy_validateSettings_errors s p _ Hc Hp) as Hl.
  destruct (In_textErrors t) as (I1 & I2 & I3).
  rewrite <- contentMissing_iff, <- sizeOutOfRange_iff,
    <- opacityOutOfRange_iff, <- I1, <- I2, <- I3.
  assert (Hpos : forall m, In m contentMessages ->
            (In m (Validation.errors v) <-> In m (textErrors t))).
  { intros m Hm. destruct (positionErrors_not_content p m Hm) as [Nl Ne].
    destruct Hv as [-> | ->]; rewrite ?He, ?Hl, in_app_iff; tauto. }
  repeat split; try (apply Hpos; unfold contentMessages; simpl; tauto);
    try (apply Hpos; unfold contentMessages; simpl; tauto).
  - intros Hvalid.
    destruct Hv as [-> | ->];
      unfold Engine.validateSettings, Legacy.validateSettings, validationOf
        in *;
      match goal with
      | H : Validation.isValid (match ?b with _ => _ end) = true |- _ =>
          destruct b as [[[]| |] es]; cbn in H |- *;
          try discriminate H;
          destruct es; [reflexivity | discriminate H]
      end.
  - intros Herr.
    destruct Hv as [-> | ->];
      unfold Engine.validateSettings, Legacy.validateSettings, validationOf
        in *;
      match goal with
      | H : Validation.errors (match ?b with _ => _ end) = [] |- _ =>
          destruct b as [[[]| |] es]; cbn in H |- *;
          try discriminate H; subst; reflexivity
      end.
Qed.

(** A text watermark without its [text]. *)
Definition textless : Settings.t :=
  {| Settings.type := "text";
     Settings.text := None;
     Settings.image := None;
     Settings.position := Some (Position.mk "center" JUndefined JUndefined);
     Settings.transform := None;
     Settings.output := None |}.

(** A witness of C3: the input of the specification with the position
    [{preset:'center'}], a blank content of no-break spaces, and settings
    that lack the text. *)
Lemma C3_witness :
  let s := withPosition literalInput
             (Position.mk "center" JUndefined JUndefined) in
  let blank :=
    withPosition
      {| Settings.type := "text";
         Settings.text :=
           Some (Text.mk (String (ascii_of_nat 160) (String (ascii_of_nat 160) ""))
                   "Arial" 48 "#ffffff" 80 0);
         Settings.image := None; Settings.position := None;
         Settings.transform := None; Settings.output := None |}
      (Position.mk "center" JUndefined JUndefined) in
  In "Text content is required" (Validation.errors (Engine.validateSettings s))
  /\ In "Text size must be between 8 and 500 pixels"
       (Validation.errors (Engine.validateSettings s))
  /\ In "Text opacity must be between 0 and 100"
       (Validation.errors (Engine.validateSettings s))
  /\ Validation.isValid (Legacy.validateSettings s) = false
  /\ In "Text content is required"
       (Validation.errors (Legacy.validateSettings blank))
  /\ Engine.validateSettings textless
     = Validation.mk false ["Failed to validate settings"].
Proof.
  intros s blank.
  pose proof (proj1 C3_text_rules_are_checked_independently s
                (Text.mk "" "" 1000 "" 150 0)
                (Position.mk "center" JUndefined JUndefined)
                eq_refl eq_refl eq_refl)
    as H.
  destruct (H (Engine.validateSettings s) (or_introl eq_refl))
    as (H1 & H2 & H3 & _).
  split; [apply H1; reflexivity|].
  split; [apply H2; right; reflexivity|].
  split; [apply H3; right; reflexivity|].
  split; [reflexivity|].
  split.
  - apply (proj1 C3_text_rules_are_checked_independently blank
             (Text.mk (String (ascii_of_nat 160) (String (ascii_of_nat 160) ""))
                "Arial" 48 "#ffffff" 80 0)
             (Position.mk "center" JUndefined JUndefined)
             eq_refl eq_refl eq_refl
             (Legacy.validateSettings blank) (or_intror eq_refl)).
    reflexivity.
  - apply (proj2 C3_text_rules_are_checked_independently textless).
    right. left. split; [left|]; reflexivity.
Defined.
End ValidatorClaims.

Section PositionRules.
Local Open Scope string_scope.

Lemma includes_In (l : list string) (s : string) :
  includes l s = true <-> In s l.
Proof.
  induction l as [|a l IH]; cbn.
  - split; [discriminate | tauto].
  - destruct (String.eqb a s) eqn:E.
    + apply String.eqb_eq in E. tauto.
    + apply String.eqb_neq in E. rewrite IH. tauto.
Qed.

(** The messages that the position rules of the two variants can add. *)
Definition positionMessages (preset : string) : list string :=
  ["Invalid position preset: " ++ preset;
   "Invalid position preset";
   "Custom position requires valid x and y coordinates";
   "Custom position coordinates must be between 0 and 1000"].

Lemma positionMessages_not_content (preset m : string) :
  In m (positionMessages preset) -> ~ In m contentMessages.
Proof.
  unfold positionMessages, contentMessages. cbn. intros H H'.
  repeat match goal with
         | H : _ \/ _ |- _ => destruct H
         | H : False |- _ => destruct H
         end; subst; discriminate.
Qed.

Lemma custom_in_range_no_errors (p : Position.t) (x y : Q) :
  Position.preset p = "custom" ->
  Position.x p = JNum x -> Position.y p = JNum y ->
  (0 <= x <= 1000)%Q -> (0 <= y <= 1000)%Q ->
  enginePositionErrors p = [].
Proof.
  intros Hp Hx Hy [X0 X1] [Y0 Y1].
  unfold enginePositionErrors, customErrors. rewrite Hp, Hx, Hy.
  unfold js_lt, js_gt. cbn [toNumber typeof_number].
  apply Qltb_ge in X0, Y0. apply Qgtb_le in X1, Y1.
  rewrite X0, X1, Y0, Y1. reflexivity.
Qed.

Lemma validateSettings_failed (s : Settings.t) :
  (forall es, validateContent s [] <> (Returned tt, es)) ->
  Validation.errors (Engine.validateSettings s)
  = ["Failed to validate settings"] /\
  Validation.errors (Legacy.validateSettings s)
  = ["Failed to validate settings"].
Proof.
  intros H.
  destruct (validateContent s []) as [[[]| |] es] eqn:E;
    [exfalso; apply (H es); reflexivity | ..];
    (split; [unfold Engine.validateSettings | unfold Legacy.validateSettings];
     unfold validationOf; unfold bind at 1; rewrite E; reflexivity).
Qed.

Lemma includes_not_In (l : list string) (s : string) :
  includes l s = false <-> ~ In s l.
Proof.
  rewrite <- includes_In. destruct (includes l s); split; intros H;
    try reflexivity; try discriminate; try (intro; discriminate).
  exfalso. now apply H.
Qed.

Lemma In_invalid_engine (p : Position.t) :
  In ("Invalid position preset: " ++ Position.preset p)
     (enginePositionErrors p)
  <-> includes Engine.validPositions (Position.preset p) = false.
Proof.
  unfold enginePositionErrors, customErrors.
  destruct (includes Engine.validPositions (Position.preset p));
    cbn [negb app].
  - split; [|discriminate].
    destruct (String.eqb (Position.preset p) "custom"); [|intros []].
    repeat match goal with
           | |- context [if ?b then _ else _] => destruct b
           end;
      cbn [app In String.append]; intros H;
      repeat match goal with
             | H : _ \/ _ |- _ => destruct H
             | H : False |- _ => destruct H
             | H : _ = _ |- _ => discriminate H
             end.
  - split; [reflexivity|]. intros _. left. reflexivity.
Qed.

Lemma In_invalid_legacy (p : Position.t) :
  In "Invalid position preset" (legacyPositionErrors p)
  <-> includes anchors (Position.preset p) = false.
Proof.
  unfold legacyPositionErrors.
  destruct (includes anchors (Position.preset p)); cbn [negb In].
  - split; [intros [] | discriminate].
  - split; [reflexivity | intros _; left; reflexivity].
Qed.

(** Settings that the validator accepts: a text watermark at the custom
    position (500, 500). *)
Definition customTextSettings : Settings.t :=
  {| Settings.type := "text";
     Settings.text := Some (Text.mk "hi" "Arial" 48 "#ffffff" 80 0);
     Settings.image := None;
     Settings.position := Some (Position.mk "custom" (JNum 500) (JNum 500));
     Settings.transform := None;
     Settings.output := None |}.

(** C4, the counterexample: the anchor-only variant knows the nine
    anchors only and reports a position error for [custom] with
    coordinates in range, which the transform-based variant accepts; and
    in the transform-based variant an unknown preset goes unreported when
    the text object that the type requires is missing, the body having
    thrown before the position rules. *)
Lemma C4_legacy_rejects_custom :
  Legacy.validateSettings customTextSettings
  = Validation.mk false ["Invalid position preset"] /\
  Engine.validateSettings customTextSettings = Validation.mk true [] /\
  Engine.validateSettings
    (Settings.mk "text" None None
       (Some (Position.mk "diagonal" (JNum 0) (JNum 0))) None None)
  = Validation.mk false ["Failed to validate settings"].
Proof. repeat split. Qed.

(** C4, as amended: in the transform-based variant, settings whose
    position is [custom] with numeric [x] and [y] in [0, 1000] get no
    position message; when the sub-objects that the type requires are
    present, that variant reports "Invalid position preset: ..." exactly
    when the preset is none of the nine anchors and not [custom], and the
    anchor-only variant reports "Invalid position preset" exactly when
    the preset is none of the nine anchors, [custom] included. *)
Theorem C4_custom_position_passes_the_transform_based_validator :
  forall (s : Settings.t) (p : Position.t),
    Settings.position s = Some p ->
    (forall x y : Q,
        Position.preset p = "custom" ->
        Position.x p = JNum x -> Position.y p = JNum y ->
        (0 <= x <= 1000)%Q -> (0 <= y <= 1000)%Q ->
        forall m, In m (positionMessages (Position.preset p)) ->
                  ~ In m (Validation.errors (Engine.validateSettings s))) /\
    (wellFormed s ->
     (In ("Invalid position preset: " ++ Position.preset p)
         (Validation.errors (Engine.validateSettings s))
      <-> ~ In (Position.preset p) (anchors ++ ["custom"])) /\
     (In "Invalid position preset"
         (Validation.errors (Legacy.validateSettings s))
      <-> ~ In (Position.preset p) anchors)).
Proof.
  intros s p Hp. split.
  - intros x y Hc Hx Hy Rx Ry m Hm Hin.
    pose proof (positionMessages_not_content _ _ Hm) as Hnc.
    destruct (validateContent s []) as [[[]| |] es0] eqn:Hvc.
    + rewrite (Engine_validateSettings_errors s p es0 Hvc Hp) in Hin.
      rewrite (custom_in_range_no_errors p x y Hc Hx Hy Rx Ry),
        app_nil_r in Hin.
      destruct (validateContent_emits s _ _ _ Hvc) as (es' & -> & Hincl).
      apply Hnc. apply Hincl. exact Hin.
    + destruct (validateSettings_failed s) as [Hf _];
        [intros es; rewrite Hvc; discriminate|].
      rewrite Hf in Hin. destruct Hin as [<-|[]].
      unfold positionMessages in Hm. cbn in Hm.
      repeat match goal with
             | H : _ \/ _ |- _ => destruct H
             | H : False |- _ => destruct H
             end; discriminate.
    + destruct (validateSettings_failed s) as [Hf _];
        [intros es; rewrite Hvc; discriminate|].
      rewrite Hf in Hin. destruct Hin as [<-|[]].
      unfold positionMessages in Hm. cbn in Hm.
      repeat match goal with
             | H : _ \/ _ |- _ => destruct H
             | H : False |- _ => destruct H
             end; discriminate.
  - intros Hwf.
    destruct (validateContent_returns s [] Hwf) as (es & Hvc).
    destruct (validateContent_emits s _ _ _ Hvc) as (es' & E & Hincl).
    cbn [app] in E. subst es'.
    rewrite (Engine_validateSettings_errors s p es Hvc Hp),
      (Legacy_validateSettings_errors s p es Hvc Hp).
    assert (N1 : ~ In ("Invalid position preset: " ++ Position.preset p) es).
    { intro H. apply Hincl in H.
      revert H. apply positionMessages_not_content with (preset := Position.preset p).
      unfold positionMessages. cbn. tauto. }
    assert (N2 : ~ In "Invalid position preset" es).
    { intro H. apply Hincl in H.
      revert H. apply positionMessages_not_content with (preset := Position.preset p).
      unfold positionMessages. cbn. tauto. }
    split.
    + rewrite (in_app_iff es), In_invalid_engine, includes_not_In.
      unfold Engine.validPositions. tauto.
    + rewrite (in_app_iff es), In_invalid_legacy, includes_not_In. tauto.
Qed.
End PositionRules.

Section PositionWitness.
Local Open Scope string_scope.

(** A witness of C4: the accepted custom settings. *)
Lemma C4_witness :
  Validation.isValid (Engine.validateSettings customTextSettings) = true /\
  ~ In "Custom position coordinates must be between 0 and 1000"
      (Validation.errors (Engine.validateSettings customTextSettings)).
Proof.
  split; [reflexivity|].
  apply (proj1 (C4_custom_position_passes_the_transform_based_validator
                  customTextSettings
                  (Position.mk "custom" (JNum 500) (JNum 500)) eq_refl)
           500 500 eq_refl eq_refl eq_refl).
  - lra.
  - lra.
  - cbn. tauto.
Defined.
End PositionWitness.

(** ** The renderer and the drawing surface *)

Section Renderer.
Local Open Scope string_scope.
Context (host : Host).

Definition unknownType : Settings.t :=
  {| Settings.type := "bogus"; Settings.text := None;
     Settings.image := None; Settings.position := None;
     Settings.transform := None; Settings.output := None |}.

(** The surface [c] with one more copy of its state on the stack. *)
Definition oneSaveDeeper (c : Canvas) : Canvas :=
  {| state := state c; saved := state c :: saved c; painted := painted c |}.

(** C6, at the failing input: with the type "bogus" either variant of
    [applyWatermark] throws after [targetCtx.save()] and before
    [targetCtx.restore()], so the surface keeps its paint state but its
    save/restore stack is one entry deeper than before the call. *)
Theorem C6_unknown_type_leaves_the_stack_one_deeper :
  forall (bounds : Bounds.t) (scaleFactor : Q) (c : Canvas),
    let thrown :=
      Thrown
        (mkError "Failed to apply watermark: Unknown watermark type: bogus") in
    Engine.applyWatermark host unknownType bounds scaleFactor c
    = (thrown, oneSaveDeeper c) /\
    Legacy.applyWatermark host unknownType bounds scaleFactor c
    = (thrown, oneSaveDeeper c) /\
    List.length (saved (oneSaveDeeper c)) = S (List.length (saved c)).
Proof.
  intros bounds scaleFactor c thrown. repeat split.
Qed.
End Renderer.

Section MissingImage.
Local Open Scope string_scope.
Context (host : Host).

Definition asType (type : string) (s : Settings.t) : Settings.t :=
  {| Settings.type := type; Settings.text := Settings.text s;
     Settings.image := Settings.image s;
     Settings.position := Settings.position s;
     Settings.transform := Settings.transform s;
     Settings.output := Settings.output s |}.

Lemma Engine_image_absent (s : Settings.t) (im : Image.t) b sf c :
  Settings.image s = Some im -> Image.imageData im = None ->
  Engine.applyImageWatermark host s b sf c = (Returned tt, c).
Proof.
  intros Hs Hd. unfold Engine.applyImageWatermark, try_catch, bind, prop.
  rewrite Hs. cbn [ret]. rewrite Hd. reflexivity.
Qed.

Lemma Legacy_image_absent (s : Settings.t) (im : Image.t) b sf c :
  Settings.image s = Some im -> Image.imageData im = None ->
  Legacy.applyImageWatermark s b sf c = (Returned tt, c).
Proof.
  intros Hs Hd. unfold Legacy.applyImageWatermark, try_catch, bind, prop.
  rewrite Hs. cbn [ret]. rewrite Hd. reflexivity.
Qed.

(** A combined watermark whose image layer paints nothing is a text
    watermark. *)
Lemma combined_with_silent_image
    (textLayer imageLayer : Settings.t -> Bounds.t -> Q -> Js Canvas unit)
    (s : Settings.t) b sf c :
  Settings.type s = "combined" ->
  (forall c', imageLayer s b sf c' = (Returned tt, c')) ->
  (forall type, textLayer (asType type s) b sf = textLayer s b sf) ->
  applyWatermarkWith textLayer imageLayer s b sf c
  = applyWatermarkWith textLayer imageLayer (asType "text" s) b sf c.
Proof.
  intros Ht Hi Htext. unfold applyWatermarkWith, try_catch.
  rewrite Ht. cbn [asType Settings.type String.eqb Ascii.eqb Bool.eqb].
  rewrite Htext. unfold bind. cbn [save modify].
  destruct (textLayer s b sf _) as [[[]| |] c1]; [|reflexivity..].
  rewrite Hi. reflexivity.
Qed.

(** C9: when [image.imageData] is absent the image layer of either
    variant returns at once, having painted nothing and thrown nothing,
    and a combined watermark is rendered exactly as the text watermark
    with the same settings. *)
Theorem C9_absent_image_data_is_a_silent_no_op :
  forall (s : Settings.t) (im : Image.t) (b : Bounds.t) (sf : Q) (c : Canvas),
    Settings.image s = Some im -> Image.imageData im = None ->
    Engine.applyImageWatermark host s b sf c = (Returned tt, c) /\
    Legacy.applyImageWatermark s b sf c = (Returned tt, c) /\
    (Settings.type s = "combined" ->
     Engine.applyWatermark host s b sf c
     = Engine.applyWatermark host (asType "text" s) b sf c /\
     Legacy.applyWatermark host s b sf c
     = Legacy.applyWatermark host (asType "text" s) b sf c).
Proof.
  intros s im b sf c Hs Hd.
  split; [now apply Engine_image_absent with (im := im)|].
  split; [now apply Legacy_image_absent with (im := im)|].
  intros Ht. split.
  - apply combined_with_silent_image; [assumption | | reflexivity].
    intros c'. now apply Engine_image_absent with (im := im).
  - apply combined_with_silent_image; [assumption | | reflexivity].
    intros c'. now apply Legacy_image_absent with (im := im).
Qed.
End MissingImage.

Section MissingImageWitness.
Local Open Scope string_scope.

(** The host of the examples: the width of a text is the fallback
    estimate of the engine, and every source decodes to a 100x50 raster. *)
Definition exampleHost : Host :=
  {| measureText :=
       fun f s => font_px f * inject_Z (Z.of_nat (String.length s)) * (6 # 10);
     decode := fun src => Some (mkRaster 100 50 src) |}.

Definition logoless : Settings.t :=
  {| Settings.type := "combined";
     Settings.text := Some (Text.mk "hi" "Arial" 48 "#808080" 80 0);
     Settings.image := Some (Image.mk None 100 80 0);
     Settings.position := Some (Position.mk "center" (JNum 0) (JNum 0));
     Settings.transform :=
       Some (Transform.mk 40 40 80 40 0 (Some 400) (Some 300));
     Settings.output := None |}.

(** A witness of C9: a combined watermark without a logo still gets its
    text painted, once, by either variant. *)
Lemma C9_witness :
  let b := Bounds.mk 0 0 400 300 in
  (exists st,
      snd (Engine.applyWatermark exampleHost logoless b 1 freshCanvas)
      = {| state := defaultPaint; saved := [];
           painted := [FillText "hi" 0 0 st] |}) /\
  (exists st,
      snd (Legacy.applyWatermark exampleHost logoless b 1 freshCanvas)
      = {| state := defaultPaint; saved := [];
           painted := [FillText "hi" 0 0 st] |}).
Proof.
  intro b.
  destruct (C9_absent_image_data_is_a_silent_no_op exampleHost logoless
              (Image.mk None 100 80 0) b 1 freshCanvas eq_refl eq_refl)
    as (_ & _ & H).
  destruct (H eq_refl) as [He Hl].
  rewrite He, Hl. split; vm_compute; eexists; reflexivity.
Defined.
End MissingImageWitness.

(** ** Code that settles: it returns or throws, and never stays pending *)

Section Settles.
Context {S : Type}.

Definition settles {A} (c : Js S A) : Prop :=
  forall s, fst (c s) <> Pending.

Lemma settles_ret {A} (a : A) : settles (ret a).
Proof. intros s. discriminate. Qed.

Lemma settles_throw {A} e : settles (@throw S A e).
Proof. intros s. discriminate. Qed.

Lemma settles_modify f : settles (@modify S f).
Proof. intros s. discriminate. Qed.

Lemma settles_prop {A} p (o : option A) : settles (@prop S A p o).
Proof. destruct o; [apply settles_ret | apply settles_throw]. Qed.

Lemma settles_bind {A B} (c : Js S A) (k : A -> Js S B) :
  settles c -> (forall a, settles (k a)) -> settles (bind c k).
Proof.
  intros Hc Hk s. unfold bind. specialize (Hc s).
  destruct (c s) as [[a| |] s']; cbn in *;
    [apply Hk | discriminate | congruence].
Qed.

Lemma settles_try_catch {A} (c : Js S A) (h : JsError -> Js S A) :
  settles c -> (forall e, settles (h e)) -> settles (try_catch c h).
Proof.
  intros Hc Hh s. unfold try_catch. specialize (Hc s).
  destruct (c s) as [[a| |] s']; cbn in *;
    [discriminate | apply Hh | congruence].
Qed.

Lemma settles_when (b : bool) (c : Js S unit) :
  settles c -> settles (when b c).
Proof. destruct b; [trivial | intros _; apply settles_ret]. Qed.

Lemma settles_for_of {A} (xs : list A) (body : A -> Js S unit) :
  (forall x, settles (body x)) -> settles (for_of xs body).
Proof.
  intros H. induction xs as [|x xs IH]; cbn [for_of].
  - apply settles_ret.
  - apply settles_bind; [apply H | intros _; exact IH].
Qed.

Lemma settles_if {A} (b : bool) (c d : Js S A) :
  settles c -> settles d -> settles (if b then c else d).
Proof. now destruct b. Qed.
End Settles.

Ltac settle_with known :=
  repeat first
    [ assumption
    | known
    | apply settles_ret | apply settles_throw | apply settles_modify
    | apply settles_prop
    | apply settles_bind; [|intros ?]
    | apply settles_try_catch; [|intros ?]
    | apply settles_when
    | apply settles_for_of; intros ?
    | apply settles_if ].

Ltac settle := settle_with fail.

Section SettlesEngine.
Context (host : Host).

(** [applyWatermark] runs the image layer for [s]. *)
Definition drawsImage (s : Settings.t) : bool :=
  String.eqb (Settings.type s) "image"
  || String.eqb (Settings.type s) "combined".

(** The source that the image layer of the transform-based engine loads
    for [s], if it is run and loads one. *)
Definition imageSourceOf (s : Settings.t) : option string :=
  if drawsImage s then
    match Settings.image s with
    | Some image =>
        match Image.imageData image with
        | Some d =>
            if truthyImageData (Some d) then Some (Engine.srcOf d) else None
        | None => None
        end
    | None => None
    end
  else None.

(** The image source of [s], if there is one, decodes. *)
Definition decodes (s : Settings.t) : Prop :=
  forall src, imageSourceOf s = Some src -> decode host src <> None.

(** The image sources of all the settings handed over decode. *)
Definition allDecode (st : Batch.SettingsArg) : Prop :=
  match st with
  | Batch.One s => decodes s
  | Batch.Many l => Forall decodes l
  end.

Lemma settles_canvas_ops :
  settles save /\ settles restore /\
  (forall f, settles (withState f)) /\ (forall f, settles (paint f)).
Proof. repeat split; intros; apply settles_modify. Qed.

Lemma settles_toDataURL t q : settles (toDataURL t q).
Proof. intros s. discriminate. Qed.

Lemma settles_Engine_text s b sf :
  settles (Engine.applyTextWatermark s b sf).
Proof.
  unfold Engine.applyTextWatermark, save, restore, translate, rotate,
    set_font, set_fillStyle, set_globalAlpha, set_textAlign,
    set_textBaseline, set_imageSmoothingEnabled, fillText, paint, withState.
  settle.
Qed.

Lemma settles_bind_Some {S A B} p (a : A) (k : A -> Js S B) :
  settles (k a) -> settles (bind (prop p (Some a)) k).
Proof. intros H c. exact (H c). Qed.

Lemma settles_Engine_image s b sf :
  drawsImage s = true -> decodes s ->
  settles (Engine.applyImageWatermark host s b sf).
Proof.
  unfold decodes, imageSourceOf, Engine.applyImageWatermark.
  intros -> Hd.
  apply settles_try_catch; [|intros ?; apply settles_throw].
  revert Hd.
  destruct (Settings.image s) as [image|];
    [|intros _ c; cbn; discriminate].
  intros Hd. apply settles_bind_Some. revert Hd.
  destruct (Image.imageData image) as [d|]; [|intros _; apply settles_ret].
  destruct (truthyImageData (Some d)); cbn [negb];
    [|intros _; apply settles_ret].
  intros Hd.
  apply settles_bind.
  { unfold Engine.loaded. specialize (Hd (Engine.srcOf d) eq_refl).
    destruct (decode host (Engine.srcOf d)); [apply settles_ret|congruence]. }
  intros img.
  unfold save, restore, translate, rotate, set_globalAlpha,
    set_imageSmoothingEnabled, set_imageSmoothingQuality, drawImage, paint,
    withState.
  destruct (Settings.transform s); settle.
Qed.

Lemma settles_applyWatermarkWith textLayer imageLayer s b sf :
  settles (textLayer s b sf) -> settles (imageLayer s b sf) ->
  settles (applyWatermarkWith textLayer imageLayer s b sf).
Proof.
  intros Ht Hi. unfold applyWatermarkWith, save, restore. settle.
Qed.

Lemma settles_Engine_applyWatermark s b sf :
  decodes s -> settles (Engine.applyWatermark host s b sf).
Proof.
  intros Hd. unfold Engine.applyWatermark, applyWatermarkWith.
  pose proof (settles_Engine_text s b sf) as Ht.
  pose proof (settles_Engine_image s b sf) as Hi.
  unfold drawsImage in Hi.
  apply settles_try_catch; [|intros ?; apply settles_throw].
  apply settles_bind; [apply settles_modify|intros _].
  apply settles_bind; [|intros _; apply settles_modify].
  destruct (String.eqb (Settings.type s) "text"); [exact Ht|].
  destruct (String.eqb (Settings.type s) "image");
    [exact (Hi eq_refl Hd)|].
  destruct (String.eqb (Settings.type s) "combined");
    [|apply settles_throw].
  apply settles_bind; [exact Ht|intros _; exact (Hi eq_refl Hd)].
Qed.

Lemma settles_generateWatermarkedImage src s :
  decodes s -> settles (Engine.generateWatermarkedImage host src s).
Proof.
  intros Hd.
  unfold Engine.generateWatermarkedImage, generateWatermarkedImageWith,
    clearRect, drawImage, paint.
  settle_with ltac:(first [ apply settles_toDataURL
                          | apply settles_Engine_applyWatermark; assumption ]).
Qed.

Lemma settles_for_of_Forall {S A} (P : A -> Prop) (xs : list A)
    (body : A -> Js S unit) :
  (forall x, P x -> settles (body x)) -> Forall P xs ->
  settles (for_of xs body).
Proof.
  intros H. induction 1 as [|x xs Hx _ IH]; cbn [for_of].
  - apply settles_ret.
  - apply settles_bind; [now apply H | intros _; exact IH].
Qed.

Lemma settles_generateWatermarkedImageMultiple src l :
  Forall decodes l ->
  settles (Engine.generateWatermarkedImageMultiple host src l).
Proof.
  intros Hd.
  unfold Engine.generateWatermarkedImageMultiple, clearRect, drawImage, paint.
  settle_with ltac:(first
    [ apply settles_toDataURL
    | apply (settles_for_of_Forall decodes); [|exact Hd]; intros wm Hwm;
      apply settles_bind;
        [apply settles_when; apply settles_bind;
           [apply settles_prop | intros ?; apply settles_ret]
        |intros ?; now apply settles_Engine_applyWatermark] ]).
Qed.

Lemma settles_processImage img st :
  allDecode st -> settles (Batch.processImage host img st).
Proof.
  intros Hd. unfold Batch.processImage.
  apply settles_try_catch;
    [|intros ?; apply settles_bind;
        [apply settles_prop | intros ?; apply settles_throw]].
  apply settles_bind.
  { destruct img; [apply settles_ret|apply settles_throw]. }
  intros image.
  apply settles_bind.
  { destruct (Batch.imageData image); [apply settles_ret|apply settles_throw]. }
  intros data.
  apply settles_bind.
  { destruct st; unfold Batch.checkSettings; settle. }
  intros _. apply settles_bind.
  { destruct st; unfold Batch.describe; settle. }
  intros _. apply settles_bind; [|intros ?; apply settles_ret].
  destruct st;
    [now apply settles_generateWatermarkedImage
    |now apply settles_generateWatermarkedImageMultiple].
Qed.
End SettlesEngine.

(** ** The batch queue *)

Section BatchLoop.
Local Open Scope string_scope.
Context (host : Host).

Lemma updateAt_middle {A} (f : A -> A) (done : list A) (x : A) todo :
  Batch.updateAt (List.length done) f (done ++ x :: todo)
  = (done ++ f x :: todo)%list.
Proof.
  induction done as [|d done IH]; cbn; [reflexivity | now rewrite IH].
Qed.

Lemma nth_error_middle {A} (done : list A) (x : A) todo :
  nth_error (done ++ x :: todo) (List.length done) = Some x.
Proof.
  induction done as [|d done IH]; cbn; [reflexivity | exact IH].
Qed.

(** The item after its round, by the outcome of [processImage]. *)
Definition processedItem (it : Batch.QueueItem) (o : Outcome Batch.Result)
  : Batch.QueueItem :=
  match o with
  | Returned r =>
      {| Batch.image := Batch.image it; Batch.settings := Batch.settings it;
         Batch.status := "completed"; Batch.result := Some r;
         Batch.error := Batch.error it |}
  | Thrown e =>
      {| Batch.image := Batch.image it; Batch.settings := Batch.settings it;
         Batch.status := "failed"; Batch.result := Batch.result it;
         Batch.error := Some (message e) |}
  | Pending =>
      {| Batch.image := Batch.image it; Batch.settings := Batch.settings it;
         Batch.status := "processing"; Batch.result := Batch.result it;
         Batch.error := Batch.error it |}
  end.

Definition resultsOf (o : Outcome Batch.Result) : list Batch.Result :=
  match o with Returned r => [r] | _ => [] end.

Definition errorsOf (img : Batch.SourceImage) (o : Outcome Batch.Result)
  : list Batch.ErrorEntry :=
  match o with
  | Thrown e => [{| Batch.err_image := Batch.name img;
                    Batch.err_error := message e |}]
  | _ => []
  end.

Lemma processItem_run done item img todo (this : Batch.BatchProcessor) o cv :
  Batch.processingQueue this = (done ++ item :: todo)%list ->
  Batch.image item = Some img ->
  Batch.processImage host (Some img) (Batch.settings item)
    (Batch.canvas this) = (o, cv) ->
  o <> Pending ->
  Batch.processItem host (List.length done) item this
  = (Returned tt,
     {| Batch.processingQueue := (done ++ processedItem item o :: todo)%list;
        Batch.isProcessing := Batch.isProcessing this;
        Batch.results := (Batch.results this ++ resultsOf o)%list;
        Batch.errors := (Batch.errors this ++ errorsOf img o)%list;
        Batch.shouldStop := Batch.shouldStop this;
        Batch.canvas := cv |}).
Proof.
  intros Hq Himg Hi Hp.
  unfold Batch.processItem, try_catch, bind, Batch.onItem, Batch.withQueue,
    Batch.onCanvas, Batch.pushResult, Batch.pushError, modify.
  rewrite Himg. cbn [prop ret].
  cbn [Batch.processingQueue Batch.canvas Batch.results Batch.errors
       Batch.isProcessing Batch.shouldStop].
  rewrite Hq, Hi, updateAt_middle.
  destruct o as [r|e|]; [| |congruence];
    cbn [Batch.processingQueue Batch.canvas Batch.results Batch.errors
         Batch.isProcessing Batch.shouldStop];
    repeat (rewrite updateAt_middle;
            cbn [Batch.processingQueue Batch.canvas Batch.results
                 Batch.errors Batch.isProcessing Batch.shouldStop]);
    cbn [resultsOf errorsOf processedItem Batch.image Batch.settings
         Batch.status Batch.result Batch.error];
    rewrite ?app_nil_r; reflexivity.
Qed.

(** The item whose image is missing, after its round. *)
Definition imagelessItem (it : Batch.QueueItem) : Batch.QueueItem :=
  {| Batch.image := Batch.image it; Batch.settings := Batch.settings it;
     Batch.status := "failed"; Batch.result := Batch.result it;
     Batch.error := Some (message (TypeError "name")) |}.

Lemma processItem_without_image done item todo
    (this : Batch.BatchProcessor) :
  Batch.processingQueue this = (done ++ item :: todo)%list ->
  Batch.image item = None ->
  Batch.processItem host (List.length done) item this
  = (Thrown (TypeError "name"),
     {| Batch.processingQueue := (done ++ imagelessItem item :: todo)%list;
        Batch.isProcessing := Batch.isProcessing this;
        Batch.results := Batch.results this;
        Batch.errors := Batch.errors this;
        Batch.shouldStop := Batch.shouldStop this;
        Batch.canvas := Batch.canvas this |}).
Proof.
  intros Hq Himg.
  unfold Batch.processItem, try_catch, bind, Batch.onItem, Batch.withQueue,
    Batch.onCanvas, Batch.pushResult, Batch.pushError, modify.
  rewrite Himg. cbn [prop throw].
  cbn [Batch.processingQueue Batch.canvas Batch.results Batch.errors
       Batch.isProcessing Batch.shouldStop].
  rewrite Hq.
  repeat (rewrite updateAt_middle;
          cbn [Batch.processingQueue Batch.canvas Batch.results
               Batch.errors Batch.isProcessing Batch.shouldStop]).
  unfold imagelessItem, Batch.setStatus, Batch.setError.
  cbn [Batch.image Batch.settings Batch.status Batch.result Batch.error].
  reflexivity.
Qed.
End BatchLoop.

Section BatchQueue.
Local Open Scope string_scope.
Context (host : Host).

(** An item that the loop can take: it has an image, and the image
    sources that its settings name decode. *)
Definition queueable (it : Batch.QueueItem) : Prop :=
  Batch.image it <> None /\ allDecode host (Batch.settings it).

(** One item went through its round: [processImage] on its image and
    settings, on the canvas as the round found it, had the outcome [o],
    which the item and the lists [rs] and [es] record. *)
Definition wentThrough (rs : list Batch.Result) (es : list Batch.ErrorEntry)
    (it it' : Batch.QueueItem) : Prop :=
  exists img o c c',
    Batch.image it = Some img /\
    Batch.processImage host (Some img) (Batch.settings it) c = (o, c') /\
    o <> Pending /\ it' = processedItem it o /\
    incl (resultsOf o) rs /\ incl (errorsOf img o) es.

Lemma wentThrough_more rs es rs' es' rs0 es0 it it' :
  wentThrough rs es it it' ->
  wentThrough (rs0 ++ rs ++ rs')%list (es0 ++ es ++ es')%list it it'.
Proof.
  intros (img & o & c & c' & Hi & Hrun & Ho & -> & Hr & He).
  exists img, o, c, c'. repeat split; trivial.
  - intros x Hx. apply in_or_app. right. apply in_or_app. left. now apply Hr.
  - intros x Hx. apply in_or_app. right. apply in_or_app. left. now apply He.
Qed.

(** The loop over the items [todo] that it can take, up to the items
    [rest] that follow them. *)
Lemma processFrom_run :
  forall (todo done rest : list Batch.QueueItem) (n : nat)
         (this : Batch.BatchProcessor),
    Forall queueable todo ->
    Batch.processingQueue this = (done ++ todo ++ rest)%list ->
    Batch.shouldStop this = false ->
    exists todo' rs es cv,
      Batch.processFrom host (List.length todo + n) (List.length done) this
      = Batch.processFrom host n (List.length done + List.length todo)
          {| Batch.processingQueue := (done ++ todo' ++ rest)%list;
             Batch.isProcessing := Batch.isProcessing this;
             Batch.results := (Batch.results this ++ rs)%list;
             Batch.errors := (Batch.errors this ++ es)%list;
             Batch.shouldStop := false;
             Batch.canvas := cv |} /\
      Forall2 (wentThrough rs es) todo todo'.
Proof.
  induction todo as [|item todo IH]; intros done rest n this Hgood Hq Hs.
  - exists [], [], [], (Batch.canvas this). split; [|constructor].
    cbn [List.length Nat.add app]. rewrite Nat.add_0_r, !app_nil_r.
    cbn [app] in Hq.
    destruct this; cbn in *; subst; reflexivity.
  - inversion Hgood as [|x l [Himg Hdec] Hgood']; subst.
    destruct (Batch.image item) as [img|] eqn:Ei; [|congruence].
    cbn [List.length Nat.add Batch.processFrom].
    unfold bind at 1. cbn [Batch.get]. rewrite Hs, Hq.
    cbn [app]. rewrite nth_error_middle.
    destruct (Batch.processImage host (Some img)
                (Batch.settings item) (Batch.canvas this)) as [o cv] eqn:Hi.
    assert (Ho : o <> Pending).
    { pose proof (settles_processImage host (Some img)
                    (Batch.settings item) Hdec (Batch.canvas this)) as H.
      now rewrite Hi in H. }
    unfold bind.
    rewrite (processItem_run host done item img (todo ++ rest) this o cv
               Hq Ei Hi Ho).
    set (this1 := {| Batch.processingQueue := _ |}).
    destruct (IH (done ++ [processedItem item o])%list rest n this1 Hgood')
      as (todo' & rs & es & cv' & Hrun & Hall).
    { subst this1. cbn. now rewrite <- app_assoc. }
    { subst this1. exact Hs. }
    rewrite length_app in Hrun. cbn [List.length] in Hrun.
    rewrite (Nat.add_comm (List.length done) 1) in Hrun.
    cbn [Nat.add] in Hrun.
    rewrite Hrun. subst this1.
    cbn [Batch.isProcessing Batch.results Batch.errors].
    exists (processedItem item o :: todo'),
      (resultsOf o ++ rs)%list, (errorsOf img o ++ es)%list, cv'.
    split.
    + rewrite <- !app_assoc. cbn [app List.length].
      replace (List.length done + S (List.length todo))%nat
        with (S (List.length done + List.length todo))%nat by lia.
      reflexivity.
    + constructor.
      * exists img, o, (Batch.canvas this), cv.
        repeat split; trivial; apply incl_appl, incl_refl.
      * eapply Forall2_impl; [|exact Hall].
        intros a b' H.
        apply (wentThrough_more rs es [] [] (resultsOf o) (errorsOf img o)) in H.
        now rewrite !app_nil_r in H.
Qed.
End BatchQueue.

Section BatchIsolation.
Local Open Scope string_scope.
Context (host : Host).

(** The item is finished: completed with its result among the results,
    or failed with its message among the errors under the image's name. *)
Definition settled (this : Batch.BatchProcessor) (it : Batch.QueueItem)
  : Prop :=
  (Batch.status it = "completed" /\
   exists r, Batch.result it = Some r /\ In r (Batch.results this)) \/
  (Batch.status it = "failed" /\
   exists img msg,
     Batch.image it = Some img /\ Batch.error it = Some msg /\
     In {| Batch.err_image := Batch.name img;
           Batch.err_error := msg |} (Batch.errors this)).

(** The item [it'] is the item [it] after [processImage] has run on its
    image and its settings (on the canvas of the engine as the images
    before it left it): completed with the result when it returned,
    failed with the message when it threw. *)
Definition processedFrom (it it' : Batch.QueueItem) : Prop :=
  exists c o c',
    Batch.processImage host (Batch.image it) (Batch.settings it) c = (o, c')
    /\ o <> Pending /\ it' = processedItem it o.

Lemma count_settled (q : list Batch.QueueItem) :
  Forall (fun it => Batch.status it = "completed"
                    \/ Batch.status it = "failed") q ->
  (Batch.countStatus "completed" q + Batch.countStatus "failed" q
   = List.length q)%nat /\
  Batch.countStatus "pending" q = 0%nat /\
  Batch.countStatus "processing" q = 0%nat.
Proof.
  unfold Batch.countStatus.
  induction 1 as [|it q Hit _ IH]; [repeat split|].
  destruct IH as (IH1 & IH2 & IH3).
  cbn [filter]. destruct Hit as [-> | ->]; cbn; rewrite ?IH2, ?IH3;
    repeat split; lia.
Qed.

Lemma wentThrough_status rs es (l l' : list Batch.QueueItem) :
  Forall2 (wentThrough host rs es) l l' ->
  Forall (fun it => Batch.status it = "completed"
                    \/ Batch.status it = "failed") l'.
Proof.
  induction 1 as [|it it' l l' (img & o & c & c' & _ & _ & Ho & -> & _) _ IH];
    constructor; [|exact IH].
  destruct o; [left | right | congruence]; reflexivity.
Qed.

Lemma processQueue_run (this : Batch.BatchProcessor) :
  Forall (queueable host) (Batch.processingQueue this) ->
  Batch.isProcessing this = false ->
  Batch.processingQueue this <> [] ->
  exists summary this',
    Batch.processQueue host this = (Returned summary, this') /\
    Batch.isProcessing this' = false /\
    Forall2
      (fun it it' =>
         Batch.image it' = Batch.image it /\
         Batch.settings it' = Batch.settings it /\ settled this' it' /\
         processedFrom it it')
      (Batch.processingQueue this) (Batch.processingQueue this') /\
    Batch.total summary = List.length (Batch.processingQueue this) /\
    (Batch.completed summary + Batch.failed summary
     = Batch.total summary)%nat /\
    Batch.pending summary = 0%nat /\
    Batch.sum_errors summary = Batch.errors this'.
Proof.
  intros Hd Hp Hq.
  unfold Batch.processQueue, bind at 1. cbn [Batch.get].
  rewrite Hp.
  destruct (Nat.eqb (List.length (Batch.processingQueue this)) 0) eqn:E.
  { apply Nat.eqb_eq in E. destruct (Batch.processingQueue this);
      [congruence | discriminate E]. }
  unfold Batch.try_finally, try_catch, bind, Batch.setIsProcessing,
    Batch.resetRun, modify.
  set (this0 := {| Batch.processingQueue := Batch.processingQueue this;
                   Batch.isProcessing := true;
                   Batch.results := []; Batch.errors := [];
                   Batch.shouldStop := false;
                   Batch.canvas := Batch.canvas this |}).
  destruct (processFrom_run host (Batch.processingQueue this) [] [] 0 this0 Hd)
    as (todo' & rs & es & cv & Hrun & Hall).
  { subst this0. cbn. now rewrite app_nil_r. }
  { reflexivity. }
  cbn [List.length app Batch.isProcessing Batch.results Batch.errors
       Batch.processFrom Nat.add] in Hrun.
  rewrite Nat.add_0_r, app_nil_r in Hrun.
  change (Batch.processFrom host
            (List.length (Batch.processingQueue this)) 0 this0)
    with (Batch.processFrom host
            (List.length (Batch.processingQueue this)) 0
            {| Batch.processingQueue := Batch.processingQueue this;
               Batch.isProcessing := true;
               Batch.results := []; Batch.errors := [];
               Batch.shouldStop := false;
               Batch.canvas := Batch.canvas this |}) in Hrun.
  cbn [Batch.processingQueue Batch.isProcessing Batch.results Batch.errors
       Batch.shouldStop Batch.canvas].
  rewrite Hrun.
  unfold Batch.generateProcessingSummary, bind, ret. cbn [Batch.get].
  cbn [Batch.processingQueue Batch.isProcessing Batch.results Batch.errors
       Batch.shouldStop Batch.canvas].
  eexists. eexists. split; [reflexivity|].
  cbn [Batch.processingQueue Batch.isProcessing Batch.results Batch.errors
       Batch.total Batch.completed Batch.failed Batch.pending
       Batch.sum_errors].
  pose proof (wentThrough_status _ _ _ _ Hall) as Hst.
  destruct (count_settled todo' Hst) as (C1 & C2 & _).
  pose proof (Forall2_length Hall) as Hlen.
  repeat split; trivial; try lia.
  eapply Forall2_impl; [|exact Hall].
  intros it it' (img & o & c & c' & Hi & Hrun' & Ho & -> & Hr & He).
  assert (processedFrom it (processedItem it o)) as Hfrom.
  { exists c, o, c'. rewrite Hi. repeat split; trivial. }
  destruct o as [r|e|]; [| |congruence]; cbn [processedItem];
    repeat split; trivial.
  - left. split; [reflexivity|]. exists r. split; [reflexivity|].
    apply Hr. left. reflexivity.
  - right. split; [reflexivity|]. exists img, (message e).
    cbn [Batch.image Batch.error].
    repeat split; trivial. apply He. left. reflexivity.
Qed.

(** With a queued image that is missing the run does not return: the
    round of that item throws out of the loop, after the items before it
    were processed, and [processQueue] throws with it. *)
Lemma processQueue_without_image (this : Batch.BatchProcessor)
    (done : list Batch.QueueItem) (bad : Batch.QueueItem)
    (after : list Batch.QueueItem) :
  Batch.processingQueue this = (done ++ bad :: after)%list ->
  Forall (queueable host) done ->
  Batch.image bad = None ->
  Batch.isProcessing this = false ->
  exists this' done',
    Batch.processQueue host this = (Thrown (TypeError "name"), this') /\
    Batch.isProcessing this' = false /\
    Batch.processingQueue this'
    = (done' ++ imagelessItem bad :: after)%list /\
    Forall2 processedFrom done done'.
Proof.
  intros Hq Hd Hbad Hp.
  unfold Batch.processQueue, bind at 1. cbn [Batch.get].
  rewrite Hp.
  destruct (Nat.eqb (List.length (Batch.processingQueue this)) 0) eqn:E.
  { apply Nat.eqb_eq in E. rewrite Hq, length_app in E. cbn in E. lia. }
  unfold Batch.try_finally, try_catch, bind, Batch.setIsProcessing,
    Batch.resetRun, modify.
  cbn [Batch.processingQueue Batch.isProcessing Batch.results Batch.errors
       Batch.shouldStop Batch.canvas].
  set (this0 := {| Batch.processingQueue := Batch.processingQueue this;
                   Batch.isProcessing := true;
                   Batch.results := []; Batch.errors := [];
                   Batch.shouldStop := false;
                   Batch.canvas := Batch.canvas this |}).
  destruct (processFrom_run host done [] (bad :: after)
              (S (List.length after)) this0 Hd)
    as (done' & rs & es & cv & Hrun & Hall).
  { subst this0. cbn [Batch.processingQueue app]. exact Hq. }
  { reflexivity. }
  assert (Batch.processFrom host (List.length (Batch.processingQueue this)) 0
            this0
          = Batch.processFrom host
              (List.length done + S (List.length after)) 0 this0) as ->.
  { rewrite Hq, length_app. reflexivity. }
  cbn [List.length] in Hrun. rewrite Hrun.
  cbn [Nat.add app Batch.isProcessing Batch.results Batch.errors].
  pose proof (Forall2_length Hall) as Hlen.
  cbn [Batch.processFrom]. unfold bind at 1. cbn [Batch.get].
  cbn [Batch.shouldStop Batch.processingQueue].
  rewrite Hlen, nth_error_middle.
  unfold bind at 1.
  erewrite (processItem_without_image host done' bad after);
    [|reflexivity|exact Hbad].
  cbn [Batch.processingQueue Batch.isProcessing Batch.results Batch.errors
       Batch.shouldStop Batch.canvas throw].
  eexists. exists done'. split; [reflexivity|].
  cbn [Batch.isProcessing Batch.processingQueue].
  split; [reflexivity|]. split; [reflexivity|].
  eapply Forall2_impl; [|exact Hall].
  intros it it' (img & o & c & c' & Hi & Hrun' & Ho & -> & _).
  exists c, o, c'. rewrite Hi. repeat split; trivial.
Qed.
End BatchIsolation.

(** ** Failure of one watermark, failure of one image *)

Lemma for_of_aborts {S A} (body : A -> Js S unit) (before : list A)
    (bad : A) (after : list A) (s s1 s2 : S) (e : JsError) :
  for_of before body s = (Returned tt, s1) ->
  body bad s1 = (Thrown e, s2) ->
  for_of (before ++ bad :: after) body s = (Thrown e, s2).
Proof.
  revert s. induction before as [|x before IH]; intros s Hb Hbad.
  - cbn in Hb. inversion Hb; subst. cbn. unfold bind. now rewrite Hbad.
  - cbn [for_of app] in *. unfold bind in *.
    destruct (body x s) as [[[]| |] s'] eqn:E; try discriminate Hb.
    now apply IH.
Qed.

Section FailureExamples.
Local Open Scope string_scope.

Definition plainText : Settings.t :=
  {| Settings.type := "text";
     Settings.text := Some (Text.mk "hi" "Arial" 48 "#808080" 80 0);
     Settings.image := None;
     Settings.position := Some (Position.mk "center" (JNum 0) (JNum 0));
     Settings.transform :=
       Some (Transform.mk 40 40 80 40 0 (Some 400) (Some 300));
     Settings.output := Some (Output.mk "png" 95) |}.

End FailureExamples.


Section BatchExample.
Local Open Scope string_scope.

Definition photo (n : string) : Batch.SourceImage :=
  {| Batch.name := n;
     Batch.imageData := Some (mkSource (Some (mkRaster 400 300 n))) |}.

Definition queued (img : Batch.SourceImage) (s : Settings.t)
  : Batch.QueueItem :=
  {| Batch.image := Some img; Batch.settings := Batch.One s;
     Batch.status := "pending"; Batch.result := None;
     Batch.error := None |}.

(** A logo as an image watermark, by its data URL. *)
Definition logo : Settings.t :=
  {| Settings.type := "image";
     Settings.text := None;
     Settings.image :=
       Some (Image.mk (Some (DataUrl "data:image/png;base64,AAAA")) 100 80 0);
     Settings.position := Some (Position.mk "center" (JNum 0) (JNum 0));
     Settings.transform :=
       Some (Transform.mk 40 40 80 40 0 (Some 400) (Some 300));
     Settings.output := Some (Output.mk "png" 95) |}.

(** A host that decodes the data URL of the logo and no other source. *)
Definition logoHost : Host :=
  {| measureText := measureText exampleHost;
     decode := fun src =>
       if String.eqb src "data:image/png;base64,AAAA"
       then Some (mkRaster 64 32 src) else None |}.

(** A queue of three images: the settings of the first are refused,
    those of the other two are fine. *)
Definition threeImages : Batch.BatchProcessor :=
  {| Batch.processingQueue :=
       [queued (photo "a.png") unknownType; queued (photo "b.png") plainText;
        queued (photo "c.png") logo];
     Batch.isProcessing := false;
     Batch.results := [];
     Batch.errors := [];
     Batch.shouldStop := false;
     Batch.canvas := freshCanvas |}.

Lemma threeImages_queueable :
  Forall (queueable logoHost) (Batch.processingQueue threeImages).
Proof.
  repeat constructor; try discriminate.
  intros src H. vm_compute in H. inversion H; subst. discriminate.
Qed.

(** The same queue with a missing image in the second place. *)
Definition holedQueue : Batch.BatchProcessor :=
  {| Batch.processingQueue :=
       [queued (photo "a.png") unknownType;
        {| Batch.image := None; Batch.settings := Batch.One plainText;
           Batch.status := "pending"; Batch.result := None;
           Batch.error := None |};
        queued (photo "c.png") logo];
     Batch.isProcessing := false;
     Batch.results := [];
     Batch.errors := [];
     Batch.shouldStop := false;
     Batch.canvas := freshCanvas |}.

End BatchExample.

(** ** Stacking order *)

Section SortByKey.
Context {A : Type} (key : A -> Z).

Definition byKey (a b : A) : Z := (key a - key b)%Z.
Definition keyLe (a b : A) : Prop := (key a <= key b)%Z.
Definition hasKey (z : Z) (a : A) : bool := (key a =? z)%Z.

Lemma insertSorted_perm (a : A) (l : list A) :
  Permutation (a :: l) (insertSorted byKey a l).
Proof.
  induction l as [|b l IH]; cbn; [reflexivity|].
  destruct (byKey a b <=? 0)%Z; [reflexivity|].
  rewrite perm_swap. now apply perm_skip.
Qed.

Lemma array_sort_perm (l : list A) : Permutation l (array_sort byKey l).
Proof.
  induction l as [|a l IH]; cbn; [reflexivity|].
  rewrite <- insertSorted_perm. now apply perm_skip.
Qed.

Lemma insertSorted_Forall (P : A -> Prop) (a : A) (l : list A) :
  P a -> Forall P l -> Forall P (insertSorted byKey a l).
Proof.
  intros Ha Hl. eapply Permutation_Forall; [apply insertSorted_perm|].
  now constructor.
Qed.

Lemma insertSorted_sorted (a : A) (l : list A) :
  StronglySorted keyLe l -> StronglySorted keyLe (insertSorted byKey a l).
Proof.
  induction 1 as [|b l Hl IH Hb]; cbn.
  - repeat constructor.
  - destruct (byKey a b <=? 0)%Z eqn:E.
    + apply Z.leb_le in E. unfold byKey in E.
      constructor; [now constructor|].
      constructor; [unfold keyLe; lia|].
      eapply Forall_impl; [|exact Hb]. unfold keyLe. intros; lia.
    + apply Z.leb_gt in E. unfold byKey in E.
      constructor; [exact IH|].
      apply insertSorted_Forall; [unfold keyLe; lia | exact Hb].
Qed.

Lemma array_sort_sorted (l : list A) :
  StronglySorted keyLe (array_sort byKey l).
Proof.
  induction l as [|a l IH]; cbn; [constructor|].
  now apply insertSorted_sorted.
Qed.

(** Insertion passes over smaller keys only: among equal keys the new
    element comes first, as it did in the array. *)
Lemma insertSorted_filter (z : Z) (a : A) (l : list A) :
  filter (hasKey z) (insertSorted byKey a l) = filter (hasKey z) (a :: l).
Proof.
  induction l as [|b l IH]; [reflexivity|].
  cbn [insertSorted]. destruct (byKey a b <=? 0)%Z eqn:E; [reflexivity|].
  apply Z.leb_gt in E. unfold byKey in E.
  cbn [filter] in *. rewrite IH. unfold hasKey.
  destruct (key a =? z)%Z eqn:Ea; destruct (key b =? z)%Z eqn:Eb;
    try reflexivity.
  apply Z.eqb_eq in Ea, Eb. lia.
Qed.

Lemma array_sort_stable (z : Z) (l : list A) :
  filter (hasKey z) (array_sort byKey l) = filter (hasKey z) l.
Proof.
  induction l as [|a l IH]; [reflexivity|].
  cbn [array_sort fold_right]. rewrite insertSorted_filter.
  cbn [filter]. fold (array_sort byKey l). now rewrite IH.
Qed.
End SortByKey.

Lemma for_of_recordCall (l calls : list App.Watermark) :
  for_of l App.recordCall calls = (Returned tt, (calls ++ l)%list).
Proof.
  revert calls. induction l as [|w l IH]; intros calls; cbn [for_of].
  - unfold ret. now rewrite app_nil_r.
  - unfold bind, App.recordCall, modify. rewrite IH.
    now rewrite <- app_assoc.
Qed.

Section StackingExample.
Local Open Scope string_scope.

Definition watermarkAt (id zIndex : Z) : App.Watermark :=
  {| App.id := id;
     App.settings :=
       Settings.mk "text" (Some (Text.mk "hi" "Arial" 48 "#ffffff" 80 0))
         None None None None;
     App.transform := Transform.mk 50 50 200 60 0 None None;
     App.zIndex := zIndex;
     App.scaling := App.mkScaling (Some 48) 200 60 None 8 200 1 false |}.

Definition sessionOf (ws : list App.Watermark) : App.Session :=
  {| App.watermarks := ws;
     App.watermarkIdCounter := 0;
     App.canvasBounds := Bounds.mk 0 0 800 600;
     App.watermarkSettings :=
       Settings.mk "text" None None None None None |}.
End StackingExample.


(** ** Dynamic font scaling *)

Section FontScaling.
Local Open Scope string_scope.

(** The rule of the specification: [clamp(x, lo, hi)]. *)
Definition clamp (x lo hi : Q) : Q :=
  if Qltb x lo then lo else if Qltb hi x then hi else x.

(** The font size of the specification for a container of
    [newWidth] x [newHeight]; a [null] base size counts as 0. *)
Definition rescaleFont_spec (s : App.Scaling) (newWidth newHeight : Q) : Q :=
  let base := match App.baseFontSize s with Some b => b | None => 0 end in
  let widthScale := newWidth / App.baseWidth s in
  let heightScale := newHeight / App.baseHeight s in
  let factor := Math_min widthScale heightScale in
  clamp (base * factor) (App.minFontSize s) (App.maxFontSize s).

Lemma Math_max_min_is_clamp (x lo hi : Q) :
  lo <= hi -> Math_max lo (Math_min hi x) == clamp x lo hi.
Proof.
  intros H. unfold clamp.
  destruct (Math_min_spec hi x) as [[H1 ->]|[H1 ->]];
    destruct (Math_max_spec lo hi) as [[H2 E2]|[H2 E2]];
    destruct (Math_max_spec lo x) as [[H3 E3]|[H3 E3]];
    rewrite ?E2, ?E3;
    destruct (Qltb x lo) eqn:A; destruct (Qltb hi x) eqn:B;
    try apply Qltb_lt in A; try apply Qltb_ge in A;
    try apply Qltb_lt in B; try apply Qltb_ge in B; lra.
Qed.

Lemma Math_min_mono (a a' b b' : Q) :
  a <= a' -> b <= b' -> Math_min a b <= Math_min a' b'.
Proof.
  intros Ha Hb.
  destruct (Math_min_spec a b) as [[H ->]|[H ->]];
    destruct (Math_min_spec a' b') as [[H' ->]|[H' ->]]; lra.
Qed.

Lemma Math_max_mono (a a' b b' : Q) :
  a <= a' -> b <= b' -> Math_max a b <= Math_max a' b'.
Proof.
  intros Ha Hb.
  destruct (Math_max_spec a b) as [[H ->]|[H ->]];
    destruct (Math_max_spec a' b') as [[H' ->]|[H' ->]]; lra.
Qed.

Lemma div_mono (x y d : Q) : 0 < d -> x <= y -> x / d <= y / d.
Proof.
  intros Hd Hxy. unfold Qdiv.
  apply Qmult_le_compat_r; [assumption|].
  apply Qlt_le_weak. now apply Qinv_lt_0_compat.
Qed.

(** The size that the scaler gives the watermark in a container of
    [w] x [h]. *)
Definition sizeIn (wm : App.Watermark) (w h : Q) : Outcome Q :=
  App.calculateDynamicFontSize (App.setSize wm w h).

Lemma sizeIn_text (wm : App.Watermark) (b w h : Q) :
  Settings.type (App.settings wm) = "text" ->
  App.baseFontSize (App.scaling wm) = Some b -> ~ b == 0 ->
  sizeIn wm w h
  = Returned
      (Math_max (App.minFontSize (App.scaling wm))
         (Math_min (App.maxFontSize (App.scaling wm))
            (b * Math_min (w / App.baseWidth (App.scaling wm))
                   (h / App.baseHeight (App.scaling wm))))).
Proof.
  intros Ht Hb Hnz. unfold sizeIn, App.calculateDynamicFontSize.
  cbn [App.setSize App.settings App.scaling App.transform
       Transform.width Transform.height].
  rewrite Ht, Hb. cbn [App.truthyOQ String.eqb Ascii.eqb Bool.eqb negb orb].
  apply truthyQ_true in Hnz. rewrite Hnz. reflexivity.
Qed.

Lemma updateWatermarkScaling_idempotent (wm wm1 : App.Watermark)
    (w h : Q) (o : Outcome Size) :
  App.updateWatermarkScaling w h wm = (o, wm1) ->
  App.updateWatermarkScaling w h wm1 = (o, wm1).
Proof.
  unfold App.updateWatermarkScaling, bind, modify, App.get, App.lift, prop,
    ret, throw.
  cbn [App.setSize App.setFontScaleFactor App.settings App.scaling
       App.transform].
  destruct (String.eqb (Settings.type (App.settings wm)) "text") eqn:Et.
  - unfold App.calculateDynamicFontSize.
    cbn [App.setSize App.setFontScaleFactor App.settings App.scaling
         App.transform App.baseFontSize App.baseWidth App.baseHeight
         App.minFontSize App.maxFontSize Transform.width Transform.height].
    rewrite Et. cbn [negb orb].
    destruct (negb (App.truthyOQ (App.baseFontSize (App.scaling wm)))) eqn:Eb;
      destruct (Settings.text (App.settings wm)) as [t|] eqn:Es;
      intros H; inversion H; subst; clear H;
      unfold App.setTextSize, App.setFontScaleFactor, App.setSize;
      cbn -[Math_min Math_max Qdiv Qmult];
      rewrite ?Et, ?Eb, ?Es; cbn -[Math_min Math_max Qdiv Qmult];
      rewrite ?Et, ?Eb, ?Es; reflexivity.
  - intros H; inversion H; subst; clear H.
    cbn [App.setSize App.settings App.transform Transform.width
         Transform.height].
    rewrite Et. reflexivity.
Qed.
End FontScaling.

Section FontScalingClaims.
Local Open Scope string_scope.

Definition captionSettings : Settings.t :=
  {| Settings.type := "text";
     Settings.text := Some (Text.mk "hi" "Arial" 48 "#ffffff" 80 0);
     Settings.image := Some (Image.mk None 100 80 0);
     Settings.position := Some (Position.mk "center" (JNum 0) (JNum 0));
     Settings.transform := None;
     Settings.output := Some (Output.mk "png" 95) |}.

Definition logoSettings : Settings.t := asType "image" captionSettings.

Definition emptySession : App.Session :=
  {| App.watermarks := [];
     App.watermarkIdCounter := 0;
     App.canvasBounds := Bounds.mk 0 0 800 600;
     App.watermarkSettings := captionSettings |}.

(** [watermark.settings = { ...this.watermarkSettings }], the assignment
    of [updateSelectedWatermarkSettings]. *)
Definition withSettings (w : App.Watermark) (s : Settings.t) : App.Watermark :=
  {| App.id := App.id w; App.settings := s; App.transform := App.transform w;
     App.zIndex := App.zIndex w; App.scaling := App.scaling w |}.

(** Text settings whose size is 0. *)
Definition sizelessSettings : Settings.t :=
  {| Settings.type := "text";
     Settings.text := Some (Text.mk "hi" "Arial" 0 "#ffffff" 80 0);
     Settings.image := None;
     Settings.position := Some (Position.mk "center" (JNum 0) (JNum 0));
     Settings.transform := None;
     Settings.output := Some (Output.mk "png" 95) |}.

(** C8, the counterexample: a watermark created as an image has no base
    font size; once its settings are switched to text and its box is
    resized to 400x120, the scaler answers the current [text.size], 48,
    where the formula of the claim gives [clamp(0, 8, 200) = 8]; and a
    text watermark created with the size 0 has the base font size 0, for
    which the scaler answers 0, below the minimum 8 of the formula. *)
Lemma C8_no_base_font_size_means_no_rescaling :
  (exists w0 session,
      App.createWatermark (Some logoSettings) emptySession
      = (Returned w0, session) /\
      App.baseFontSize (App.scaling w0) = None /\
      let wm := App.setSize (withSettings w0 captionSettings) 400 120 in
      Settings.type (App.settings wm) = "text" /\
      App.calculateDynamicFontSize wm = Returned 48 /\
      rescaleFont_spec (App.scaling wm) 400 120 == 8 /\
      ~ 48 == 8) /\
  (exists w0 session,
      App.createWatermark (Some sizelessSettings) emptySession
      = (Returned w0, session) /\
      App.baseFontSize (App.scaling w0) = Some 0 /\
      sizeIn w0 400 120 = Returned 0 /\
      rescaleFont_spec (App.scaling w0) 400 120 == 8 /\
      ~ 0 == 8).
Proof.
  split.
  - eexists. eexists. split; [reflexivity|].
    split; [reflexivity|].
    cbv zeta. split; [reflexivity|]. split; [reflexivity|].
    split; [vm_compute; reflexivity|].
    intro H. vm_compute in H. discriminate H.
  - eexists. eexists. split; [reflexivity|].
    split; [reflexivity|]. split; [reflexivity|].
    split; [vm_compute; reflexivity|].
    intro H. vm_compute in H. discriminate H.
Qed.

(** C8, as amended: for a text watermark whose base font size is set and
    not zero, the scaler gives
    [clamp(baseFontSize * min(width/baseWidth, height/baseHeight),
    minFontSize, maxFontSize)], and a text watermark made by
    [createWatermark] has the bounds 8 and 200; this size does not decrease
    when the container grows (for a positive base size); running
    [updateWatermarkScaling] a second time with the same width and height
    changes nothing and answers the same.  When the base font size is
    unset or zero the scaler answers the current [text.size] unchanged. *)
Theorem C8_font_size_is_the_clamped_uniform_scale :
  forall (wm : App.Watermark) (b : Q),
    Settings.type (App.settings wm) = "text" ->
    App.baseFontSize (App.scaling wm) = Some b -> ~ b == 0 ->
    0 < App.baseWidth (App.scaling wm) ->
    0 < App.baseHeight (App.scaling wm) ->
    App.minFontSize (App.scaling wm) <= App.maxFontSize (App.scaling wm) ->
    (forall w h : Q,
        exists v, sizeIn wm w h = Returned v /\
                  v == rescaleFont_spec (App.scaling wm) w h) /\
    (forall w h w' h' v v' : Q,
        0 < b -> w <= w' -> h <= h' ->
        sizeIn wm w h = Returned v -> sizeIn wm w' h' = Returned v' ->
        v <= v') /\
    (forall (w h : Q) o wm1,
        App.updateWatermarkScaling w h wm = (o, wm1) ->
        App.updateWatermarkScaling w h wm1 = (o, wm1)) /\
    (forall (s : Settings.t) (this : App.Session) w0 this',
        Settings.type s = "text" ->
        App.createWatermark (Some s) this = (Returned w0, this') ->
        App.minFontSize (App.scaling w0) = 8 /\
        App.maxFontSize (App.scaling w0) = 200 /\
        App.baseWidth (App.scaling w0) = 200 /\
        App.baseHeight (App.scaling w0) = 60 /\
        exists t, Settings.text s = Some t /\
                  App.baseFontSize (App.scaling w0) = Some (Text.size t)) /\
    (forall (other : App.Watermark) (t : Text.t),
        Settings.text (App.settings other) = Some t ->
        App.truthyOQ (App.baseFontSize (App.scaling other)) = false ->
        App.calculateDynamicFontSize other = Returned (Text.size t)).
Proof.
  intros wm b Ht Hb Hnz Hw Hh Hlo.
  split; [|split; [|split; [|split]]].
  - intros w h. rewrite (sizeIn_text wm b w h Ht Hb Hnz).
    eexists. split; [reflexivity|].
    unfold rescaleFont_spec. rewrite Hb.
    now apply Math_max_min_is_clamp.
  - intros w h w' h' v v' Hpos Hww Hhh.
    rewrite !(sizeIn_text wm b _ _ Ht Hb Hnz).
    intros E E'. inversion E; inversion E'; subst.
    apply Math_max_mono; [lra|].
    apply Math_min_mono; [lra|].
    apply Qmult_le_l; [assumption|].
    apply Math_min_mono; now apply div_mono.
  - intros w h o wm1. apply updateWatermarkScaling_idempotent.
  - intros s this w0 this' Hs.
    unfold App.createWatermark. rewrite Hs.
    cbn [String.eqb Ascii.eqb Bool.eqb].
    destruct (Settings.text s) as [t|]; [|discriminate].
    intros E. inversion E; subst. cbn. repeat split.
    exists t. split; reflexivity.
  - intros other t Hs Hf. unfold App.calculateDynamicFontSize.
    rewrite Hf, Hs. cbn [negb]. now rewrite orb_true_r.
Qed.

(** The first watermark of a session, made from the default text
    settings. *)
Definition firstWatermark : App.Watermark :=
  match App.createWatermark None emptySession with
  | (Returned w, _) => w
  | _ => watermarkAt 0 0
  end.

(** A witness of C8: the default text watermark, created in an empty
    session and resized to 400x120 (twice its base box), gets the font
    size 96. *)
Lemma C8_witness :
  fst (App.createWatermark None emptySession) = Returned firstWatermark /\
  exists v, sizeIn firstWatermark 400 120 = Returned v /\ v == 96.
Proof.
  split; [reflexivity|].
  assert (H : forall w h : Q,
             exists v, sizeIn firstWatermark w h = Returned v /\
                       v == rescaleFont_spec (App.scaling firstWatermark) w h).
  { refine (proj1 (C8_font_size_is_the_clamped_uniform_scale
                     firstWatermark 48 eq_refl eq_refl _ _ _ _));
      vm_compute;
      first [ reflexivity | discriminate | intros H0; discriminate H0 ]. }
  destruct (H 400 120) as (v & Hv & Hs).
  exists v. split; [exact Hv|].
  rewrite Hs. vm_compute. reflexivity.
Defined.
End FontScalingClaims.

(** ** Output encoding *)

Section Encoding.
Local Open Scope string_scope.
Context (host : Host).

(** The canvas of the engine once the source image is drawn on it. *)
Definition sourceDrawn (img : Raster) : Canvas :=
  snd (bind (clearRect 0 0 (naturalWidth img) (naturalHeight img))
         (fun _ => drawImage img 0 0 (naturalWidth img) (naturalHeight img))
         freshCanvas).

Definition fullBounds (img : Raster) : Bounds.t :=
  Bounds.mk 0 0 (naturalWidth img) (naturalHeight img).

(** The MIME type that the single-settings export derives from a format. *)
Definition singleMime (fmt : string) : string :=
  if String.eqb fmt "jpeg" then "image/jpeg" else "image/png".

Lemma generateWatermarkedImageWith_format
    (applyWatermark : Settings.t -> Bounds.t -> Q -> Js Canvas unit)
    (source : SourceImageData) (s : Settings.t) (o : Output.t)
    (c c' : Canvas) (g : Generated) :
  Settings.output s = Some o ->
  generateWatermarkedImageWith applyWatermark source s c = (Returned g, c') ->
  format g = singleMime (Output.format o) /\
  enc_type (dataUrl g) = singleMime (Output.format o).
Proof.
  intros Ho. unfold generateWatermarkedImageWith, try_catch, bind, prop.
  destruct (element source) as [img|]; [|discriminate].
  cbn [ret modify clearRect drawImage paint].
  destruct (applyWatermark s _ 1 _) as [[[]| |] c1]; try discriminate.
  rewrite Ho. cbn [toDataURL]. intros E. inversion E; subst.
  split; reflexivity.
Qed.

Lemma generateWatermarkedImageWith_returns
    (applyWatermark : Settings.t -> Bounds.t -> Q -> Js Canvas unit)
    (source : SourceImageData) (img : Raster) (s : Settings.t) (o : Output.t)
    (c c1 : Canvas) :
  element source = Some img -> Settings.output s = Some o ->
  applyWatermark s (fullBounds img) 1 (sourceDrawn img) = (Returned tt, c1) ->
  exists g,
    generateWatermarkedImageWith applyWatermark source s c = (Returned g, c1).
Proof.
  intros Hs Ho Ha.
  unfold generateWatermarkedImageWith, try_catch, bind, prop.
  rewrite Hs. cbn [ret modify clearRect drawImage paint].
  unfold fullBounds, sourceDrawn, bind, clearRect, drawImage, paint, modify
    in Ha.
  cbn [snd] in Ha. rewrite Ha, Ho. cbn [toDataURL].
  eexists. reflexivity.
Qed.

(** The result of the single-settings export, once the watermark is
    applied. *)
Lemma generateWatermarkedImageWith_result
    (applyWatermark : Settings.t -> Bounds.t -> Q -> Js Canvas unit)
    (source : SourceImageData) (img : Raster) (s : Settings.t) (o : Output.t)
    (c c1 : Canvas) :
  element source = Some img -> Settings.output s = Some o ->
  applyWatermark s (fullBounds img) 1 (sourceDrawn img) = (Returned tt, c1) ->
  generateWatermarkedImageWith applyWatermark source s c
  = (Returned
       {| dataUrl := {| enc_type := singleMime (Output.format o);
                        enc_quality := Output.quality o / 100;
                        enc_pixels := painted c1 |};
          width := naturalWidth img; height := naturalHeight img;
          format := singleMime (Output.format o) |}, c1).
Proof.
  intros Hs Ho Ha.
  unfold generateWatermarkedImageWith, try_catch, bind, prop.
  rewrite Hs. cbn [ret modify clearRect drawImage paint].
  unfold fullBounds, sourceDrawn, bind, clearRect, drawImage, paint, modify
    in Ha.
  cbn [snd] in Ha. rewrite Ha, Ho. cbn [toDataURL].
  reflexivity.
Qed.

(** The MIME type that the multi-watermark export derives from a
    format. *)
Definition multiMime (fmt : string) : string :=
  if String.eqb fmt "jpeg" then "image/jpeg"
  else if String.eqb fmt "webp" then "image/webp" else "image/png".

Lemma generateWatermarkedImageMultiple_mime
    (source : SourceImageData) (s : Settings.t) (rest : list Settings.t)
    (o : Output.t) (c c' : Canvas) (g : Generated) :
  Settings.output s = Some o ->
  Engine.generateWatermarkedImageMultiple host source (s :: rest) c
  = (Returned g, c') ->
  format g = multiMime (Output.format o) /\
  enc_type (dataUrl g) = multiMime (Output.format o).
Proof.
  intros Ho.
  unfold Engine.generateWatermarkedImageMultiple, try_catch.
  unfold bind at 1. unfold prop.
  destruct (element source) as [img|]; [|discriminate].
  cbn [ret]. unfold bind at 1. cbn [modify].
  unfold bind at 1. cbn [clearRect paint modify].
  unfold bind at 1. cbn [drawImage paint modify].
  unfold bind at 1.
  destruct (for_of (s :: rest) _ _) as [[[]| |] c1]; try discriminate.
  cbn [hd_error]. rewrite Ho.
  unfold bind, toDataURL, ret. intros E. inversion E; subst.
  cbn [format dataUrl enc_type]. unfold multiMime.
  destruct (Output.format o) as [|a f]; cbn [truthyS]; split; reflexivity.
Qed.

Lemma generateWatermarkedImageMultiple_format
    (source : SourceImageData) (s : Settings.t) (rest : list Settings.t)
    (o : Output.t) (c c' : Canvas) (g : Generated) :
  Settings.output s = Some o -> Output.format o = "webp" ->
  Engine.generateWatermarkedImageMultiple host source (s :: rest) c
  = (Returned g, c') ->
  format g = "image/webp" /\ enc_type (dataUrl g) = "image/webp".
Proof.
  intros Ho Hf E.
  destruct (generateWatermarkedImageMultiple_mime _ _ _ _ _ _ _ Ho E)
    as [H1 H2].
  rewrite H1, H2, Hf. split; reflexivity.
Qed.

(** A text watermark has its text, which the log line of each round
    reads. *)
Definition logged (wm : Settings.t) : Prop :=
  Settings.type wm = "text" -> Settings.text wm <> None.

Lemma logged_round (wm : Settings.t) (b : Bounds.t) (c : Canvas) :
  logged wm ->
  bind (when (String.eqb (Settings.type wm) "text")
          (bind (prop "content" (Settings.text wm)) (fun _ => ret tt)))
    (fun _ => Engine.applyWatermark host wm b 1) c
  = Engine.applyWatermark host wm b 1 c.
Proof.
  intros Hw. unfold bind at 1.
  replace (when _ _ c) with (@Returned unit tt, c); [reflexivity|].
  unfold when. destruct (String.eqb (Settings.type wm) "text") eqn:Et;
    [|reflexivity].
  apply String.eqb_eq in Et. specialize (Hw Et).
  destruct (Settings.text wm); [reflexivity|congruence].
Qed.

Lemma for_of_ext {S A} (P : A -> Prop) (f g : A -> Js S unit)
    (xs : list A) :
  (forall x st, P x -> f x st = g x st) -> Forall P xs ->
  forall st, for_of xs f st = for_of xs g st.
Proof.
  intros Hfg H. induction H as [|x xs Hx _ IH]; intros st; [reflexivity|].
  cbn [for_of]. unfold bind. rewrite (Hfg x st Hx).
  destruct (g x st) as [[[]| |] st']; [apply IH|reflexivity..].
Qed.

Lemma logged_rounds (ws : list Settings.t) (b : Bounds.t) (c : Canvas) :
  Forall logged ws ->
  for_of ws
    (fun wm =>
       bind (when (String.eqb (Settings.type wm) "text")
               (bind (prop "content" (Settings.text wm)) (fun _ => ret tt)))
         (fun _ => Engine.applyWatermark host wm b 1)) c
  = Engine.applyWatermarks host ws b 1 c.
Proof.
  intros H. unfold Engine.applyWatermarks, applyWatermarksWith.
  apply (for_of_ext logged); [|exact H].
  intros wm st Hw. now apply logged_round.
Qed.

(** The result of the multi-watermark export, once the watermarks are
    applied. *)
Lemma generateWatermarkedImageMultiple_result
    (source : SourceImageData) (img : Raster) (s : Settings.t)
    (rest : list Settings.t) (o : Output.t) (c c1 : Canvas) :
  element source = Some img -> Settings.output s = Some o ->
  Forall logged (s :: rest) ->
  Engine.applyWatermarks host (s :: rest) (fullBounds img) 1 (sourceDrawn img)
  = (Returned tt, c1) ->
  exists g,
    Engine.generateWatermarkedImageMultiple host source (s :: rest) c
    = (Returned g, c1) /\
    format g = multiMime (Output.format o) /\
    enc_type (dataUrl g) = multiMime (Output.format o) /\
    enc_pixels (dataUrl g) = painted c1.
Proof.
  intros Hs Ho Hl Ha.
  unfold Engine.generateWatermarkedImageMultiple, try_catch.
  unfold bind at 1. unfold prop. rewrite Hs.
  cbn [ret]. unfold bind at 1. cbn [modify].
  unfold bind at 1. cbn [clearRect paint modify].
  unfold bind at 1. cbn [drawImage paint modify].
  unfold bind at 1.
  unfold fullBounds, sourceDrawn, bind at 1, clearRect, drawImage, paint,
    modify in Ha.
  cbn [snd] in Ha.
  rewrite (logged_rounds (s :: rest) _ _ Hl), Ha.
  cbn [hd_error]. rewrite Ho.
  unfold bind, toDataURL, ret. eexists. split; [reflexivity|].
  cbn [format dataUrl enc_type enc_pixels]. unfold multiMime.
  destruct (Output.format o) as [|a f]; cbn [truthyS];
    repeat split; reflexivity.
Qed.
End Encoding.

(** C10: for settings whose [output.format] is "webp", the
    single-settings export [generateWatermarkedImage] of either variant
    types and encodes its result as "image/png" whenever it returns, and
    it does return, with the painted surface as its pixels, when the
    watermark is applied without error; in both variants only "jpeg"
    gives "image/jpeg" and every other format gives "image/png".  The
    multi-watermark export of a list that starts with the same settings
    types and encodes its result as "image/webp" whenever it returns,
    and it does return, with the painted surface as its pixels, when
    the watermarks are applied without error; it maps "jpeg" to
    "image/jpeg", "webp" to "image/webp" and every other format to
    "image/png", so the two exports differ for "webp" only. *)
Theorem C10_webp_is_png_in_the_single_export_only :
  forall (host : Host) (source : SourceImageData) (s : Settings.t)
         (rest : list Settings.t) (o : Output.t) (c : Canvas),
    Settings.output s = Some o -> Output.format o = "webp"%string ->
    (forall g c',
        Engine.generateWatermarkedImage host source s c = (Returned g, c') ->
        format g = "image/png"%string /\
        enc_type (dataUrl g) = "image/png"%string) /\
    (forall g c',
        Legacy.generateWatermarkedImage host source s c = (Returned g, c') ->
        format g = "image/png"%string /\
        enc_type (dataUrl g) = "image/png"%string) /\
    (forall img c1,
        element source = Some img ->
        Engine.applyWatermark host s (fullBounds img) 1 (sourceDrawn img)
        = (Returned tt, c1) ->
        exists g,
          Engine.generateWatermarkedImage host source s c = (Returned g, c1) /\
          format g = "image/png"%string /\
          enc_type (dataUrl g) = "image/png"%string /\
          enc_pixels (dataUrl g) = painted c1) /\
    (forall img c1,
        element source = Some img ->
        Legacy.applyWatermark host s (fullBounds img) 1 (sourceDrawn img)
        = (Returned tt, c1) ->
        exists g,
          Legacy.generateWatermarkedImage host source s c = (Returned g, c1) /\
          format g = "image/png"%string /\
          enc_type (dataUrl g) = "image/png"%string /\
          enc_pixels (dataUrl g) = painted c1) /\
    (forall g c',
        Engine.generateWatermarkedImageMultiple host source (s :: rest) c
        = (Returned g, c') ->
        format g = "image/webp"%string /\
        enc_type (dataUrl g) = "image/webp"%string) /\
    (forall img c1,
        element source = Some img ->
        Forall (fun wm => Settings.type wm = "text"%string ->
                          Settings.text wm <> None) (s :: rest) ->
        Engine.applyWatermarks host (s :: rest) (fullBounds img) 1
          (sourceDrawn img) = (Returned tt, c1) ->
        exists g,
          Engine.generateWatermarkedImageMultiple host source (s :: rest) c
          = (Returned g, c1) /\
          format g = "image/webp"%string /\
          enc_type (dataUrl g) = "image/webp"%string /\
          enc_pixels (dataUrl g) = painted c1) /\
    (forall s' o' g c',
        Settings.output s' = Some o' ->
        Engine.generateWatermarkedImage host source s' c = (Returned g, c') \/
        Legacy.generateWatermarkedImage host source s' c = (Returned g, c') ->
        format g = (if String.eqb (Output.format o') "jpeg"
                    then "image/jpeg"%string else "image/png"%string) /\
        enc_type (dataUrl g) = format g) /\
    (forall s' rest' o' g c',
        Settings.output s' = Some o' ->
        Engine.generateWatermarkedImageMultiple host source (s' :: rest') c
        = (Returned g, c') ->
        format g = (if String.eqb (Output.format o') "jpeg"
                    then "image/jpeg"%string
                    else if String.eqb (Output.format o') "webp"
                         then "image/webp"%string else "image/png"%string) /\
        enc_type (dataUrl g) = format g).
Proof.
  intros host source s rest o c Ho Hf.
  assert (Hpng : singleMime (Output.format o) = "image/png"%string)
    by (now rewrite Hf).
  assert (Hwebp : multiMime (Output.format o) = "image/webp"%string)
    by (now rewrite Hf).
  split; [|split; [|split; [|split; [|split; [|split; [|split]]]]]].
  - intros g c' E. rewrite <- Hpng.
    exact (generateWatermarkedImageWith_format _ _ _ _ _ _ _ Ho E).
  - intros g c' E. rewrite <- Hpng.
    exact (generateWatermarkedImageWith_format _ _ _ _ _ _ _ Ho E).
  - intros img c1 Hs Ha. eexists. split.
    + exact (generateWatermarkedImageWith_result
               (Engine.applyWatermark host) source img s o c c1 Hs Ho Ha).
    + cbn [format dataUrl enc_type enc_pixels]. rewrite Hpng.
      repeat split; reflexivity.
  - intros img c1 Hs Ha. eexists. split.
    + exact (generateWatermarkedImageWith_result
               (Legacy.applyWatermark host) source img s o c c1 Hs Ho Ha).
    + cbn [format dataUrl enc_type enc_pixels]. rewrite Hpng.
      repeat split; reflexivity.
  - intros g c' E.
    exact (generateWatermarkedImageMultiple_format host _ _ _ _ _ _ _ Ho Hf E).
  - intros img c1 Hs Hl Ha.
    destruct (generateWatermarkedImageMultiple_result host source img s rest
                o c c1 Hs Ho Hl Ha) as (g & E & H1 & H2 & H3).
    exists g. rewrite <- Hwebp. repeat split; assumption.
  - intros s' o' g c' Ho' [E|E];
      destruct (generateWatermarkedImageWith_format _ _ _ _ _ _ _ Ho' E)
        as [H1 H2]; rewrite H2, H1; split; reflexivity.
  - intros s' rest' o' g c' Ho' E.
    destruct (generateWatermarkedImageMultiple_mime host _ _ _ _ _ _ _ Ho' E)
      as [H1 H2]. rewrite H2, H1. split; reflexivity.
Qed.

Section EncodingExample.
Local Open Scope string_scope.

Definition webpText : Settings.t :=
  {| Settings.type := "text";
     Settings.text := Some (Text.mk "hi" "Arial" 48 "#808080" 80 0);
     Settings.image := None;
     Settings.position := Some (Position.mk "center" (JNum 0) (JNum 0));
     Settings.transform :=
       Some (Transform.mk 40 40 80 40 0 (Some 400) (Some 300));
     Settings.output := Some (Output.mk "webp" 80) |}.

Definition sourcePhoto : SourceImageData :=
  mkSource (Some (mkRaster 800 600 "photo")).

(** A witness of C10: the same settings exported by the three
    functions. *)
Lemma C10_witness :
  (exists g c1,
      Engine.generateWatermarkedImage exampleHost sourcePhoto webpText
        freshCanvas = (Returned g, c1) /\
      format g = "image/png" /\ enc_type (dataUrl g) = "image/png" /\
      enc_pixels (dataUrl g) = painted c1) /\
  (exists g c1,
      Legacy.generateWatermarkedImage exampleHost sourcePhoto webpText
        freshCanvas = (Returned g, c1) /\
      format g = "image/png" /\ enc_type (dataUrl g) = "image/png" /\
      enc_pixels (dataUrl g) = painted c1) /\
  (exists g c1,
      Engine.generateWatermarkedImageMultiple exampleHost sourcePhoto
        [webpText] freshCanvas = (Returned g, c1) /\
      format g = "image/webp" /\ enc_type (dataUrl g) = "image/webp" /\
      enc_pixels (dataUrl g) = painted c1).
Proof.
  pose proof (C10_webp_is_png_in_the_single_export_only exampleHost
                sourcePhoto webpText [] (Output.mk "webp" 80) freshCanvas
                eq_refl eq_refl) as (_ & _ & H1 & H2 & _ & H3 & _).
  set (img := mkRaster 800 600 "photo").
  split; [|split].
  - destruct (H1 img
                (snd (Engine.applyWatermark exampleHost webpText
                        (fullBounds img) 1 (sourceDrawn img))) eq_refl)
      as (g & E); [vm_compute; reflexivity|].
    exists g. eexists. exact E.
  - destruct (H2 img
                (snd (Legacy.applyWatermark exampleHost webpText
                        (fullBounds img) 1 (sourceDrawn img))) eq_refl)
      as (g & E); [vm_compute; reflexivity|].
    exists g. eexists. exact E.
  - destruct (H3 img
                (snd (Engine.applyWatermarks exampleHost [webpText]
                        (fullBounds img) 1 (sourceDrawn img))) eq_refl)
      as (g & E);
      [repeat constructor; discriminate|vm_compute; reflexivity|].
    exists g. eexists. exact E.
Defined.
End EncodingExample.

(** ** The save/restore discipline *)

Section Frames.

(** The code returns and leaves the stack of the surface alone. *)
Definition inFrame (m : Js Canvas unit) : Prop :=
  forall c, exists st p,
    m c = (Returned tt, {| state := st; saved := saved c; painted := p |}).

(** The code returns or throws, and leaves the stack alone. *)
Definition keepsStack {A} (m : Js Canvas A) : Prop :=
  forall c, exists o st p,
    m c = (o, {| state := st; saved := saved c; painted := p |}) /\
    o <> Pending.

(** The code returns after popping the state on top of the stack. *)
Definition closesFrame (m : Js Canvas unit) : Prop :=
  forall c st0 rest, saved c = st0 :: rest ->
    exists p,
      m c = (Returned tt, {| state := st0; saved := rest; painted := p |}).

Lemma inFrame_withState f : inFrame (withState f).
Proof. intros c. eexists. eexists. reflexivity. Qed.

Lemma inFrame_paint f : inFrame (paint f).
Proof. intros c. eexists. eexists. reflexivity. Qed.

Lemma inFrame_ret : inFrame (ret tt).
Proof. intros [st sv p]. eexists. eexists. reflexivity. Qed.

Lemma inFrame_bind (m k : Js Canvas unit) :
  inFrame m -> inFrame k -> inFrame (bind m (fun _ => k)).
Proof.
  intros Hm Hk c. unfold bind.
  destruct (Hm c) as (st & p & ->).
  destruct (Hk {| state := st; saved := saved c; painted := p |})
    as (st' & p' & ->).
  eexists. eexists. reflexivity.
Qed.

Lemma inFrame_when (b : bool) m : inFrame m -> inFrame (when b m).
Proof. destruct b; [trivial | intros _; apply inFrame_ret]. Qed.

Lemma inFrame_translateN x y : inFrame (Legacy.translateN x y).
Proof.
  destruct x, y; cbn; first [apply inFrame_withState | apply inFrame_ret].
Qed.

Lemma closesFrame_restore : closesFrame restore.
Proof.
  intros c st0 rest H. unfold restore, modify. rewrite H.
  eexists. reflexivity.
Qed.

Lemma closesFrame_bind (m k : Js Canvas unit) :
  inFrame m -> closesFrame k -> closesFrame (bind m (fun _ => k)).
Proof.
  intros Hm Hk c st0 rest H. unfold bind.
  destruct (Hm c) as (st & p & ->).
  destruct (Hk {| state := st; saved := saved c; painted := p |} st0 rest H)
    as (p' & ->).
  eexists. reflexivity.
Qed.

(** [ctx.save(); ...; ctx.restore()] around code that keeps the stack. *)
Lemma saved_frame (m : Js Canvas unit) (c : Canvas) :
  closesFrame m ->
  exists p,
    bind save (fun _ => m) c
    = (Returned tt, {| state := state c; saved := saved c; painted := p |}).
Proof.
  intros Hm. unfold bind, save, modify.
  destruct (Hm {| state := state c; saved := state c :: saved c;
                  painted := painted c |} (state c) (saved c) eq_refl)
    as (p & ->).
  eexists. reflexivity.
Qed.

Lemma keepsStack_inFrame m : inFrame m -> keepsStack m.
Proof.
  intros H c. destruct (H c) as (st & p & ->).
  eexists. eexists. eexists. split; [reflexivity | discriminate].
Qed.

Lemma keepsStack_throw {A} e : keepsStack (@throw Canvas A e).
Proof.
  intros [st sv p]. eexists. eexists. eexists.
  split; [reflexivity | discriminate].
Qed.

Lemma keepsStack_bind {A} (m : Js Canvas unit) (k : Js Canvas A) :
  inFrame m -> keepsStack k -> keepsStack (bind m (fun _ => k)).
Proof.
  intros Hm Hk c. unfold bind.
  destruct (Hm c) as (st & p & ->).
  destruct (Hk {| state := st; saved := saved c; painted := p |})
    as (o & st' & p' & -> & Ho).
  eexists. eexists. eexists. split; [reflexivity | exact Ho].
Qed.
End Frames.

Ltac frame :=
  repeat first
    [ apply closesFrame_restore
    | apply closesFrame_bind
    | apply inFrame_bind
    | apply inFrame_when
    | apply inFrame_translateN
    | apply inFrame_withState
    | apply inFrame_paint
    | apply inFrame_ret ].

Section Discipline.
Local Open Scope string_scope.
Context (host : Host).

(** The code leaves the paint state and the stack of the surface as it
    found them, whatever its outcome. *)
Definition balanced {A} (m : Js Canvas A) : Prop :=
  forall c o c', m c = (o, c') -> state c' = state c /\ saved c' = saved c.

Lemma balanced_ret {A} (a : A) : balanced (ret a).
Proof. intros c o c' E. inversion E. split; reflexivity. Qed.

Lemma balanced_throw {A} e : balanced (@throw Canvas A e).
Proof. intros c o c' E. inversion E. split; reflexivity. Qed.

Lemma balanced_never {A} : balanced (@never Canvas A).
Proof. intros c o c' E. inversion E. split; reflexivity. Qed.

Lemma balanced_rethrow {A} (m : Js Canvas A) (f : JsError -> JsError) :
  balanced m -> balanced (try_catch m (fun e => throw (f e))).
Proof.
  intros H c o c'. unfold try_catch, throw.
  destruct (m c) as [[a|e|] c1] eqn:E; intros R; inversion R; subst;
    exact (H _ _ _ E).
Qed.

Lemma balanced_prop {A B} p (v : option A) (k : A -> Js Canvas B) :
  (forall a, balanced (k a)) -> balanced (bind (prop p v) k).
Proof.
  intros H. destruct v as [a|]; unfold bind, prop; cbn [ret throw].
  - apply H.
  - apply balanced_throw.
Qed.

Lemma balanced_frame (m : Js Canvas unit) :
  closesFrame m -> balanced (bind save (fun _ => m)).
Proof.
  intros H c o c' E. destruct (saved_frame m c H) as (p & E').
  rewrite E' in E. inversion E. split; reflexivity.
Qed.

Lemma Legacy_text_balanced s b sf :
  balanced (Legacy.applyTextWatermark host s b sf).
Proof.
  unfold Legacy.applyTextWatermark.
  apply balanced_rethrow with
    (f := fun error =>
            mkError ("Failed to apply text watermark: " ++ message error)).
  apply balanced_prop. intros t.
  destruct (negb (truthyS (Text.content t)) || _); [apply balanced_ret|].
  apply balanced_frame.
  unfold set_font, set_textAlign, set_textBaseline, set_globalAlpha,
    set_strokeStyle, set_lineWidth, set_fillStyle, strokeText, fillText,
    rotate.
  frame.
Qed.

Lemma Legacy_image_balanced s b sf :
  balanced (Legacy.applyImageWatermark s b sf).
Proof.
  unfold Legacy.applyImageWatermark.
  apply balanced_rethrow with
    (f := fun error =>
            mkError ("Failed to apply image watermark: " ++ message error)).
  apply balanced_prop. intros im.
  destruct (Legacy.elementOf _) as [img|]; [|apply balanced_ret].
  apply balanced_frame.
  unfold set_globalAlpha, drawImage, rotate.
  frame.
Qed.

Lemma Engine_image_balanced s b sf :
  balanced (Engine.applyImageWatermark host s b sf).
Proof.
  unfold Engine.applyImageWatermark.
  apply balanced_rethrow with (f := fun error => error).
  apply balanced_prop. intros im.
  destruct (Image.imageData im) as [d|]; [|apply balanced_ret].
  destruct (negb (truthyImageData (Some d))); [apply balanced_ret|].
  unfold Engine.loaded.
  destruct (decode host (Engine.srcOf d)) as [img|].
  - unfold bind at 1. cbn [ret].
    apply balanced_frame.
    unfold set_globalAlpha, set_imageSmoothingEnabled,
      set_imageSmoothingQuality, drawImage, rotate, translate.
    destruct (Settings.transform s) as [tr|]; frame.
  - intros c o c' E. inversion E. split; reflexivity.
Qed.
End Discipline.

Section DisciplineOfApplyWatermark.
Local Open Scope string_scope.
Context (host : Host).

Lemma closesFrame_prop {A} p (a : A) (k : A -> Js Canvas unit) :
  closesFrame (k a) -> closesFrame (bind (prop p (Some a)) k).
Proof. intros H c st0 rest Hc. exact (H c st0 rest Hc). Qed.

Lemma keepsStack_prop_none {A B} p (k : A -> Js Canvas B) :
  keepsStack (bind (prop p None) k).
Proof.
  intros [st sv pt]. eexists. eexists. eexists.
  split; [reflexivity | discriminate].
Qed.

Lemma keepsStack_prop_some {A B} p (a : A) (k : A -> Js Canvas B) :
  keepsStack (k a) -> keepsStack (bind (prop p (Some a)) k).
Proof. intros H c. exact (H c). Qed.

(** A frame that is opened and never closed, the error being swallowed. *)
Lemma swallowed_frame (m : Js Canvas unit) (c : Canvas) :
  keepsStack m ->
  exists c',
    try_catch (bind save (fun _ => m)) (fun _ => ret tt) c = (Returned tt, c')
    /\ saved c' = state c :: saved c.
Proof.
  intros H. unfold try_catch, bind, save, modify.
  destruct (H {| state := state c; saved := state c :: saved c;
                 painted := painted c |}) as (o & st & p & -> & Ho).
  destruct o as [[]|e|]; [| |congruence];
    eexists; split; reflexivity.
Qed.

(** The text layer of the transform-based engine always returns; when it
    gave up on an error the surface keeps the state saved on entry. *)
Lemma Engine_text_returns s b sf c :
  exists c',
    Engine.applyTextWatermark s b sf c = (Returned tt, c') /\
    ((state c' = state c /\ saved c' = saved c) \/
     saved c' = state c :: saved c).
Proof.
  unfold Engine.applyTextWatermark.
  unfold set_font, set_textAlign, set_textBaseline, set_globalAlpha,
    set_fillStyle, set_imageSmoothingEnabled, fillText, rotate, translate.
  destruct (Settings.text s) as [t|].
  - destruct (Settings.transform s) as [tr|]; cbn [option_map].
    + match goal with
      | |- context [try_catch (bind save (fun _ => ?m)) ?h c] =>
          destruct (saved_frame m c) as (p & E)
      end.
      { repeat first [ apply closesFrame_prop | progress frame ]. }
      unfold try_catch. rewrite E.
      eexists. split; [reflexivity|]. left. split; reflexivity.
    + match goal with
      | |- context [try_catch (bind save (fun _ => ?m)) ?h c] =>
          destruct (swallowed_frame m c) as (c' & E & Hs)
      end.
      { apply keepsStack_prop_some.
        repeat (apply keepsStack_bind; [apply inFrame_withState|]).
        apply keepsStack_prop_none. }
      exists c'. split; [exact E | right; exact Hs].
  - match goal with
    | |- context [try_catch (bind save (fun _ => ?m)) ?h c] =>
        destruct (swallowed_frame m c) as (c' & E & Hs)
    end.
    { apply keepsStack_prop_none. }
    exists c'. split; [exact E | right; exact Hs].
Qed.

(** [applyWatermark] over balanced layers: on return the surface has its
    state and its stack back; when it throws or stays pending, one saved
    state is left on the stack. *)
Lemma applyWatermarkWith_discipline
    (textLayer imageLayer : Settings.t -> Bounds.t -> Q -> Js Canvas unit)
    s b sf c o c' :
  balanced (textLayer s b sf) -> balanced (imageLayer s b sf) ->
  applyWatermarkWith textLayer imageLayer s b sf c = (o, c') ->
  state c' = state c /\
  match o with
  | Returned _ => saved c' = saved c
  | _ => saved c' = state c :: saved c
  end.
Proof.
  intros Ht Hi. unfold applyWatermarkWith, try_catch, bind.
  cbn [save modify].
  set (c0 := {| state := state c; saved := state c :: saved c;
                painted := painted c |}).
  destruct (String.eqb (Settings.type s) "text").
  { destruct (textLayer s b sf c0) as [[[]| |] c1] eqn:E;
      destruct (Ht _ _ _ E) as [H1 H2]; cbn [state saved c0] in H1, H2;
      intros R; inversion R; subst; clear R;
      unfold restore, modify; rewrite ?H2; cbn [state saved]; auto. }
  destruct (String.eqb (Settings.type s) "image").
  { destruct (imageLayer s b sf c0) as [[[]| |] c1] eqn:E;
      destruct (Hi _ _ _ E) as [H1 H2]; cbn [state saved c0] in H1, H2;
      intros R; inversion R; subst; clear R;
      unfold restore, modify; rewrite ?H2; cbn [state saved]; auto. }
  destruct (String.eqb (Settings.type s) "combined").
  { destruct (textLayer s b sf c0) as [[[]| |] c1] eqn:E;
      destruct (Ht _ _ _ E) as [H1 H2]; cbn [state saved c0] in H1, H2;
      [|intros R; inversion R; subst; clear R; auto ..].
    destruct (imageLayer s b sf c1) as [[[]| |] c2] eqn:E2;
      destruct (Hi _ _ _ E2) as [H3 H4];
      intros R; inversion R; subst; clear R;
      unfold restore, modify; rewrite ?H4, ?H2; cbn [state saved];
      rewrite ?H3, ?H1; auto. }
  unfold throw. intros R; inversion R; subst. cbn [state saved c0]. auto.
Qed.

(** The paint state of a surface that was reset and given the font of
    a measurement. *)
Definition measuring (t : Text.t) (sf : Q) : PaintState :=
  {| globalAlpha := 1; matrix := []; fillStyle := "#000000";
     strokeStyle := "#000000"; lineWidth := 1;
     font := Some {| font_px := Text.size t * sf;
                     font_family := Text.font t; font_quoted := false |};
     textAlign := "start"; textBaseline := "alphabetic";
     imageSmoothingEnabled := true; imageSmoothingQuality := "low" |}.

(** The anchor-only [applyWatermark] on a surface other than the scratch
    canvas of the engine, as in the export: on a normal return the paint
    state and the stack of the surface are what they were before.  On
    the scratch canvas itself, as in the previews, a text watermark
    whose content is not blank does not give the surface back as it
    was: the measurement of the text resets it, and the call returns
    with an empty stack and the default paint state but for the font of
    the measurement, whatever the state and the stack were before. *)
Lemma Legacy_applyWatermark_restores s b sf c :
  (forall c',
      Legacy.applyWatermark host s b sf c = (Returned tt, c') ->
      state c' = state c /\ saved c' = saved c) /\
  (forall t,
      Settings.type s = "text" -> Settings.text s = Some t ->
      truthyS (Text.content t) = true -> trim (Text.content t) <> "" ->
      exists c',
        LegacyPreview.applyWatermark host s b sf c = (Returned tt, c') /\
        saved c' = [] /\ state c' = measuring t sf).
Proof.
  split.
  - intros c' E.
    exact (applyWatermarkWith_discipline _ _ s b sf c _ c'
             (Legacy_text_balanced host s b sf)
             (Legacy_image_balanced s b sf) E).
  - intros t Hty Htx Htruthy Hblank.
    unfold LegacyPreview.applyWatermark, applyWatermarkWith, try_catch.
    rewrite Hty. cbn [String.eqb Ascii.eqb Bool.eqb].
    unfold bind at 1. cbn [save modify].
    unfold bind at 1.
    unfold LegacyPreview.applyTextWatermark, try_catch.
    unfold bind at 1. unfold prop. rewrite Htx. cbn [ret].
    rewrite Htruthy. cbn [negb orb].
    assert (String.eqb (trim (Text.content t)) "" = false) as ->
      by (apply String.eqb_neq; assumption).
    unfold bind at 1. unfold LegacyPreview.estimateTextWidth.
    unfold bind at 1. cbn [modify].
    unfold bind at 1. cbn [modify].
    unfold bind at 1.
    cbn [set_font withState modify freshCanvas state saved painted
         defaultPaint ret Text.size Text.font Text.content].
    match goal with
    | |- context [Legacy.calculatePosition ?p ?q ?r ?k] =>
        destruct (Legacy.calculatePosition p q r k) as [[px|] [py|] psf]
    end;
    destruct (Qeq_bool (Text.rotation t) 0);
    destruct (Legacy.needsStroke (Text.color t));
    cbn -[Math_max Qdiv Qmult];
    (eexists; split; [reflexivity|]); split; reflexivity.
Qed.

(** The transform-based [applyWatermark] returns with the paint state it
    was called with, and with the stack it was called with unless its
    text layer gave up on an error, in which case one saved state stays
    on the stack. *)
Lemma Engine_applyWatermark_restores_state s b sf c c' :
  Engine.applyWatermark host s b sf c = (Returned tt, c') ->
  state c' = state c /\
  (saved c' = saved c \/ saved c' = state c :: saved c).
Proof.
  unfold Engine.applyWatermark, applyWatermarkWith, try_catch, bind.
  cbn [save modify].
  set (c0 := {| state := state c; saved := state c :: saved c;
                painted := painted c |}).
  destruct (Engine_text_returns s b sf c0) as (c1 & E1 & H1).
  cbn [state saved c0] in H1.
  destruct (String.eqb (Settings.type s) "text").
  { rewrite E1. intros R; inversion R; subst; clear R.
    unfold restore, modify.
    destruct H1 as [[Hs Hv]|Hv]; rewrite Hv; cbn [state saved]; auto. }
  destruct (String.eqb (Settings.type s) "image").
  { destruct (Engine.applyImageWatermark host s b sf c0)
      as [[[]| |] c2] eqn:E2; try discriminate.
    destruct (Engine_image_balanced host s b sf _ _ _ E2) as [H3 H4].
    cbn [state saved c0] in H3, H4.
    intros R; inversion R; subst; clear R.
    unfold restore, modify. rewrite H4. cbn [state saved]. auto. }
  destruct (String.eqb (Settings.type s) "combined"); [|discriminate].
  rewrite E1.
  destruct (Engine.applyImageWatermark host s b sf c1)
    as [[[]| |] c2] eqn:E2; try discriminate.
  destruct (Engine_image_balanced host s b sf _ _ _ E2) as [H3 H4].
  intros R; inversion R; subst; clear R.
  unfold restore, modify. rewrite H4.
  destruct H1 as [[Hs Hv]|Hv]; rewrite Hv; cbn [state saved]; auto.
Qed.

(** A text watermark without a transform: the transform-based
    [applyWatermark] returns normally, the stack one entry deeper. *)
Lemma Engine_text_without_transform_leaves_a_save (c : Canvas) :
  Engine.applyWatermark host
    (Settings.mk "text" (Some (Text.mk "hi" "Arial" 48 "#808080" 80 0))
       None None None None)
    (Bounds.mk 0 0 800 600) 1 c
  = (Returned tt, oneSaveDeeper c).
Proof. reflexivity. Qed.
End DisciplineOfApplyWatermark.

(** ** The helpers of [js/utils.js] *)

Section Int32.
Local Open Scope Z_scope.

Lemma toInt32_range (z : Z) : -2147483648 <= toInt32 z < 2147483648.
Proof. unfold toInt32. pose proof (Z.mod_pos_bound (z + 2147483648) 4294967296). lia. Qed.

Lemma toInt32_small (z : Z) :
  -2147483648 <= z < 2147483648 -> toInt32 z = z.
Proof. intro H. unfold toInt32. rewrite Z.mod_small; lia. Qed.

Lemma toInt32_congruent (z : Z) : exists k, toInt32 z = z + k * 4294967296.
Proof.
  exists (- ((z + 2147483648) / 4294967296)). unfold toInt32.
  pose proof (Z.div_mod (z + 2147483648) 4294967296). lia.
Qed.

Lemma toInt32_shift (z k : Z) : toInt32 (z + k * 4294967296) = toInt32 z.
Proof.
  unfold toInt32.
  replace (z + k * 4294967296 + 2147483648)
    with (z + 2147483648 + k * 4294967296) by lia.
  now rewrite Z.mod_add by lia.
Qed.

Lemma shiftLeft_small (x n : Z) :
  0 <= n < 32 -> -2147483648 <= x * 2 ^ n < 2147483648 ->
  -2147483648 <= x < 2147483648 ->
  shiftLeft x n = x * 2 ^ n.
Proof.
  intros Hn Hx Hx'. unfold shiftLeft.
  rewrite (toInt32_small x) by assumption.
  assert (Z.land n 31 = n) as ->.
  { change 31 with (Z.ones 5). rewrite Z.land_ones by lia.
    apply Z.mod_small. simpl. lia. }
  rewrite Z.shiftl_mul_pow2 by lia. now apply toInt32_small.
Qed.

Lemma shiftLeft_5_congruent (h : Z) :
  exists k, shiftLeft h 5 = 32 * h + k * 4294967296.
Proof.
  unfold shiftLeft. change (Z.land 5 31) with 5.
  rewrite Z.shiftl_mul_pow2 by lia. change (2 ^ 5) with 32.
  destruct (toInt32_congruent h) as [k0 E0].
  destruct (toInt32_congruent (toInt32 h * 32)) as [k1 E1].
  exists (32 * k0 + k1). lia.
Qed.

Lemma bitAnd_diag (h : Z) : bitAnd h h = toInt32 h.
Proof.
  unfold bitAnd. rewrite Z.land_diag.
  apply toInt32_small, toInt32_range.
Qed.

End Int32.

Section UtilsNumbers.
Local Open Scope Z_scope.

Lemma gcd_rem_step (a b : Z) : Z.gcd b (Z.rem a b) = Z.gcd a b.
Proof.
  destruct (Z.eq_dec b 0) as [->|Hb].
  - rewrite Z.rem_0_r_ext by reflexivity. now rewrite Z.gcd_comm.
  - rewrite (Z.gcd_comm a b).
    pose proof (Z.quot_rem' a b) as E.
    replace (Z.rem a b) with (a + (- (a ÷ b)) * b) by lia.
    apply Z.gcd_add_mult_diag_r.
Qed.

Lemma gcd_abs (a b : Z) : Z.abs (Utils.gcd a b) = Z.gcd a b.
Proof.
  functional induction (Utils.gcd a b) as [a b Hb | a b Hb IH].
  - apply Z.eqb_eq in Hb. subst b. now rewrite Z.gcd_0_r.
  - rewrite IH. apply gcd_rem_step.
Qed.

Lemma gcd_nonneg (a b : Z) : 0 <= a -> 0 <= b -> 0 <= Utils.gcd a b.
Proof.
  functional induction (Utils.gcd a b) as [a b Hb | a b Hb IH]; intros Ha Hb'.
  - assumption.
  - apply IH; [assumption|]. apply Z.rem_nonneg; [|assumption].
    apply Z.eqb_neq in Hb. assumption.
Qed.

(** [Utils.gcd] is Euclid's algorithm: up to its sign the result is the
    greatest common divisor of the two integers, and on non-negative
    arguments it is that divisor itself; in particular it divides both
    arguments. *)
Theorem Utils_gcd_is_the_greatest_common_divisor (a b : Z) :
  Z.abs (Utils.gcd a b) = Z.gcd a b
  /\ Utils.gcd (Z.abs a) (Z.abs b) = Z.gcd a b
  /\ (Utils.gcd a b | a) /\ (Utils.gcd a b | b)
  /\ Utils.gcd a 0 = a.
Proof.
  split; [apply gcd_abs|]. split.
  - pose proof (gcd_abs (Z.abs a) (Z.abs b)) as E.
    rewrite Z.gcd_abs_l, Z.gcd_abs_r in E.
    rewrite Z.abs_eq in E; [exact E|].
    apply gcd_nonneg; apply Z.abs_nonneg.
  - pose proof (gcd_abs a b) as E.
    pose proof (Z.gcd_divide_l a b) as Hl.
    pose proof (Z.gcd_divide_r a b) as Hr.
    rewrite <- E in Hl, Hr.
    split; [|split].
    + apply Z.divide_abs_l. exact Hl.
    + apply Z.divide_abs_l. exact Hr.
    + rewrite Utils.gcd_equation. reflexivity.
Qed.

End UtilsNumbers.

Section UtilsHash.
Local Open Scope Z_scope.

(** The polynomial [s[0]*31^(n-1) + ... + s[n-1]] over the character
    codes of [s], continued from [p]. *)
Fixpoint polynomialFrom (p : Z) (s : string) : Z :=
  match s with
  | EmptyString => p
  | String c rest => polynomialFrom (31 * p + Z.of_nat (nat_of_ascii c)) rest
  end.

Lemma hashFrom_polynomial (s : string) (h p k : Z) :
  h = p + k * 4294967296 ->
  toInt32 (Utils.hashFrom h s) = toInt32 (polynomialFrom p s).
Proof.
  revert h p k. induction s as [|c s IH]; intros h p k E; cbn [Utils.hashFrom polynomialFrom].
  - subst h. apply toInt32_shift.
  - rewrite bitAnd_diag.
    destruct (shiftLeft_5_congruent h) as [k1 E1].
    destruct (toInt32_congruent (shiftLeft h 5 - h + Z.of_nat (nat_of_ascii c)))
      as [k2 E2].
    apply (IH _ _ (31 * k + k1 + k2)). lia.
Qed.

Lemma hashFrom_int32 (s : string) (h : Z) :
  -2147483648 <= h < 2147483648 ->
  -2147483648 <= Utils.hashFrom h s < 2147483648.
Proof.
  revert h. induction s as [|c s IH]; intros h Hh; cbn [Utils.hashFrom].
  - assumption.
  - apply IH. rewrite bitAnd_diag. apply toInt32_range.
Qed.

(** [Utils.hashString] is the polynomial hash with multiplier 31 over
    the character codes, reduced to a signed 32-bit integer; the empty
    string hashes to 0. *)
Theorem Utils_hashString_is_the_polynomial_hash_modulo_2_32 (s : string) :
  Utils.hashString s = toInt32 (polynomialFrom 0 s)
  /\ -2147483648 <= Utils.hashString s < 2147483648.
Proof.
  assert (Utils.hashString s = Utils.hashFrom 0 s) as E.
  { unfold Utils.hashString. destruct s; reflexivity. }
  rewrite E. split.
  - rewrite <- (toInt32_small (Utils.hashFrom 0 s)).
    + apply (hashFrom_polynomial s 0 0 0). reflexivity.
    + apply hashFrom_int32. lia.
  - apply hashFrom_int32. lia.
Qed.

End UtilsHash.

Section UtilsColours.
Local Open Scope Z_scope.

Lemma hexDigits_more (n : Z) (acc : string) :
  0 < n / 16 ->
  Utils.hexDigits n acc
  = Utils.hexDigits (n / 16) (String (Utils.hexChar (n mod 16)) acc).
Proof.
  intro H. rewrite Utils.hexDigits_equation.
  apply Z.ltb_lt in H. now rewrite H.
Qed.

Lemma hexDigits_last (n : Z) (acc : string) :
  n / 16 <= 0 ->
  Utils.hexDigits n acc = String (Utils.hexChar (n mod 16)) acc.
Proof.
  intro H. rewrite Utils.hexDigits_equation.
  apply Z.ltb_ge in H. now rewrite H.
Qed.

Lemma hexDigit_hexChar (d : Z) :
  0 <= d < 16 -> Legacy.hexDigit (Utils.hexChar d) = Some d.
Proof.
  intro H.
  destruct d as [|p|p]; [reflexivity| |lia].
  do 4 (destruct p as [p|p|]; try reflexivity); exfalso; lia.
Qed.

Lemma byte_digits (v : Z) :
  0 <= v <= 255 ->
  0 <= v / 16 < 16 /\ 0 <= v mod 16 < 16 /\ v = 16 * (v / 16) + v mod 16.
Proof.
  intro H. pose proof (Z.div_mod v 16). pose proof (Z.mod_pos_bound v 16).
  assert (0 <= v / 16) by (apply Z.div_pos; lia).
  assert (v / 16 < 16) by (apply Z.div_lt_upper_bound; lia).
  lia.
Qed.

Lemma hexPair_of_byte (v : Z) :
  0 <= v <= 255 ->
  Legacy.hexPair (Utils.hexChar (v / 16)) (Utils.hexChar (v mod 16)) = Some v.
Proof.
  intro H. unfold Legacy.hexPair.
  destruct (byte_digits v H) as (Hh & Hl & E).
  rewrite !hexDigit_hexChar by assumption.
  f_equal. symmetry. exact E.
Qed.

Lemma hexDigits_horner (q d : Z) (acc : string) :
  0 < q -> 0 <= d < 16 ->
  Utils.hexDigits (16 * q + d) acc
  = Utils.hexDigits q (String (Utils.hexChar d) acc).
Proof.
  intros Hq Hd.
  assert ((16 * q + d) / 16 = q) as D
    by (symmetry; apply (Z.div_unique _ 16 q d); lia).
  assert ((16 * q + d) mod 16 = d) as M
    by (symmetry; apply (Z.mod_unique _ 16 q d); lia).
  rewrite hexDigits_more by (rewrite D; assumption).
  now rewrite D, M.
Qed.

Lemma hexDigits_digit (d : Z) (acc : string) :
  0 <= d < 16 -> Utils.hexDigits d acc = String (Utils.hexChar d) acc.
Proof.
  intro Hd. rewrite hexDigits_last by (rewrite Z.div_small; lia).
  now rewrite Z.mod_small.
Qed.

Lemma rgbToHex_digits (r g b : Z) :
  0 <= r <= 255 -> 0 <= g <= 255 -> 0 <= b <= 255 ->
  Utils.rgbToHex r g b
  = String "#"
      (String (Utils.hexChar (r / 16)) (String (Utils.hexChar (r mod 16))
      (String (Utils.hexChar (g / 16)) (String (Utils.hexChar (g mod 16))
      (String (Utils.hexChar (b / 16)) (String (Utils.hexChar (b mod 16))
       EmptyString)))))).
Proof.
  intros Hr Hg Hb. unfold Utils.rgbToHex.
  rewrite (shiftLeft_small 1 24), (shiftLeft_small r 16), (shiftLeft_small g 8)
    by (change (2 ^ 24) with 16777216; change (2 ^ 16) with 65536;
        change (2 ^ 8) with 256; lia).
  change (2 ^ 24) with 16777216. change (2 ^ 16) with 65536.
  change (2 ^ 8) with 256.
  destruct (byte_digits r Hr) as (Hrh & Hrl & Er).
  destruct (byte_digits g Hg) as (Hgh & Hgl & Eg).
  destruct (byte_digits b Hb) as (Hbh & Hbl & Eb).
  generalize dependent (r / 16). generalize dependent (r mod 16).
  generalize dependent (g / 16). generalize dependent (g mod 16).
  generalize dependent (b / 16). generalize dependent (b mod 16).
  intros bl Hbl bh Hbh Eb gl Hgl gh Hgh Eg rl Hrl rh Hrh Er.
  replace (1 * 16777216 + r * 65536 + g * 256 + b)
    with (16 * (16 * (16 * (16 * (16 * (16 * 1 + rh) + rl) + gh) + gl) + bh) + bl)
    by lia.
  unfold Utils.toString16.
  match goal with |- context [(?n <? 0)] =>
    assert ((n <? 0) = false) as -> by (apply Z.ltb_ge; lia) end.
  rewrite !hexDigits_horner by lia.
  rewrite hexDigits_digit by lia. reflexivity.
Qed.

(** Writing a colour with [rgbToHex] and reading it back with
    [hexToRgb] gives the three channels again, for channels in 0..255;
    the colour written has the form [#rrggbb], seven characters. *)
Theorem Utils_hexToRgb_inverts_rgbToHex (r g b : Z) :
  0 <= r <= 255 -> 0 <= g <= 255 -> 0 <= b <= 255 ->
  Utils.hexToRgb (Utils.rgbToHex r g b)
  = Some {| Legacy.r := r; Legacy.g := g; Legacy.b := b |}
  /\ String.length (Utils.rgbToHex r g b) = 7%nat.
Proof.
  intros Hr Hg Hb. rewrite rgbToHex_digits by assumption.
  split; [|reflexivity].
  unfold Utils.hexToRgb, Legacy.hexToRgb.
  rewrite !hexPair_of_byte by assumption. reflexivity.
Qed.

Lemma Utils_hexToRgb_inverts_rgbToHex_witness :
  Utils.hexToRgb (Utils.rgbToHex 255 128 0)
  = Some {| Legacy.r := 255; Legacy.g := 128; Legacy.b := 0 |}
  /\ String.length (Utils.rgbToHex 255 128 0) = 7%nat.
Proof.
  apply (Utils_hexToRgb_inverts_rgbToHex 255 128 0); lia.
Defined.

End UtilsColours.

(** ** Rounding and clamping *)

Lemma Math_round_le (a b : Q) : a <= b -> Math_round a <= Math_round b.
Proof.
  intro H. unfold Math_round. rewrite <- Zle_Qle.
  apply Qfloor_resp_le. lra.
Qed.

#[global] Instance Math_round_compat : Proper (Qeq ==> Qeq) Math_round.
Proof.
  intros a b E. unfold Math_round.
  assert (Qfloor (a + (1 # 2)) = Qfloor (b + (1 # 2))) as ->
    by (apply Qfloor_comp; rewrite E; reflexivity).
  reflexivity.
Qed.

Lemma Math_round_bounds (q : Q) :
  q - (1 # 2) < Math_round q /\ Math_round q <= q + (1 # 2).
Proof.
  unfold Math_round. split.
  - pose proof (Qlt_floor (q + (1 # 2))) as H.
    rewrite inject_Z_plus in H. change (inject_Z 1) with 1 in H.
    revert H. generalize (inject_Z (Qfloor (q + (1 # 2)))). intros f H. lra.
  - apply Qfloor_le.
Qed.

Lemma wholeNear_Math_round (q x : Q) : q == x -> wholeNear (Math_round q) x.
Proof.
  intros E. destruct (Math_round_bounds q) as [L U]. split.
  - exists (Qfloor (q + (1 # 2))). reflexivity.
  - rewrite <- E. split; lra.
Qed.

Lemma Math_round_integer (z : Z) : Math_round (inject_Z z) == inject_Z z.
Proof.
  unfold Math_round.
  assert (Qfloor (inject_Z z + (1 # 2)) = z) as ->; [|reflexivity].
  pose proof (Qfloor_le (inject_Z z + (1 # 2))) as Hle.
  pose proof (Qlt_floor (inject_Z z + (1 # 2))) as Hlt.
  set (f := Qfloor (inject_Z z + (1 # 2))) in *.
  rewrite inject_Z_plus in Hlt. change (inject_Z 1) with 1 in Hlt.
  assert (inject_Z f < inject_Z (z + 1)) as H1.
  { rewrite inject_Z_plus. change (inject_Z 1) with 1.
    revert Hle. generalize (inject_Z f) (inject_Z z). intros a b Hle. lra. }
  assert (inject_Z (z - 1) < inject_Z f) as H2.
  { replace (inject_Z (z - 1)) with (inject_Z z - 1)
      by (unfold Z.sub; rewrite inject_Z_plus; reflexivity).
    clear Hle H1. revert Hlt.
    generalize (inject_Z f) (inject_Z z). intros a b Hlt. lra. }
  rewrite <- Zlt_Qlt in H1, H2. lia.
Qed.

(** [Utils.clamp] answers a value between the two limits whenever the
    lower limit does not exceed the upper one, and the value itself when
    it already lies between them; clamping twice changes nothing. *)
Theorem Utils_clamp_stays_within_the_limits (value min max : Q) :
  min <= max ->
  min <= Utils.clamp value min max <= max
  /\ (min <= value <= max -> Utils.clamp value min max == value)
  /\ Utils.clamp (Utils.clamp value min max) min max
     == Utils.clamp value min max.
Proof.
  intro H. unfold Utils.clamp.
  destruct (Math_max_spec value min) as [[H1 E1]|[H1 E1]]; rewrite !E1;
    destruct (Math_min_spec min max) as [[H2 E2]|[H2 E2]];
    destruct (Math_min_spec value max) as [[H3 E3]|[H3 E3]];
    rewrite ?E2, ?E3.
  all: repeat split; try lra.
  all: try (intros [? ?]; lra).
  all: try (destruct (Math_max_spec min min) as [[H4 E4]|[H4 E4]]; rewrite !E4;
            rewrite ?E2; lra).
  all: try (destruct (Math_max_spec max min) as [[H4 E4]|[H4 E4]]; rewrite !E4;
            destruct (Math_min_spec max max) as [[H5 E5]|[H5 E5]];
            rewrite ?E2, ?E5; lra).
  all: try (destruct (Math_max_spec value min) as [[H4 E4]|[H4 E4]]; rewrite !E4;
            rewrite ?E2, ?E3; lra).
Qed.

Lemma Utils_clamp_witness :
  0 <= Utils.clamp 250 0 100 <= 100
  /\ (0 <= 250 <= 100 -> Utils.clamp 250 0 100 == 250)
  /\ Utils.clamp (Utils.clamp 250 0 100) 0 100 == Utils.clamp 250 0 100.
Proof.
  apply (Utils_clamp_stays_within_the_limits 250 0 100). discriminate.
Defined.

(** ** Fitting a picture into a box *)

Section Fitting.

Lemma Qdiv_pos (x y : Q) : 0 < x -> 0 < y -> 0 < x / y.
Proof. intros. apply Qlt_shift_div_l; lra. Qed.

Lemma Qdiv_mult_cancel (x y : Q) : 0 < y -> x / y * y == x.
Proof. intros. field. lra. Qed.

(** [calculateScaledDimensions] never answers a box larger than the
    limits or larger than the original (each up to rounding to the next
    integer), and answers the rounded original when that already fits. *)
Theorem MediaEditor_scaled_dimensions_fit_and_never_enlarge
    (ow oh mw mh : Q) :
  0 < ow -> 0 < oh -> 0 < mw -> 0 < mh ->
  let r := MediaEditor.calculateScaledDimensions ow oh mw mh in
  sz_width r <= Math_round mw /\ sz_height r <= Math_round mh
  /\ sz_width r <= Math_round ow /\ sz_height r <= Math_round oh
  /\ (ow <= mw -> oh <= mh ->
      sz_width r == Math_round ow /\ sz_height r == Math_round oh).
Proof.
  intros How Hoh Hmw Hmh.
  unfold MediaEditor.calculateScaledDimensions.
  pose proof (Qdiv_pos ow oh How Hoh) as Ha.
  pose proof (Qdiv_mult_cancel ow oh Hoh) as Ea.
  set (a := ow / oh) in *.
  pose proof (Qdiv_mult_cancel mw a Ha) as Eh.
  set (h1 := mw / a) in *.
  destruct (Qgtb ow mw) eqn:C1;
    [apply Qgtb_gt in C1 | apply Qgtb_le in C1].
  - destruct (Qgtb h1 mh) eqn:C2;
      [apply Qgtb_gt in C2 | apply Qgtb_le in C2];
      cbn [sz_width sz_height];
      repeat split; try (apply Math_round_le; nra); intros; exfalso; nra.
  - destruct (Qgtb oh mh) eqn:C2;
      [apply Qgtb_gt in C2 | apply Qgtb_le in C2];
      cbn [sz_width sz_height];
      repeat split; try (apply Math_round_le; nra); try reflexivity;
      intros; exfalso; nra.
Qed.

Lemma MediaEditor_scaled_dimensions_witness :
  let r := MediaEditor.calculateScaledDimensions 4000 3000 800 500 in
  sz_width r <= Math_round 800 /\ sz_height r <= Math_round 500
  /\ sz_width r <= Math_round 4000 /\ sz_height r <= Math_round 3000
  /\ (4000 <= 800 -> 3000 <= 500 ->
      sz_width r == Math_round 4000 /\ sz_height r == Math_round 3000).
Proof.
  apply (MediaEditor_scaled_dimensions_fit_and_never_enlarge 4000 3000 800 500);
    reflexivity.
Defined.

(** With [maintainAspectRatio], [calculateVideoResize] answers a size
    of which each side is less than one pixel above its limit: one side
    is its limit rounded, the other is a whole number within one pixel
    of the side that keeps the aspect ratio of the original, and the
    answer carries an aspect ratio.  Without [maintainAspectRatio] the
    answer is the two limits as they are, and carries no aspect
    ratio. *)
Theorem VideoProcessor_resize_is_the_largest_uniform_fit
    (ow oh mw mh : Q) :
  0 < ow -> 0 < oh -> 0 < mw -> 0 < mh ->
  let r := VideoProcessor.calculateVideoResize ow oh mw mh true in
  let f := VideoProcessor.calculateVideoResize ow oh mw mh false in
  VideoProcessor.width r < mw + 1
  /\ VideoProcessor.height r < mh + 1
  /\ ((VideoProcessor.width r == Math_round mw
       /\ wholeNear (VideoProcessor.height r) (mw * oh / ow))
      \/ (VideoProcessor.height r == Math_round mh
          /\ wholeNear (VideoProcessor.width r) (mh * ow / oh)))
  /\ VideoProcessor.aspectRatio r <> None
  /\ VideoProcessor.width f = mw /\ VideoProcessor.height f = mh
  /\ VideoProcessor.aspectRatio f = None.
Proof.
  intros How Hoh Hmw Hmh.
  unfold VideoProcessor.calculateVideoResize. cbn [negb].
  pose proof (Qdiv_pos ow oh How Hoh) as Ha.
  pose proof (Qdiv_mult_cancel ow oh Hoh) as Ea.
  pose proof (Qdiv_pos mw mh Hmw Hmh) as Hm.
  pose proof (Qdiv_mult_cancel mw mh Hmh) as Em.
  pose proof (Math_round_bounds mw) as [_ Bw].
  pose proof (Math_round_bounds mh) as [_ Bh].
  destruct (Qgtb (mw / mh) (ow / oh)) eqn:C;
    [apply Qgtb_gt in C | apply Qgtb_le in C];
    cbn [VideoProcessor.width VideoProcessor.height
         VideoProcessor.aspectRatio].
  - assert (mh * (ow / oh) == mh * ow / oh) as E1 by (field; lra).
    assert (mh * (ow / oh) < mw) as E2.
    { set (a := ow / oh) in *. set (m := mw / mh) in *. nra. }
    destruct (Math_round_bounds (mh * (ow / oh))) as [_ B].
    split; [lra|]. split; [lra|].
    split; [|repeat split; discriminate].
    right. split; [reflexivity|].
    now apply wholeNear_Math_round.
  - assert (mw / (ow / oh) == mw * oh / ow) as E1 by (field; lra).
    pose proof (Qdiv_mult_cancel mw (ow / oh) Ha) as E4.
    assert (mw / (ow / oh) <= mh) as E2.
    { set (a := ow / oh) in *. set (m := mw / mh) in *.
      set (h := mw / a) in *. nra. }
    destruct (Math_round_bounds (mw / (ow / oh))) as [_ B].
    split; [lra|]. split; [lra|].
    split; [|repeat split; discriminate].
    left. split; [reflexivity|].
    now apply wholeNear_Math_round.
Qed.

Lemma VideoProcessor_resize_witness :
  let r := VideoProcessor.calculateVideoResize 23 40 100 100 true in
  let f := VideoProcessor.calculateVideoResize 23 40 100 100 false in
  VideoProcessor.width r < 100 + 1
  /\ VideoProcessor.height r < 100 + 1
  /\ ((VideoProcessor.width r == Math_round 100
       /\ wholeNear (VideoProcessor.height r) (100 * 40 / 23))
      \/ (VideoProcessor.height r == Math_round 100
          /\ wholeNear (VideoProcessor.width r) (100 * 23 / 40)))
  /\ VideoProcessor.aspectRatio r <> None
  /\ VideoProcessor.width f = 100 /\ VideoProcessor.height f = 100
  /\ VideoProcessor.aspectRatio f = None.
Proof.
  apply (VideoProcessor_resize_is_the_largest_uniform_fit 23 40 100 100);
    reflexivity.
Defined.

End Fitting.

(** ** Previews *)

Section PreviewSize.

Lemma preview_scale_fits (w h m : Q) :
  0 < w -> 0 < h -> 0 < m ->
  let scale := Math_min (m / w) (m / h) in
  w * scale <= m /\ h * scale <= m /\ (w * scale == m \/ h * scale == m).
Proof.
  intros Hw Hh Hm.
  pose proof (Qdiv_mult_cancel m w Hw) as Ew.
  pose proof (Qdiv_mult_cancel m h Hh) as Eh.
  pose proof (Qdiv_pos m w Hm Hw) as Pw.
  pose proof (Qdiv_pos m h Hm Hh) as Ph.
  cbv zeta.
  destruct (Math_min_spec (m / w) (m / h)) as [[H1 E]|[H1 E]]; rewrite E;
    set (a := m / w) in *; set (b := m / h) in *.
  - repeat split; [nra | nra | left; nra].
  - repeat split; [nra | nra | right; nra].
Qed.

End PreviewSize.

Definition isTextCmd (cmd : PaintCmd) : bool :=
  match cmd with
  | StrokeText _ _ _ _ | FillText _ _ _ _ => true
  | _ => false
  end.

Section LegacyPreviewAliasing.
Local Open Scope string_scope.
Context (host : Host).

(** In the anchor-only engine the preview of a text watermark whose
    content is not blank does not show the picture: the measurement of
    the text resets the canvas on which the picture has just been drawn,
    so that the data URL encodes the text alone; the reported size is
    still that of the scaled picture, in whole pixels. *)
Theorem Legacy_preview_of_a_text_watermark_loses_the_picture
    (source : SourceImageData) (img : Raster) (s : Settings.t) (t : Text.t)
    (maxSize : Q) (c : Canvas) :
  element source = Some img ->
  Settings.type s = "text" -> Settings.text s = Some t ->
  truthyS (Text.content t) = true -> trim (Text.content t) <> "" ->
  exists pv c',
    LegacyPreview.generatePreview host source s maxSize c = (Returned pv, c')
    /\ forallb isTextCmd (pv_pixels pv) = true
    /\ (exists st, In (FillText (Text.content t) 0 0 st) (pv_pixels pv))
    /\ wholeNear (pv_width pv)
         (naturalWidth img
          * Math_min (maxSize / naturalWidth img) (maxSize / naturalHeight img))
    /\ wholeNear (pv_height pv)
         (naturalHeight img
          * Math_min (maxSize / naturalWidth img)
              (maxSize / naturalHeight img)).
Proof.
  intros Hsrc Hty Htx Htruthy Hblank.
  unfold LegacyPreview.generatePreview, try_catch.
  unfold bind at 1. unfold prop. rewrite Hsrc. cbn [ret].
  unfold bind at 1. cbn [modify].
  unfold bind at 1. cbn [modify].
  unfold bind at 1. cbn [clearRect paint modify].
  unfold bind at 1. cbn [drawImage paint modify].
  unfold bind at 1.
  unfold LegacyPreview.applyWatermark, applyWatermarkWith, try_catch.
  rewrite Hty. cbn [String.eqb Ascii.eqb Bool.eqb].
  unfold bind at 1. cbn [save modify].
  unfold bind at 1.
  unfold LegacyPreview.applyTextWatermark, try_catch.
  unfold bind at 1. unfold prop. rewrite Htx. cbn [ret].
  rewrite Htruthy. cbn [negb orb].
  assert (String.eqb (trim (Text.content t)) "" = false) as ->
    by (apply String.eqb_neq; assumption).
  unfold bind at 1. unfold LegacyPreview.estimateTextWidth.
  unfold bind at 1. cbn [modify].
  unfold bind at 1. cbn [modify].
  unfold bind at 1. cbn [set_font withState modify freshCanvas state saved painted defaultPaint ret].
  match goal with
  | |- context [Legacy.calculatePosition ?p ?q ?r ?k] =>
      destruct (Legacy.calculatePosition p q r k) as [[px|] [py|] psf]
  end;
  destruct (Qeq_bool (Text.rotation t) 0);
  destruct (Legacy.needsStroke (Text.color t));
  cbn -[Math_round Math_min Math_max Qdiv Qmult];
  (eexists; eexists; split; [reflexivity|]);
  cbn [pv_pixels pv_width pv_height forallb isTextCmd andb];
  (split; [reflexivity|]);
  (split; [|split; apply wholeNear_Math_round; reflexivity]);
  eexists; cbn [In]; auto.
Qed.

End LegacyPreviewAliasing.

Section PreviewExamples.
Local Open Scope string_scope.

Definition previewHost : Host :=
  {| measureText := fun f s => font_px f * inject_Z (Z.of_nat (String.length s)) / 2;
     decode := fun src => Some {| naturalWidth := 64; naturalHeight := 64;
                                  pixels := src |} |}.

Definition previewSource : SourceImageData :=
  {| element := Some {| naturalWidth := 1600; naturalHeight := 1200;
                        pixels := "photo" |} |}.

Definition previewCaption : Settings.t :=
  {| Settings.type := "text";
     Settings.text := Some (Text.mk "Sample" "Arial" 48 "#ffffff" 80 0);
     Settings.image := None;
     Settings.position := Some (Position.mk "center" (JNum 0) (JNum 0));
     Settings.transform :=
       Some {| Transform.x := 100; Transform.y := 50;
               Transform.width := 200; Transform.height := 60;
               Transform.rotation := 0;
               Transform.previewCanvasWidth := Some 800;
               Transform.previewCanvasHeight := Some 600 |};
     Settings.output := Some (Output.mk "png" 95) |}.

Lemma Legacy_preview_loses_the_picture_witness :
  exists pv c',
    LegacyPreview.generatePreview previewHost previewSource previewCaption
      400 freshCanvas = (Returned pv, c')
    /\ forallb isTextCmd (pv_pixels pv) = true
    /\ (exists st, In (FillText "Sample" 0 0 st) (pv_pixels pv))
    /\ wholeNear (pv_width pv)
         (1600 * Math_min (400 / 1600) (400 / 1200))
    /\ wholeNear (pv_height pv)
         (1200 * Math_min (400 / 1600) (400 / 1200)).
Proof.
  apply (Legacy_preview_of_a_text_watermark_loses_the_picture previewHost
           previewSource
           {| naturalWidth := 1600; naturalHeight := 1200; pixels := "photo" |}
           previewCaption (Text.mk "Sample" "Arial" 48 "#ffffff" 80 0)
           400 freshCanvas);
    try reflexivity.
  vm_compute. discriminate.
Defined.

End PreviewExamples.

Section EnginePreviewProps.
Local Open Scope string_scope.
Context (host : Host).

(** The preview of the transform-based engine shows the picture scaled
    so that its longer side is [maxSize] (a smaller picture is
    enlarged), with a text watermark drawn over it once, at the centre
    of its transform rescaled to the preview and with its font size
    multiplied by the preview scale.  The sides of the preview are whole
    numbers within one pixel of the scaled sides of the picture: each is
    less than one pixel above [maxSize], and one of them less than one
    pixel below it. *)
Theorem Engine_preview_scales_the_picture_and_the_text
    (source : SourceImageData) (img : Raster) (s : Settings.t) (t : Text.t)
    (tr : Transform.t) (maxSize : Q) (c : Canvas) :
  element source = Some img ->
  Settings.type s = "text" -> Settings.text s = Some t ->
  Settings.transform s = Some tr ->
  0 < naturalWidth img -> 0 < naturalHeight img -> 0 < maxSize ->
  let scale := Math_min (maxSize / naturalWidth img)
                 (maxSize / naturalHeight img) in
  exists pv c' st pw ph,
    EnginePreview.generatePreview host source s maxSize c = (Returned pv, c')
    /\ wholeNear pw (naturalWidth img * scale)
    /\ wholeNear ph (naturalHeight img * scale)
    /\ pv_pixels pv
       = [ClearRect 0 0 pw ph; DrawImage img 0 0 pw ph defaultPaint;
          FillText (Text.content t) 0 0 st]
    /\ font st = Some (mkFont (Text.size t * scale) (Text.font t) true)
    /\ (let a := Engine.actualTransform tr (Bounds.mk 0 0 pw ph) in
        matrix st = [Translate (fst (centreOf a)) (snd (centreOf a));
                     Rotate (Transform.rotation a)])
    /\ pv_width pv = pw /\ pv_height pv = ph
    /\ pw < maxSize + 1 /\ ph < maxSize + 1
    /\ (maxSize - 1 < pw \/ maxSize - 1 < ph).
Proof.
  intros Hsrc Hty Htx Htr Hw Hh Hm scale.
  set (pw := Math_round (naturalWidth img * scale)).
  set (ph := Math_round (naturalHeight img * scale)).
  destruct (preview_scale_fits _ _ _ Hw Hh Hm) as (F1 & F2 & F3).
  fold scale in F1, F2, F3.
  assert (Nw : wholeNear pw (naturalWidth img * scale))
    by (apply wholeNear_Math_round; reflexivity).
  assert (Nh : wholeNear ph (naturalHeight img * scale))
    by (apply wholeNear_Math_round; reflexivity).
  unfold EnginePreview.generatePreview, try_catch.
  unfold bind at 1. unfold prop. rewrite Hsrc. cbn [ret].
  unfold bind at 1. cbn [modify].
  unfold bind at 1. cbn [modify].
  unfold bind at 1. cbn [clearRect paint modify].
  unfold bind at 1. cbn [drawImage paint modify].
  fold scale. fold pw. fold ph.
  unfold bind at 1.
  unfold Engine.applyWatermark, applyWatermarkWith, try_catch.
  rewrite Hty. cbn [String.eqb Ascii.eqb Bool.eqb].
  unfold bind at 1. cbn [save modify].
  unfold bind at 1.
  match goal with
  | |- context [Engine.applyTextWatermark s ?b ?sf ?cv] =>
      destruct (Engine_text_paints s t tr b sf cv Htx Htr)
        as (st & E & Hmx & Hfont & _ & _)
  end.
  rewrite E. cbn [restore modify state saved painted freshCanvas app].
  unfold bind, toPngDataURL, ret. cbn [fst snd painted].
  exists {| pv_type := "image/png";
            pv_pixels := [ClearRect 0 0 pw ph;
                          DrawImage img 0 0 pw ph defaultPaint;
                          FillText (Text.content t) 0 0 st];
            pv_width := pw; pv_height := ph |}.
  eexists. exists st, pw, ph.
  split; [reflexivity|]. split; [exact Nw|]. split; [exact Nh|].
  split; [reflexivity|].
  split; [exact Hfont|]. split; [exact Hmx|].
  split; [reflexivity|]. split; [reflexivity|].
  destruct Nw as (_ & Lw & Uw), Nh as (_ & Lh & Uh).
  split; [lra|]. split; [lra|].
  destruct F3 as [F3|F3]; [left|right]; lra.
Qed.

End EnginePreviewProps.

Lemma Engine_preview_witness :
  let img := {| naturalWidth := 928; naturalHeight := 145;
                pixels := "photo"%string |} in
  let tr := {| Transform.x := 100; Transform.y := 50;
               Transform.width := 200; Transform.height := 60;
               Transform.rotation := 0;
               Transform.previewCanvasWidth := Some 800;
               Transform.previewCanvasHeight := Some 600 |} in
  let scale := Math_min (400 / 928) (400 / 145) in
  exists pv c' st pw ph,
    EnginePreview.generatePreview previewHost {| element := Some img |}
      previewCaption 400 freshCanvas = (Returned pv, c')
    /\ wholeNear pw (928 * scale)
    /\ wholeNear ph (145 * scale)
    /\ pv_pixels pv
       = [ClearRect 0 0 pw ph; DrawImage img 0 0 pw ph defaultPaint;
          FillText "Sample" 0 0 st]
    /\ font st = Some (mkFont (48 * scale) "Arial" true)
    /\ (let a := Engine.actualTransform tr (Bounds.mk 0 0 pw ph) in
        matrix st = [Translate (fst (centreOf a)) (snd (centreOf a));
                     Rotate (Transform.rotation a)])
    /\ pv_width pv = pw /\ pv_height pv = ph
    /\ pw < 400 + 1 /\ ph < 400 + 1
    /\ (400 - 1 < pw \/ 400 - 1 < ph).
Proof.
  exact (Engine_preview_scales_the_picture_and_the_text previewHost
           {| element := Some {| naturalWidth := 928; naturalHeight := 145;
                                 pixels := "photo"%string |} |}
           {| naturalWidth := 928; naturalHeight := 145;
              pixels := "photo"%string |}
           previewCaption
           (Text.mk "Sample" "Arial" 48 "#ffffff" 80 0)
           {| Transform.x := 100; Transform.y := 50;
              Transform.width := 200; Transform.height := 60;
              Transform.rotation := 0;
              Transform.previewCanvasWidth := Some 800;
              Transform.previewCanvasHeight := Some 600 |}
           400 freshCanvas eq_refl eq_refl eq_refl eq_refl
           eq_refl eq_refl eq_refl).
Defined.

(** ** Custom positions and the settings that the editor hands on *)

Section CustomPosition.
Local Open Scope string_scope.

Lemma unit_clamp (v : Q) :
  0 <= Math_max 0 (Math_min 1 v) <= 1
  /\ (0 <= v <= 1 -> Math_max 0 (Math_min 1 v) == v)
  /\ (v <= 0 -> Math_max 0 (Math_min 1 v) == 0)
  /\ (1 <= v -> Math_max 0 (Math_min 1 v) == 1).
Proof.
  destruct (Math_min_spec 1 v) as [[H1 E1]|[H1 E1]]; rewrite E1;
    [destruct (Math_max_spec 0 1) as [[H2 E2]|[H2 E2]]
    |destruct (Math_max_spec 0 v) as [[H2 E2]|[H2 E2]]];
    rewrite E2; repeat split; intros; lra.
Qed.

Lemma orQ_0 (v : Q) : orQ v 0 == v.
Proof.
  unfold orQ, truthyQ. destruct (Qeq_bool v 0) eqn:E; cbn [negb].
  - apply Qeq_bool_iff in E. now rewrite E.
  - reflexivity.
Qed.

(** With the preset [custom] the two coordinates address the centre of
    the watermark in thousandths of the bounds: the centre of the box
    that [calculatePosition] answers lies at [x/1000] of the width and
    [y/1000] of the height, coordinates outside 0..1000 are clamped to
    the nearer edge, and so the centre never leaves the bounds.  The
    scale factor only enters the half size that is subtracted. *)
Theorem Engine_custom_position_addresses_the_centre_in_thousandths
    (b : Bounds.t) (sz : Size) (sf : Q) (vx vy : JsVal) :
  0 <= Bounds.width b -> 0 <= Bounds.height b ->
  let p := Engine.calculatePosition
             (Some (Position.mk "custom" vx vy)) b sz sf in
  let x := Engine.numOf (withDefault vx 0) in
  let y := Engine.numOf (withDefault vy 0) in
  let cx := Engine.x p + sz_width sz * sf / 2 in
  let cy := Engine.y p + sz_height sz * sf / 2 in
  Bounds.x b <= cx <= Bounds.x b + Bounds.width b
  /\ Bounds.y b <= cy <= Bounds.y b + Bounds.height b
  /\ (0 <= x <= 1000 -> cx == Bounds.x b + Bounds.width b * (x / 1000))
  /\ (0 <= y <= 1000 -> cy == Bounds.y b + Bounds.height b * (y / 1000))
  /\ (x <= 0 -> cx == Bounds.x b)
  /\ (1000 <= x -> cx == Bounds.x b + Bounds.width b)
  /\ (y <= 0 -> cy == Bounds.y b)
  /\ (1000 <= y -> cy == Bounds.y b + Bounds.height b).
Proof.
  intros Hw Hh p x y cx cy.
  unfold cx, cy, p, Engine.calculatePosition.
  cbn [option_map Position.preset Position.x Position.y Engine.x Engine.y].
  fold x. fold y.
  destruct (unit_clamp (orQ x 0 / 1000)) as (R1 & I1 & L1 & U1).
  destruct (unit_clamp (orQ y 0 / 1000)) as (R2 & I2 & L2 & U2).
  pose proof (orQ_0 x) as Ex. pose proof (orQ_0 y) as Ey.
  set (nx := Math_max 0 (Math_min 1 (orQ x 0 / 1000))) in *.
  set (ny := Math_max 0 (Math_min 1 (orQ y 0 / 1000))) in *.
  set (ox := orQ x 0) in *. set (oy := orQ y 0) in *.
  assert (forall v, v / 1000 == v * (1 # 1000)) as D by (intro; field).
  rewrite !D in *.
  repeat split.
  - nra.
  - nra.
  - nra.
  - nra.
  - intros [X0 X1]. rewrite I1 by lra. rewrite Ex. ring.
  - intros [Y0 Y1]. rewrite I2 by lra. rewrite Ey. ring.
  - intros X. rewrite L1 by lra. ring.
  - intros X. rewrite U1 by lra. ring.
  - intros Y. rewrite L2 by lra. ring.
  - intros Y. rewrite U2 by lra. ring.
Qed.

Lemma Engine_custom_position_witness :
  let b := Bounds.mk 0 0 800 600 in
  let sz := {| sz_width := 200; sz_height := 100 |} in
  let p := Engine.calculatePosition
             (Some (Position.mk "custom" (JNum 250) (JNum 1500))) b sz 1 in
  let x := Engine.numOf (withDefault (JNum 250) 0) in
  let y := Engine.numOf (withDefault (JNum 1500) 0) in
  let cx := Engine.x p + sz_width sz * 1 / 2 in
  let cy := Engine.y p + sz_height sz * 1 / 2 in
  Bounds.x b <= cx <= Bounds.x b + Bounds.width b
  /\ Bounds.y b <= cy <= Bounds.y b + Bounds.height b
  /\ (0 <= x <= 1000 -> cx == Bounds.x b + Bounds.width b * (x / 1000))
  /\ (0 <= y <= 1000 -> cy == Bounds.y b + Bounds.height b * (y / 1000))
  /\ (x <= 0 -> cx == Bounds.x b)
  /\ (1000 <= x -> cx == Bounds.x b + Bounds.width b)
  /\ (y <= 0 -> cy == Bounds.y b)
  /\ (1000 <= y -> cy == Bounds.y b + Bounds.height b).
Proof.
  apply (Engine_custom_position_addresses_the_centre_in_thousandths
           (Bounds.mk 0 0 800 600) {| sz_width := 200; sz_height := 100 |} 1
           (JNum 250) (JNum 1500)); discriminate.
Defined.

End CustomPosition.

Section EditorSettings.
Local Open Scope string_scope.

(** The position that [getWatermarkSettingsFromTransform] writes into
    the settings of a watermark. *)
Definition editorPosition (this : App.Session) (wm : App.Watermark)
  : Position.t :=
  let t := App.transform wm in
  let cx := Transform.x t + Transform.width t / 2 in
  let cy := Transform.y t + Transform.height t / 2 in
  let canvasWidth := orQ (Bounds.width (App.canvasBounds this)) 800 in
  let canvasHeight := orQ (Bounds.height (App.canvasBounds this)) 600 in
  {| Position.preset := "custom";
     Position.x := JNum (Math_round (cx / canvasWidth * 1000));
     Position.y := JNum (Math_round (cy / canvasHeight * 1000)) |}.

(** The transform that it writes beside the position. *)
Definition editorTransform (this : App.Session) (wm : App.Watermark)
  : Transform.t :=
  let t := App.transform wm in
  {| Transform.x := Transform.x t; Transform.y := Transform.y t;
     Transform.width := Transform.width t;
     Transform.height := Transform.height t;
     Transform.rotation := orQ (Transform.rotation t) 0;
     Transform.previewCanvasWidth :=
       Some (orQ (Bounds.width (App.canvasBounds this)) 800);
     Transform.previewCanvasHeight :=
       Some (orQ (Bounds.height (App.canvasBounds this)) 600) |}.

Lemma toSettingsFromWatermark_places (this : App.Session)
    (wm : App.Watermark) (s : Settings.t) :
  App.toSettingsFromWatermark this wm = Returned s ->
  Settings.position s = Some (editorPosition this wm)
  /\ Settings.transform s = Some (editorTransform this wm)
  /\ Settings.type s = Settings.type (App.settings wm)
  /\ Settings.output s = Settings.output (App.settings wm).
Proof.
  unfold App.toSettingsFromWatermark.
  cbn [Settings.type Settings.text Settings.image].
  destruct (String.eqb (Settings.type (App.settings wm)) "text").
  - destruct (Settings.text (App.settings wm)) as [text|]; [|discriminate].
    destruct (App.calculateDynamicFontSize wm); try discriminate.
    intros E. inversion E; subst. repeat split.
  - destruct (String.eqb (Settings.type (App.settings wm)) "image").
    + destruct (App.cloneImage (Settings.image (App.settings wm)));
        [|discriminate].
      intros E. inversion E; subst. repeat split.
    + intros E. inversion E; subst. repeat split.
Qed.

Lemma orQ_positive (v d : Q) : 0 <= v -> 0 < d -> 0 < orQ v d.
Proof.
  intros Hv Hd. unfold orQ, truthyQ.
  destruct (Qeq_bool v 0) eqn:E; cbn [negb]; [assumption|].
  apply Qeq_bool_neq in E.
  destruct (Qlt_le_dec 0 v) as [P|P]; [assumption|].
  exfalso. apply E. lra.
Qed.

Lemma thousandth_in_range (c w : Q) :
  0 < w -> 0 <= c <= w ->
  0 <= Math_round (c / w * 1000) <= 1000.
Proof.
  intros Hw [H0 H1].
  assert (0 <= c / w) as A by (apply Qle_shift_div_l; lra).
  assert (c / w <= 1) as B by (apply Qle_shift_div_r; lra).
  pose proof (Math_round_integer 0) as R0.
  pose proof (Math_round_integer 1000) as R1.
  change (inject_Z 0) with 0 in R0. change (inject_Z 1000) with 1000 in R1.
  split.
  - apply Qle_trans with (Math_round 0); [rewrite R0; lra|].
    apply Math_round_le. set (q := c / w) in *. lra.
  - apply Qle_trans with (Math_round 1000); [|rewrite R1; lra].
    apply Math_round_le. set (q := c / w) in *. lra.
Qed.

(** The settings that the editor derives from a watermark carry the
    preset [custom].  The validator of the transform-based engine finds
    no fault with their position whenever the centre of the watermark
    lies on the preview canvas; the validator of the anchor-only engine
    rejects every one of them. *)
Theorem Editor_settings_are_custom_positions
    (this : App.Session) (wm : App.Watermark) (s : Settings.t) :
  App.toSettingsFromWatermark this wm = Returned s ->
  let t := App.transform wm in
  let cx := Transform.x t + Transform.width t / 2 in
  let cy := Transform.y t + Transform.height t / 2 in
  let W := orQ (Bounds.width (App.canvasBounds this)) 800 in
  let H := orQ (Bounds.height (App.canvasBounds this)) 600 in
  0 <= Bounds.width (App.canvasBounds this) ->
  0 <= Bounds.height (App.canvasBounds this) ->
  0 <= cx <= W -> 0 <= cy <= H ->
  (forall m, In m (positionMessages "custom") ->
             ~ In m (Validation.errors (Engine.validateSettings s)))
  /\ Validation.isValid (Legacy.validateSettings s) = false.
Proof.
  intros Hs t cx cy W H HW HH Hcx Hcy.
  destruct (toSettingsFromWatermark_places this wm s Hs) as (Hp & _).
  assert (0 < W) as PW by (apply orQ_positive; [assumption | reflexivity]).
  assert (0 < H) as PH by (apply orQ_positive; [assumption | reflexivity]).
  split.
  - intros m Hm Hin.
    pose proof (positionMessages_not_content _ _ Hm) as Hnc.
    destruct (validateContent s []) as [[[]| |] es0] eqn:Hvc.
    + rewrite (Engine_validateSettings_errors s _ es0 Hvc Hp) in Hin.
      rewrite (custom_in_range_no_errors (editorPosition this wm)
                 (Math_round (cx / W * 1000)) (Math_round (cy / H * 1000))
                 eq_refl eq_refl eq_refl
                 (thousandth_in_range cx W PW Hcx)
                 (thousandth_in_range cy H PH Hcy)),
        app_nil_r in Hin.
      destruct (validateContent_emits s _ _ _ Hvc) as (es' & -> & Hincl).
      apply Hnc. apply Hincl. exact Hin.
    + destruct (validateSettings_failed s) as [Hf _];
        [intros es; rewrite Hvc; discriminate|].
      rewrite Hf in Hin. destruct Hin as [<-|[]].
      cbn in Hm. intuition discriminate.
    + destruct (validateSettings_failed s) as [Hf _];
        [intros es; rewrite Hvc; discriminate|].
      rewrite Hf in Hin. destruct Hin as [<-|[]].
      cbn in Hm. intuition discriminate.
  - unfold Legacy.validateSettings, validationOf. unfold bind at 1.
    destruct (validateContent s []) as [[[]| |] es]; try reflexivity.
    unfold bind, prop. rewrite Hp. cbn.
    unfold push, modify. cbn. rewrite length_app. cbn.
    rewrite Nat.add_comm. reflexivity.
Qed.

End EditorSettings.

Section EditorExamples.
Local Open Scope string_scope.

Definition editorCaption : App.Watermark :=
  {| App.id := 1;
     App.settings :=
       {| Settings.type := "text";
          Settings.text := Some (Text.mk "Sample" "Arial" 48 "#ffffff" 80 0);
          Settings.image := None; Settings.position := None;
          Settings.transform := None;
          Settings.output := Some (Output.mk "png" 95) |};
     App.transform :=
       {| Transform.x := 300; Transform.y := 270;
          Transform.width := 200; Transform.height := 60;
          Transform.rotation := 15;
          Transform.previewCanvasWidth := None;
          Transform.previewCanvasHeight := None |};
     App.zIndex := 1;
     App.scaling :=
       {| App.baseFontSize := Some 48; App.baseWidth := 200;
          App.baseHeight := 60; App.aspectRatio := None;
          App.minFontSize := 8; App.maxFontSize := 200;
          App.fontScaleFactor := 1; App.maintainAspectRatio := false |} |}.

Definition editorSession : App.Session :=
  {| App.watermarks := [editorCaption]; App.watermarkIdCounter := 1;
     App.canvasBounds := Bounds.mk 0 0 800 600;
     App.watermarkSettings := App.settings editorCaption |}.

Definition editorCaptionSettings : Settings.t :=
  match App.toSettingsFromWatermark editorSession editorCaption with
  | Returned s => s
  | _ => App.settings editorCaption
  end.

Lemma Editor_settings_witness :
  (forall m, In m (positionMessages "custom") ->
             ~ In m (Validation.errors
                       (Engine.validateSettings editorCaptionSettings)))
  /\ Validation.isValid (Legacy.validateSettings editorCaptionSettings)
     = false.
Proof.
  apply (Editor_settings_are_custom_positions editorSession editorCaption
           editorCaptionSettings eq_refl);
    repeat split; vm_compute; discriminate.
Defined.

End EditorExamples.

Section ExportConsistency.
Local Open Scope string_scope.
Context (host : Host).

(** A text watermark of the editor is painted on the exported picture
    once, about the point that lies at the same fractions of the width
    and of the height as the centre of its box on the preview canvas,
    turned by its rotation; the font size is a whole number within one
    of the font size of the editor, whatever the size of the picture. *)
Theorem Editor_text_watermark_keeps_its_relative_centre_in_the_export
    (this : App.Session) (wm : App.Watermark) (t : Text.t)
    (b : Bounds.t) (c : Canvas) :
  Settings.type (App.settings wm) = "text" ->
  Settings.text (App.settings wm) = Some t ->
  let tr := App.transform wm in
  let cx := Transform.x tr + Transform.width tr / 2 in
  let cy := Transform.y tr + Transform.height tr / 2 in
  let W := orQ (Bounds.width (App.canvasBounds this)) 800 in
  let H := orQ (Bounds.height (App.canvasBounds this)) 600 in
  exists s st size px X Y,
    App.toSettingsFromWatermark this wm = Returned s
    /\ Engine.applyWatermark host s b 1 c
       = (Returned tt,
          {| state := state c; saved := saved c;
             painted := painted c ++ [FillText (Text.content t) 0 0 st] |})
    /\ App.calculateDynamicFontSize wm = Returned size
    /\ wholeNear px size
    /\ font st = Some (mkFont (px * 1) (Text.font t) true)
    /\ matrix st
       = (matrix (state c)
          ++ [Translate X Y; Rotate (orQ (Transform.rotation tr) 0)])%list
    /\ X == cx * (Bounds.width b / W)
    /\ Y == cy * (Bounds.height b / H).
Proof.
  intros Hty Htx tr cx cy W H.
  assert (exists size s,
             App.calculateDynamicFontSize wm = Returned size
             /\ App.toSettingsFromWatermark this wm = Returned s
             /\ Settings.text s
                = Some (Text.mk (Text.content t) (Text.font t)
                          (Math_round size) (Text.color t) (Text.opacity t)
                          (Math_round (orQ (Transform.rotation tr) 0))))
    as (size & s & Hsize & Hs & Htext).
  { assert (exists size, App.calculateDynamicFontSize wm = Returned size)
      as (size & Hsize).
    { unfold App.calculateDynamicFontSize. rewrite Htx.
      destruct (negb _ || negb _); eexists; reflexivity. }
    exists size. unfold App.toSettingsFromWatermark.
    cbn [Settings.type Settings.text]. rewrite Hty, Htx.
    cbn [String.eqb Ascii.eqb Bool.eqb]. rewrite Hsize.
    eexists. split; [reflexivity|]. split; reflexivity. }
  destruct (toSettingsFromWatermark_places this wm s Hs)
    as (_ & Htr & Hty' & _).
  rewrite Hty in Hty'.
  exists s.
  unfold Engine.applyWatermark, applyWatermarkWith, try_catch.
  rewrite Hty'. cbn [String.eqb Ascii.eqb Bool.eqb].
  unfold bind at 1. cbn [save modify].
  unfold bind at 1.
  match goal with
  | |- context [Engine.applyTextWatermark s ?bb ?sf ?cv] =>
      destruct (Engine_text_paints s _ _ bb sf cv Htext Htr)
        as (st & E & Hmx & Hfont & _ & _)
  end.
  rewrite E. cbn [restore modify state saved painted].
  exists st, size, (Math_round size).
  exists (fst (centreOf (Engine.actualTransform (editorTransform this wm) b))).
  exists (snd (centreOf (Engine.actualTransform (editorTransform this wm) b))).
  split; [exact Hs|].
  split; [reflexivity|]. split; [exact Hsize|].
  split; [apply wholeNear_Math_round; reflexivity|].
  split; [exact Hfont|].
  assert (truthyQ W = true /\ truthyQ H = true) as [TW TH].
  { unfold W, H, orQ. split.
    - destruct (truthyQ (Bounds.width (App.canvasBounds this))) eqn:T;
        [exact T | reflexivity].
    - destruct (truthyQ (Bounds.height (App.canvasBounds this))) eqn:T;
        [exact T | reflexivity]. }
  assert (~ W == 0 /\ ~ H == 0) as [NW NH]
    by (split; apply truthyQ_true; assumption).
  unfold Engine.actualTransform, editorTransform in *.
  cbn [Transform.previewCanvasWidth Transform.previewCanvasHeight] in *.
  fold W in Hmx |- *. fold H in Hmx |- *. rewrite TW, TH in *.
  cbn [andb Transform.x Transform.y Transform.width Transform.height
       Transform.rotation centreOf fst snd] in *.
  split; [exact Hmx|].
  fold tr. unfold cx, cy. split; field; assumption.
Qed.

End ExportConsistency.

Section ExportExample.
Local Open Scope string_scope.

(** A caption of 25 pixels in a box that was narrowed from 200 to 116
    pixels: the font size of the editor is 14.5. *)
Definition narrowedCaption : App.Watermark :=
  {| App.id := 1;
     App.settings :=
       {| Settings.type := "text";
          Settings.text := Some (Text.mk "Sample" "Arial" 25 "#ffffff" 80 0);
          Settings.image := None; Settings.position := None;
          Settings.transform := None;
          Settings.output := Some (Output.mk "png" 95) |};
     App.transform :=
       {| Transform.x := 300; Transform.y := 270;
          Transform.width := 116; Transform.height := 60;
          Transform.rotation := 15;
          Transform.previewCanvasWidth := None;
          Transform.previewCanvasHeight := None |};
     App.zIndex := 1;
     App.scaling :=
       {| App.baseFontSize := Some 25; App.baseWidth := 200;
          App.baseHeight := 60; App.aspectRatio := None;
          App.minFontSize := 8; App.maxFontSize := 200;
          App.fontScaleFactor := 1; App.maintainAspectRatio := false |} |}.

Lemma Editor_export_witness :
  let tr := App.transform narrowedCaption in
  let cx := Transform.x tr + Transform.width tr / 2 in
  let cy := Transform.y tr + Transform.height tr / 2 in
  let W := orQ (Bounds.width (App.canvasBounds editorSession)) 800 in
  let H := orQ (Bounds.height (App.canvasBounds editorSession)) 600 in
  let b := Bounds.mk 0 0 1600 1200 in
  exists s st size px X Y,
    App.toSettingsFromWatermark editorSession narrowedCaption = Returned s
    /\ Engine.applyWatermark previewHost s b 1 freshCanvas
       = (Returned tt,
          {| state := state freshCanvas; saved := saved freshCanvas;
             painted := painted freshCanvas ++ [FillText "Sample" 0 0 st] |})
    /\ App.calculateDynamicFontSize narrowedCaption = Returned size
    /\ wholeNear px size
    /\ font st = Some (mkFont (px * 1) "Arial" true)
    /\ matrix st
       = (matrix (state freshCanvas)
          ++ [Translate X Y; Rotate (orQ (Transform.rotation tr) 0)])%list
    /\ X == cx * (Bounds.width b / W)
    /\ Y == cy * (Bounds.height b / H).
Proof.
  exact (Editor_text_watermark_keeps_its_relative_centre_in_the_export
           previewHost editorSession narrowedCaption
           (Text.mk "Sample" "Arial" 25 "#ffffff" 80 0)
           (Bounds.mk 0 0 1600 1200) freshCanvas
           eq_refl eq_refl).
Defined.
End ExportExample.

(** ** Templates *)

Section ValueInduction.
Variable P : Value -> Prop.
Hypothesis HUndefined : P VUndefined.
Hypothesis HNull : P VNull.
Hypothesis HBool : forall b, P (VBool b).
Hypothesis HNum : forall q, P (VNum q).
Hypothesis HStr : forall s, P (VStr s).
Hypothesis HArr : forall items, Forall P items -> P (VArr items).
Hypothesis HObj :
  forall fields, Forall (fun kv => P (snd kv)) fields -> P (VObj fields).

Fixpoint Value_nested_ind (v : Value) : P v :=
  match v with
  | VUndefined => HUndefined
  | VNull => HNull
  | VBool b => HBool b
  | VNum q => HNum q
  | VStr s => HStr s
  | VArr items =>
      HArr items
        ((fix all (l : list Value) : Forall P l :=
            match l with
            | [] => Forall_nil P
            | x :: r => Forall_cons x (Value_nested_ind x) (all r)
            end) items)
  | VObj fields =>
      HObj fields
        ((fix all (l : list (string * Value))
            : Forall (fun kv => P (snd kv)) l :=
            match l with
            | [] => Forall_nil _
            | kv :: r => Forall_cons kv (Value_nested_ind (snd kv)) (all r)
            end) fields)
  end.
End ValueInduction.

Section CloneProps.

Lemma clone_defined (v : Value) : v <> VUndefined -> Json.clone v <> VUndefined.
Proof. destruct v; cbn; congruence. Qed.

(** A value that has been through [JSON.stringify] and [JSON.parse]
    comes back unchanged from a second round. *)
Lemma clone_idempotent (v : Value) : Json.clone (Json.clone v) = Json.clone v.
Proof.
  induction v as [| | | | |items IH|fields IH] using Value_nested_ind;
    try reflexivity.
  - cbn [Json.clone]. f_equal. rewrite map_map.
    induction IH as [|x r Hx _ IHr]; [reflexivity|].
    cbn [map]. f_equal; [|exact IHr].
    destruct x; try reflexivity; try exact Hx.
  - cbn [Json.clone]. f_equal.
    induction IH as [|[k x] r Hx _ IHr]; [reflexivity|].
    cbn [snd] in Hx.
    destruct x; try exact IHr; cbn; f_equal; try exact IHr;
      f_equal; exact Hx.
Qed.

Lemma cloneSettings_idempotent (v : Value) :
  Templates.cloneSettings (Templates.cloneSettings v)
  = Templates.cloneSettings v.
Proof.
  destruct v; try reflexivity;
    unfold Templates.cloneSettings;
    match goal with
    | |- context [Json.clone ?x] =>
        destruct (Json.clone x) eqn:E;
          try (cbn in E; discriminate E);
          rewrite <- ?E; try apply clone_idempotent
    end.
Qed.

End CloneProps.

Section ListHelpers.
Context {A : Type}.

Lemma findIndex_Some (p : A -> bool) (l : list A) (i : nat) :
  Templates.findIndex p l = Some i ->
  exists a, nth_error l i = Some a /\ p a = true
            /\ Forall (fun b => p b = false) (firstn i l).
Proof.
  revert i. induction l as [|b l IH]; intros i; cbn; [discriminate|].
  destruct (p b) eqn:E.
  - intros H. inversion H; subst. exists b. cbn. auto.
  - destruct (Templates.findIndex p l) as [j|]; [|discriminate].
    cbn. intros H. inversion H; subst.
    destruct (IH j eq_refl) as (a & Hn & Hp & Hf).
    exists a. cbn. auto.
Qed.

Lemma findIndex_None (p : A -> bool) (l : list A) :
  Templates.findIndex p l = None -> Forall (fun b => p b = false) l.
Proof.
  induction l as [|b l IH]; cbn; [constructor|].
  destruct (p b) eqn:E; [discriminate|].
  destruct (Templates.findIndex p l); [discriminate|].
  intros _. constructor; auto.
Qed.

Lemma map_setAt {B} (f : A -> B) (i : nat) (v a : A) (l : list A) :
  nth_error l i = Some a -> f v = f a ->
  map f (Templates.setAt i v l) = map f l.
Proof.
  revert i. induction l as [|b l IH]; intros [|i]; cbn; try discriminate.
  - intros H E. inversion H; subst. now rewrite E.
  - intros H E. f_equal. now apply IH.
Qed.

Lemma length_setAt (i : nat) (v : A) (l : list A) :
  List.length (Templates.setAt i v l) = List.length l.
Proof.
  revert i. induction l as [|b l IH]; intros [|i]; cbn; auto.
Qed.

Lemma nth_error_setAt (i : nat) (v a : A) (l : list A) :
  nth_error l i = Some a -> nth_error (Templates.setAt i v l) i = Some v.
Proof.
  revert i. induction l as [|b l IH]; intros [|i]; cbn; try discriminate; auto.
Qed.

Lemma firstn_setAt (i : nat) (v : A) (l : list A) :
  firstn i (Templates.setAt i v l) = firstn i l.
Proof.
  revert i. induction l as [|b l IH]; intros [|i]; cbn; auto.
  now rewrite IH.
Qed.

Lemma removeAt_split (i : nat) (a : A) (l : list A) :
  nth_error l i = Some a ->
  l = (firstn i l ++ a :: skipn (S i) l)%list
  /\ Templates.removeAt i l = (firstn i l ++ skipn (S i) l)%list.
Proof.
  revert i. induction l as [|b l IH]; intros [|i]; cbn; try discriminate.
  - intros H. inversion H; subst. auto.
  - intros H. destruct (IH i H) as [E1 E2]. split; f_equal; assumption.
Qed.

Lemma insertSorted_permutation (f : A -> A -> Z) (a : A) (l : list A) :
  Permutation (a :: l) (insertSorted f a l).
Proof.
  induction l as [|b l IH]; cbn; [reflexivity|].
  destruct (f a b <=? 0)%Z; [reflexivity|].
  rewrite perm_swap. now constructor.
Qed.

Lemma array_sort_permutation (f : A -> A -> Z) (l : list A) :
  Permutation l (array_sort f l).
Proof.
  induction l as [|a l IH]; cbn; [reflexivity|].
  rewrite <- insertSorted_permutation. now constructor.
Qed.

Lemma NoDup_prefix (n : nat) (l : list A) : NoDup l -> NoDup (firstn n l).
Proof.
  intros H. rewrite <- (firstn_skipn n l) in H.
  now apply NoDup_app_remove_r in H.
Qed.

End ListHelpers.

Section TemplateRuns.
Local Open Scope string_scope.

Definition validName (name : string) : Prop :=
  truthyS name = true /\ trim name <> "".

Definition validTemplateSettings (settings : Value) : Prop :=
  Validation.isValid (Templates.validateTemplateSettings settings) = true.

Definition byName (n : string) (t : Templates.Template) : bool :=
  String.eqb (Templates.name t) n.

Definition fresh (name : string) (settings : Value) (newId : string)
    (createdNow modifiedNow : Z) : Templates.Template :=
  {| Templates.id := newId; Templates.name := trim name;
     Templates.settings := Templates.cloneSettings settings;
     Templates.created := createdNow; Templates.modified := modifiedNow;
     Templates.version := "1.0"; Templates.lastAccessed := None |}.

Definition replacing (existing : Templates.Template) (name : string)
    (settings : Value) (modifiedNow : Z) : Templates.Template :=
  {| Templates.id := Templates.id existing; Templates.name := trim name;
     Templates.settings := Templates.cloneSettings settings;
     Templates.created := Templates.created existing;
     Templates.modified := modifiedNow;
     Templates.version := "1.0"; Templates.lastAccessed := None |}.

(** The template that a successful [saveTemplate] answers and the array
    that it leaves, from the array that it finds. *)
Definition afterSave (name : string) (settings : Value) (newId : string)
    (createdNow modifiedNow : Z) (l : list Templates.Template)
  : Templates.Template * list Templates.Template :=
  match Templates.findIndex (byName (trim name)) l with
  | Some i =>
      match nth_error l i with
      | Some existing =>
          (replacing existing name settings modifiedNow,
           Templates.setAt i (replacing existing name settings modifiedNow) l)
      | None => (fresh name settings newId createdNow modifiedNow, l)
      end
  | None =>
      let l' := (l ++ [fresh name settings newId createdNow modifiedNow])%list in
      (fresh name settings newId createdNow modifiedNow,
       if Nat.ltb Templates.maxTemplates (List.length l')
       then firstn Templates.maxTemplates
              (array_sort Templates.byModifiedDescending l')
       else l')
  end.

Lemma saveTemplate_run name settings newId createdNow modifiedNow
    (this : Templates.TemplateManager) :
  validName name -> validTemplateSettings settings ->
  let r := afterSave name settings newId createdNow modifiedNow
             (Templates.templates this) in
  Templates.saveTemplate name settings newId createdNow modifiedNow this
  = if Templates.writable (Templates.storage this) then
      (Returned (fst r),
       {| Templates.templates := snd r;
          Templates.storage :=
            {| Templates.item := Some (snd r);
               Templates.writable := true |} |})
    else
      (Thrown (mkError "Failed to save template: Failed to save templates"),
       {| Templates.templates := snd r;
          Templates.storage := Templates.storage this |}).
Proof.
  intros [Hn1 Hn2] Hv r.
  unfold Templates.saveTemplate, try_catch.
  unfold bind at 1. rewrite Hn1.
  assert (String.eqb (trim name) "" = false) as ->
    by (now apply String.eqb_neq).
  cbn [negb orb when ret].
  unfold bind at 1. unfold validTemplateSettings in Hv. rewrite Hv.
  cbn [negb when ret].
  unfold bind at 1. cbn [Templates.get].
  unfold bind at 1.
  subst r. unfold afterSave. fold (byName (trim name)).
  destruct this as [l [it w]]. cbn [Templates.templates Templates.storage
                                     Templates.writable].
  destruct (Templates.findIndex (byName (trim name)) l) as [i|] eqn:Ef.
  - destruct (findIndex_Some _ _ _ Ef) as (a & Hnth & _ & _).
    rewrite Hnth. cbn [fst snd].
    unfold bind, Templates.setTemplates, modify, ret, Templates.saveTemplates,
      try_catch, Templates.get, throw.
    cbn [Templates.templates Templates.storage Templates.writable].
    destruct w; reflexivity.
  - cbn [fst snd].
    unfold bind at 1. unfold bind at 1.
    cbn [Templates.setTemplates modify Templates.templates Templates.storage].
    unfold bind at 1. cbn [Templates.get].
    unfold bind at 1. cbn [Templates.templates].
    destruct (Nat.ltb Templates.maxTemplates _);
      cbn [when Templates.setTemplates modify ret Templates.templates
           Templates.storage];
      unfold bind, Templates.saveTemplates, try_catch, Templates.get, modify,
        throw, ret;
      cbn [Templates.templates Templates.storage Templates.writable];
      destruct w; reflexivity.
Qed.

Lemma saveTemplate_rejects name settings newId createdNow modifiedNow
    (this : Templates.TemplateManager) :
  ~ (validName name /\ validTemplateSettings settings) ->
  exists e,
    Templates.saveTemplate name settings newId createdNow modifiedNow this
    = (Thrown e, this).
Proof.
  intros H. unfold Templates.saveTemplate, try_catch.
  unfold bind at 1.
  destruct (negb (truthyS name) || String.eqb (trim name) "") eqn:En.
  - cbn [when throw]. eexists. reflexivity.
  - cbn [when ret]. unfold bind at 1.
    destruct (Validation.isValid (Templates.validateTemplateSettings settings))
      eqn:Ev.
    + exfalso. apply H. apply orb_false_iff in En. destruct En as [E1 E2].
      apply negb_false_iff in E1. apply String.eqb_neq in E2.
      repeat split; assumption.
    + cbn [negb when throw]. eexists. reflexivity.
Qed.

Lemma classic_valid name settings :
  (validName name /\ validTemplateSettings settings)
  \/ ~ (validName name /\ validTemplateSettings settings).
Proof.
  unfold validName, validTemplateSettings.
  destruct (truthyS name); [|right; intros [[H _] _]; discriminate].
  destruct (string_dec (trim name) "") as [E|E];
    [right; intros [[_ H] _]; contradiction|].
  destruct (Validation.isValid (Templates.validateTemplateSettings settings));
    [left; auto | right; intros [_ H]; discriminate].
Qed.

End TemplateRuns.

Section TemplateProps.
Local Open Scope string_scope.

(** What the manager maintains: no two templates of the same name, at
    most [maxTemplates] of them. *)
Definition wellKept (this : Templates.TemplateManager) : Prop :=
  NoDup (map Templates.name (Templates.templates this))
  /\ (List.length (Templates.templates this) <= Templates.maxTemplates)%nat.

Lemma saved_wellKept name settings newId createdNow modifiedNow l :
  NoDup (map Templates.name l) ->
  (List.length l <= Templates.maxTemplates)%nat ->
  let l' := snd (afterSave name settings newId createdNow modifiedNow l) in
  NoDup (map Templates.name l')
  /\ (List.length l' <= Templates.maxTemplates)%nat.
Proof.
  intros Hnd Hlen. unfold afterSave.
  destruct (Templates.findIndex (byName (trim name)) l) as [i|] eqn:Ef.
  - destruct (findIndex_Some _ _ _ Ef) as (a & Hnth & Hp & _).
    rewrite Hnth. cbn [snd].
    apply String.eqb_eq in Hp.
    rewrite (map_setAt Templates.name i _ a l Hnth) by (symmetry; exact Hp).
    rewrite length_setAt. auto.
  - cbn [snd].
    pose proof (findIndex_None _ _ Ef) as Hnone.
    assert (NoDup (map Templates.name
                     (l ++ [fresh name settings newId createdNow modifiedNow])))
      as Hnd'.
    { rewrite map_app. cbn [map fresh Templates.name].
      apply NoDup_app; [assumption | repeat constructor; intros [] |].
      intros x Hx [<-|[]].
      apply in_map_iff in Hx. destruct Hx as (t & Ht & Hin).
      rewrite Forall_forall in Hnone. specialize (Hnone t Hin).
      unfold byName in Hnone. apply String.eqb_neq in Hnone. contradiction. }
    destruct (Nat.ltb Templates.maxTemplates _) eqn:El.
    + split.
      * rewrite <- firstn_map. apply NoDup_prefix.
        eapply Permutation_NoDup; [|exact Hnd'].
        apply Permutation_map. apply array_sort_permutation.
      * rewrite length_firstn. apply Nat.le_min_l.
    + apply Nat.ltb_ge in El. auto.
Qed.

Definition loaded (now : Z) (t : Templates.Template) : Templates.Template :=
  {| Templates.id := Templates.id t; Templates.name := Templates.name t;
     Templates.settings := Templates.cloneSettings (Templates.settings t);
     Templates.created := Templates.created t;
     Templates.modified := Templates.modified t;
     Templates.version := Templates.version t;
     Templates.lastAccessed := Some now |}.

Lemma run_load identifier now (this : Templates.TemplateManager) :
  let l := Templates.templates this in
  if negb (truthyS identifier) then
    Templates.loadTemplate identifier now this
    = (Thrown (mkError
                 "Failed to load template: Template identifier is required"),
       this)
  else
    match Templates.findIndex (Templates.matches identifier) l with
    | None =>
        Templates.loadTemplate identifier now this
        = (Thrown (mkError ("Failed to load template: Template not found: "
                            ++ identifier)), this)
    | Some i =>
        exists t,
          nth_error l i = Some t /\
          Templates.loadTemplate identifier now this
          = let l' := Templates.setAt i (Templates.touch now t) l in
            if Templates.writable (Templates.storage this) then
              (Returned (loaded now t),
               {| Templates.templates := l';
                  Templates.storage :=
                    {| Templates.item := Some l';
                       Templates.writable := true |} |})
            else
              (Thrown (mkError
                         "Failed to load template: Failed to save templates"),
               {| Templates.templates := l';
                  Templates.storage := Templates.storage this |})
    end.
Proof.
  intros l. destruct this as [l0 [it w]]. cbn in l. subst l.
  unfold Templates.loadTemplate, try_catch, bind, when, Templates.get,
    Templates.setTemplates, modify, Templates.saveTemplates, try_catch, bind,
    Templates.get, throw, ret.
  cbv beta iota delta [Templates.templates Templates.storage
                       Templates.writable].
  destruct (negb (truthyS identifier)); [reflexivity|].
  destruct (Templates.findIndex (Templates.matches identifier) l0) as [i|] eqn:Ef.
  - destruct (findIndex_Some _ _ _ Ef) as (a & Hnth & _ & _).
    exists a. split; [exact Hnth|]. rewrite Hnth.
    cbn [Templates.templates Templates.storage Templates.writable].
    destruct w; reflexivity.
  - reflexivity.
Qed.

Lemma run_delete identifier (this : Templates.TemplateManager) :
  let l := Templates.templates this in
  match Templates.findIndex (Templates.matches identifier) l with
  | None =>
      Templates.deleteTemplate identifier this
      = (Thrown (mkError ("Failed to delete template: Template not found: "
                          ++ identifier)), this)
  | Some i =>
      exists t,
        nth_error l i = Some t /\
        Templates.deleteTemplate identifier this
        = if Templates.writable (Templates.storage this) then
            (Returned t,
             {| Templates.templates := Templates.removeAt i l;
                Templates.storage :=
                  {| Templates.item := Some (Templates.removeAt i l);
                     Templates.writable := true |} |})
          else
            (Thrown (mkError
                       "Failed to delete template: Failed to save templates"),
             {| Templates.templates := Templates.removeAt i l;
                Templates.storage := Templates.storage this |})
  end.
Proof.
  intros l. destruct this as [l0 [it w]]. cbn in l. subst l.
  unfold Templates.deleteTemplate, try_catch, bind, Templates.get,
    Templates.setTemplates, modify, Templates.saveTemplates, try_catch, bind,
    Templates.get, throw, ret.
  cbv beta iota delta [Templates.templates Templates.storage
                       Templates.writable].
  destruct (Templates.findIndex (Templates.matches identifier) l0) as [i|] eqn:Ef.
  - destruct (findIndex_Some _ _ _ Ef) as (a & Hnth & _ & _).
    exists a. split; [exact Hnth|]. rewrite Hnth.
    destruct w; reflexivity.
  - reflexivity.
Qed.

Lemma length_removeAt (i : nat) (l : list Templates.Template) :
  (List.length (Templates.removeAt i l) <= List.length l)%nat.
Proof.
  revert i. induction l as [|a l IH]; intros [|i]; cbn; auto.
  specialize (IH i). lia.
Qed.

Lemma In_removeAt (i : nat) (l : list Templates.Template) (n : string) :
  In n (map Templates.name (Templates.removeAt i l)) ->
  In n (map Templates.name l).
Proof.
  revert i. induction l as [|a l IH]; intros [|i]; cbn; try tauto.
  intros [H|H]; [tauto | right; eauto].
Qed.

Lemma removeAt_wellKept (i : nat) (l : list Templates.Template) :
  NoDup (map Templates.name l) ->
  (List.length l <= Templates.maxTemplates)%nat ->
  NoDup (map Templates.name (Templates.removeAt i l))
  /\ (List.length (Templates.removeAt i l) <= Templates.maxTemplates)%nat.
Proof.
  intros Hnd Hlen. split; [|pose proof (length_removeAt i l); lia].
  clear Hlen. revert i. induction l as [|a l IH]; intros [|i]; cbn;
    try assumption.
  - now inversion Hnd.
  - inversion Hnd as [|x xs Hnotin Hnd']; subst.
    constructor; [|now apply IH].
    intro Hin. apply Hnotin. eapply In_removeAt. exact Hin.
Qed.

(** Every operation of the manager keeps its templates distinct by
    name and at most [maxTemplates] in number, whether it returns or
    throws. *)
Theorem Templates_stay_distinct_by_name_and_bounded
    (this : Templates.TemplateManager) name settings newId createdNow
    modifiedNow identifier now :
  wellKept this ->
  wellKept (snd (Templates.saveTemplate name settings newId createdNow
                   modifiedNow this))
  /\ wellKept (snd (Templates.loadTemplate identifier now this))
  /\ wellKept (snd (Templates.deleteTemplate identifier this))
  /\ wellKept (snd (Templates.clearAllTemplates this)).
Proof.
  intros [Hnd Hlen]. repeat split.
  - destruct (classic_valid name settings) as [[Hn Hv]|Hno].
    + rewrite (saveTemplate_run _ _ _ _ _ _ Hn Hv).
      destruct (Templates.writable (Templates.storage this)); cbn [snd];
        apply saved_wellKept; assumption.
    + destruct (saveTemplate_rejects name settings newId createdNow
                  modifiedNow this Hno) as (e & ->). exact Hnd.
  - destruct (classic_valid name settings) as [[Hn Hv]|Hno].
    + rewrite (saveTemplate_run _ _ _ _ _ _ Hn Hv).
      destruct (Templates.writable (Templates.storage this)); cbn [snd];
        apply saved_wellKept; assumption.
    + destruct (saveTemplate_rejects name settings newId createdNow
                  modifiedNow this Hno) as (e & ->). exact Hlen.
  - pose proof (run_load identifier now this) as R. cbv zeta in R.
    destruct (negb (truthyS identifier)); [rewrite R; exact Hnd|].
    destruct (Templates.findIndex _ _) as [i|]; [|rewrite R; exact Hnd].
    destruct R as (t & Hnth & ->).
    destruct (Templates.writable (Templates.storage this));
      cbn [snd Templates.templates];
      now rewrite (map_setAt Templates.name i _ t _ Hnth) by reflexivity.
  - pose proof (run_load identifier now this) as R. cbv zeta in R.
    destruct (negb (truthyS identifier)); [rewrite R; exact Hlen|].
    destruct (Templates.findIndex _ _) as [i|]; [|rewrite R; exact Hlen].
    destruct R as (t & Hnth & ->).
    destruct (Templates.writable (Templates.storage this));
      cbn [snd Templates.templates]; now rewrite length_setAt.
  - pose proof (run_delete identifier this) as R. cbv zeta in R.
    destruct (Templates.findIndex _ _) as [i|].
    + destruct R as (t & _ & ->).
      destruct (Templates.writable (Templates.storage this)); cbn [snd];
        apply removeAt_wellKept; assumption.
    + rewrite R. exact Hnd.
  - pose proof (run_delete identifier this) as R. cbv zeta in R.
    destruct (Templates.findIndex _ _) as [i|].
    + destruct R as (t & _ & ->).
      destruct (Templates.writable (Templates.storage this)); cbn [snd];
        apply removeAt_wellKept; assumption.
    + rewrite R. exact Hlen.
  - unfold Templates.clearAllTemplates, try_catch, bind,
      Templates.setTemplates, Templates.saveTemplates, try_catch, bind,
      Templates.get, modify, throw.
    cbn [Templates.templates Templates.storage].
    destruct (Templates.writable (Templates.storage this)); cbn; constructor.
  - unfold Templates.clearAllTemplates, try_catch, bind,
      Templates.setTemplates, Templates.saveTemplates, try_catch, bind,
      Templates.get, modify, throw.
    cbn [Templates.templates Templates.storage].
    destruct (Templates.writable (Templates.storage this)); cbn;
      apply Nat.le_0_l.
Qed.

End TemplateProps.

Section TemplateRoundTrip.
Local Open Scope string_scope.

Lemma findIndex_at {A} (p : A -> bool) (l : list A) (i : nat) (a : A) :
  Forall (fun b => p b = false) (firstn i l) ->
  nth_error l i = Some a -> p a = true ->
  Templates.findIndex p l = Some i.
Proof.
  revert i. induction l as [|b l IH]; intros [|i]; cbn; try discriminate.
  - intros _ H Hp. inversion H; subst. now rewrite Hp.
  - intros Hf Hn Hp. inversion Hf as [|x xs Hb Hf']; subst.
    rewrite Hb. now rewrite (IH i Hf' Hn Hp).
Qed.

Lemma truthyS_nonempty (s : string) : s <> "" -> truthyS s = true.
Proof. destruct s; [congruence | reflexivity]. Qed.

Lemma saved_found name settings newId createdNow modifiedNow
    (l : list Templates.Template) :
  (List.length l < Templates.maxTemplates)%nat ->
  Forall (fun t => Templates.id t <> trim name) l ->
  let r := afterSave name settings newId createdNow modifiedNow l in
  exists i,
    Templates.findIndex (Templates.matches (trim name)) (snd r) = Some i
    /\ nth_error (snd r) i = Some (fst r)
    /\ Templates.name (fst r) = trim name
    /\ Templates.settings (fst r) = Templates.cloneSettings settings.
Proof.
  intros Hlen Hid. unfold afterSave.
  assert (forall pre : list Templates.Template,
             Forall (fun t => Templates.id t <> trim name) pre ->
             Forall (fun b => byName (trim name) b = false) pre ->
             Forall (fun b => Templates.matches (trim name) b = false) pre)
    as Hpre.
  { intros pre H1 H2. rewrite Forall_forall in *. intros t Ht.
    unfold Templates.matches. specialize (H2 t Ht). unfold byName in H2.
    rewrite H2. specialize (H1 t Ht). apply String.eqb_neq in H1.
    now rewrite H1. }
  destruct (Templates.findIndex (byName (trim name)) l) as [i|] eqn:Ef.
  - destruct (findIndex_Some _ _ _ Ef) as (a & Hnth & Hp & Hf).
    rewrite Hnth. cbn [fst snd]. exists i.
    pose proof (nth_error_setAt i (replacing a name settings modifiedNow) a l
                  Hnth) as Hn'.
    repeat split; try assumption.
    apply (findIndex_at _ _ i (replacing a name settings modifiedNow)).
    + rewrite firstn_setAt. apply Hpre; [|assumption].
      rewrite Forall_forall in *. intros t Ht. apply Hid.
      rewrite <- (firstn_skipn i l). apply in_or_app. now left.
    + assumption.
    + unfold Templates.matches. cbn [Templates.name replacing].
      rewrite String.eqb_refl. apply orb_true_r.
  - pose proof (findIndex_None _ _ Ef) as Hnone.
    assert (Nat.ltb Templates.maxTemplates
              (List.length (l ++ [fresh name settings newId createdNow
                                    modifiedNow])) = false) as ->.
    { apply Nat.ltb_ge. rewrite length_app. cbn. lia. }
    cbn [fst snd]. exists (List.length l).
    assert (nth_error (l ++ [fresh name settings newId createdNow modifiedNow])
              (List.length l)
            = Some (fresh name settings newId createdNow modifiedNow)) as Hn.
    { rewrite nth_error_app2 by lia. now rewrite Nat.sub_diag. }
    repeat split; try assumption.
    apply (findIndex_at _ _ _ (fresh name settings newId createdNow modifiedNow)).
    + rewrite firstn_app, firstn_all, Nat.sub_diag. cbn [firstn].
      rewrite app_nil_r. now apply Hpre.
    + assumption.
    + unfold Templates.matches. cbn [Templates.name fresh].
      rewrite String.eqb_refl. apply orb_true_r.
Qed.

(** A template that has been saved is found again under its name, with
    the settings that were saved (as [JSON] carries them), and both
    calls leave the store equal to the array in memory; this needs room
    for one more template, a store that accepts the write and no other
    template whose identifier is that name. *)
Theorem Templates_load_answers_what_was_saved
    (this : Templates.TemplateManager) name settings newId createdNow
    modifiedNow now :
  validName name -> validTemplateSettings settings ->
  Templates.writable (Templates.storage this) = true ->
  (List.length (Templates.templates this) < Templates.maxTemplates)%nat ->
  Forall (fun t => Templates.id t <> trim name) (Templates.templates this) ->
  exists tpl this1 tpl' this2,
    Templates.saveTemplate name settings newId createdNow modifiedNow this
    = (Returned tpl, this1)
    /\ Templates.item (Templates.storage this1)
       = Some (Templates.templates this1)
    /\ Templates.loadTemplate (trim name) now this1 = (Returned tpl', this2)
    /\ Templates.item (Templates.storage this2)
       = Some (Templates.templates this2)
    /\ Templates.name tpl' = trim name
    /\ Templates.id tpl' = Templates.id tpl
    /\ Templates.settings tpl' = Templates.cloneSettings settings
    /\ Templates.settings tpl = Templates.cloneSettings settings.
Proof.
  intros Hn Hv Hw Hlen Hid.
  rewrite (saveTemplate_run _ _ _ _ _ _ Hn Hv). rewrite Hw.
  destruct (saved_found name settings newId createdNow modifiedNow
              (Templates.templates this) Hlen Hid)
    as (i & Hfind & Hnth & Hname & Hset).
  set (r := afterSave name settings newId createdNow modifiedNow
              (Templates.templates this)) in *.
  set (this1 := {| Templates.templates := snd r;
                   Templates.storage :=
                     {| Templates.item := Some (snd r);
                        Templates.writable := true |} |}).
  pose proof (run_load (trim name) now this1) as R. cbv zeta in R.
  rewrite (truthyS_nonempty _ (proj2 Hn)) in R. cbn [negb] in R.
  cbn [this1 Templates.templates] in R. rewrite Hfind in R.
  destruct R as (t & Hnth' & R). rewrite Hnth in Hnth'.
  inversion Hnth'; subst t. cbn [Templates.storage Templates.writable] in R.
  exists (fst r), this1. eexists. eexists.
  split; [reflexivity|]. split; [reflexivity|].
  split; [exact R|]. split; [reflexivity|].
  cbn [loaded Templates.name Templates.id Templates.settings].
  rewrite Hset, cloneSettings_idempotent. auto.
Qed.

End TemplateRoundTrip.

Section TemplateFailures.
Local Open Scope string_scope.

Lemma saved_In name settings newId createdNow modifiedNow
    (l : list Templates.Template) :
  (List.length l < Templates.maxTemplates)%nat ->
  let r := afterSave name settings newId createdNow modifiedNow l in
  In (fst r) (snd r)
  /\ Templates.name (fst r) = trim name
  /\ Templates.settings (fst r) = Templates.cloneSettings settings
  /\ Templates.modified (fst r) = modifiedNow.
Proof.
  intros Hlen. unfold afterSave.
  destruct (Templates.findIndex (byName (trim name)) l) as [i|] eqn:Ef.
  - destruct (findIndex_Some _ _ _ Ef) as (a & Hnth & _ & _).
    rewrite Hnth. cbn [fst snd]. repeat split.
    eapply nth_error_In. eapply nth_error_setAt. exact Hnth.
  - assert (Nat.ltb Templates.maxTemplates
              (List.length (l ++ [fresh name settings newId createdNow
                                    modifiedNow])) = false) as ->.
    { apply Nat.ltb_ge. rewrite length_app. cbn. lia. }
    cbn [fst snd]. repeat split. apply in_or_app. right. now left.
Qed.

(** When the store refuses the write, [saveTemplate] throws, yet the
    template is already in the array in memory: the array and the store
    then differ until a later write succeeds. *)
Theorem Templates_a_refused_write_leaves_the_template_in_memory
    (this : Templates.TemplateManager) name settings newId createdNow
    modifiedNow :
  validName name -> validTemplateSettings settings ->
  Templates.writable (Templates.storage this) = false ->
  (List.length (Templates.templates this) < Templates.maxTemplates)%nat ->
  exists this',
    Templates.saveTemplate name settings newId createdNow modifiedNow this
    = (Thrown (mkError "Failed to save template: Failed to save templates"),
       this')
    /\ Templates.storage this' = Templates.storage this
    /\ exists t,
         In t (Templates.templates this')
         /\ Templates.name t = trim name
         /\ Templates.settings t = Templates.cloneSettings settings
         /\ Templates.modified t = modifiedNow.
Proof.
  intros Hn Hv Hw Hlen.
  rewrite (saveTemplate_run _ _ _ _ _ _ Hn Hv). rewrite Hw.
  eexists. split; [reflexivity|]. split; [reflexivity|].
  cbn [Templates.templates].
  exists (fst (afterSave name settings newId createdNow modifiedNow
                 (Templates.templates this))).
  now apply saved_In.
Qed.

Lemma filter_all {A} (p : A -> bool) (l : list A) :
  Forall (fun a => p a = true) l -> filter p l = l.
Proof.
  induction 1 as [|a l Ha _ IH]; cbn; [reflexivity|].
  now rewrite Ha, IH.
Qed.

(** Deleting by name removes the template of that name and no other:
    the remaining templates are the others in their order, the store is
    written, and the deleted template is answered. *)
Theorem Templates_delete_removes_the_named_template_only
    (this : Templates.TemplateManager) (t : Templates.Template) :
  Templates.writable (Templates.storage this) = true ->
  NoDup (map Templates.name (Templates.templates this)) ->
  In t (Templates.templates this) ->
  Forall (fun t' => Templates.id t' <> Templates.name t)
    (Templates.templates this) ->
  exists this',
    Templates.deleteTemplate (Templates.name t) this = (Returned t, this')
    /\ Templates.templates this'
       = filter (fun t' => negb (String.eqb (Templates.name t')
                                   (Templates.name t)))
           (Templates.templates this)
    /\ Templates.item (Templates.storage this')
       = Some (Templates.templates this')
    /\ ~ In (Templates.name t) (map Templates.name (Templates.templates this')).
Proof.
  intros Hw Hnd Hin Hid.
  pose proof (run_delete (Templates.name t) this) as R. cbv zeta in R.
  set (l := Templates.templates this) in *.
  set (n := Templates.name t) in *.
  destruct (Templates.findIndex (Templates.matches n) l) as [i|] eqn:Ef.
  - destruct R as (a & Hnth & R). rewrite Hw in R.
    destruct (findIndex_Some _ _ _ Ef) as (a' & Hnth' & Hp & _).
    rewrite Hnth in Hnth'. inversion Hnth'; subst a'. clear Hnth'.
    assert (Templates.name a = n) as Hname.
    { unfold Templates.matches in Hp. apply orb_true_iff in Hp.
      destruct Hp as [Hp|Hp]; apply String.eqb_eq in Hp; [|exact Hp].
      rewrite Forall_forall in Hid. exfalso.
      apply (Hid a); [eapply nth_error_In; exact Hnth | exact Hp]. }
    destruct (removeAt_split i a l Hnth) as [Es Er].
    set (pre := firstn i l) in *. set (post := skipn (S i) l) in *.
    assert (~ In n (map Templates.name pre)
            /\ ~ In n (map Templates.name post)) as [Hpre Hpost].
    { rewrite Es, map_app in Hnd. cbn [map] in Hnd. rewrite Hname in Hnd.
      apply NoDup_remove_2 in Hnd. split; intro H; apply Hnd;
        apply in_or_app; tauto. }
    assert (a = t) as ->.
    { rewrite Es in Hin. apply in_app_or in Hin.
      destruct Hin as [H|[H|H]]; [|exact H|].
      - exfalso. apply Hpre. apply in_map_iff. now exists t.
      - exfalso. apply Hpost. apply in_map_iff. now exists t. }
    assert (forall part, ~ In n (map Templates.name part) ->
              filter (fun t' => negb (String.eqb (Templates.name t') n)) part
              = part) as Hkeep.
    { intros part Hno. apply filter_all. rewrite Forall_forall.
      intros x Hx. apply negb_true_iff, String.eqb_neq. intro E.
      apply Hno. apply in_map_iff. now exists x. }
    eexists. split; [exact R|]. cbn [Templates.templates Templates.storage
                                     Templates.item].
    rewrite Er. split; [|split; [reflexivity|]].
    + rewrite Es. rewrite filter_app. cbn [filter].
      fold n. rewrite String.eqb_refl. cbn [negb].
      now rewrite !Hkeep.
    + rewrite map_app, in_app_iff. tauto.
  - exfalso. pose proof (findIndex_None _ _ Ef) as Hnone.
    rewrite Forall_forall in Hnone. specialize (Hnone t Hin).
    unfold Templates.matches in Hnone. fold n in Hnone.
    rewrite String.eqb_refl, orb_true_r in Hnone. discriminate.
Qed.

(** The object that the editor saves as a template of its
    multi-watermark format has no [type] of its own, so the validator of
    the manager faults it and [saveTemplate] throws without storing
    anything, whatever the watermarks are. *)
Theorem Templates_refuse_the_template_format_of_the_editor
    (watermarks : list Value) (canvasBounds : Value) (createdAt : Q) :
  Templates.validateTemplateSettings
    (Templates.templateData watermarks canvasBounds createdAt)
  = {| Validation.isValid := false;
       Validation.errors := ["Invalid watermark type"] |}
  /\ forall name newId createdNow modifiedNow
            (this : Templates.TemplateManager),
       exists e,
         Templates.saveTemplate name
           (Templates.templateData watermarks canvasBounds createdAt)
           newId createdNow modifiedNow this
         = (Thrown e, this)
         /\ (validName name ->
             e = mkError ("Failed to save template: Invalid template "
                          ++ "settings: Invalid watermark type")).
Proof.
  assert (Templates.validateTemplateSettings
            (Templates.templateData watermarks canvasBounds createdAt)
          = {| Validation.isValid := false;
               Validation.errors := ["Invalid watermark type"] |}) as E
    by reflexivity.
  split; [exact E|].
  intros name newId createdNow modifiedNow this.
  unfold Templates.saveTemplate, try_catch.
  unfold bind at 1.
  destruct (negb (truthyS name) || String.eqb (trim name) "") eqn:En.
  - cbn [when throw]. eexists. split; [reflexivity|].
    intros [H1 H2]. rewrite H1 in En. apply String.eqb_neq in H2.
    rewrite H2 in En. discriminate.
  - cbn [when ret]. unfold bind at 1. rewrite E.
    cbn [Validation.isValid Validation.errors negb when throw].
    eexists. split; reflexivity.
Qed.

End TemplateFailures.

Section TemplateExamples.
Local Open Scope string_scope.

Definition captionTemplate : Value :=
  VObj [("type", VStr "text");
        ("text", VObj [("content", VStr "Sample"); ("font", VStr "Arial");
                       ("size", VNum 48); ("color", VStr "#ffffff");
                       ("opacity", VNum 80); ("rotation", VNum 0);
                       ("note", VUndefined)]);
        ("position", VObj [("preset", VStr "center"); ("x", VNum 0);
                           ("y", VNum 0)]);
        ("output", VObj [("format", VStr "png"); ("quality", VNum 95)])].

Definition storedLogo : Templates.Template :=
  {| Templates.id := "tpl_1"; Templates.name := "Logo";
     Templates.settings := Templates.cloneSettings captionTemplate;
     Templates.created := 1000; Templates.modified := 1000;
     Templates.version := "1.0"; Templates.lastAccessed := None |}.

Definition managerWith (w : bool) : Templates.TemplateManager :=
  {| Templates.templates := [storedLogo];
     Templates.storage := {| Templates.item := Some [storedLogo];
                             Templates.writable := w |} |}.

Lemma managerWith_wellKept (w : bool) : wellKept (managerWith w).
Proof.
  split; cbn.
  - constructor; [intros [] | constructor].
  - unfold Templates.maxTemplates. lia.
Qed.

Lemma caption_name_valid : validName "  Caption ".
Proof. split; [reflexivity | vm_compute; discriminate]. Qed.

Lemma Templates_stay_distinct_witness :
  wellKept (snd (Templates.saveTemplate "  Caption " captionTemplate "tpl_2"
                   2000 2001 (managerWith true)))
  /\ wellKept (snd (Templates.loadTemplate "Logo" 3000 (managerWith true)))
  /\ wellKept (snd (Templates.deleteTemplate "Logo" (managerWith true)))
  /\ wellKept (snd (Templates.clearAllTemplates (managerWith true))).
Proof.
  apply (Templates_stay_distinct_by_name_and_bounded (managerWith true)
           "  Caption " captionTemplate "tpl_2" 2000 2001 "Logo" 3000).
  apply managerWith_wellKept.
Defined.

Lemma Templates_load_witness :
  exists tpl this1 tpl' this2,
    Templates.saveTemplate "  Caption " captionTemplate "tpl_2" 2000 2001
      (managerWith true)
    = (Returned tpl, this1)
    /\ Templates.item (Templates.storage this1)
       = Some (Templates.templates this1)
    /\ Templates.loadTemplate (trim "  Caption ") 3000 this1
       = (Returned tpl', this2)
    /\ Templates.item (Templates.storage this2)
       = Some (Templates.templates this2)
    /\ Templates.name tpl' = trim "  Caption "
    /\ Templates.id tpl' = Templates.id tpl
    /\ Templates.settings tpl' = Templates.cloneSettings captionTemplate
    /\ Templates.settings tpl = Templates.cloneSettings captionTemplate.
Proof.
  apply (Templates_load_answers_what_was_saved (managerWith true)
           "  Caption " captionTemplate "tpl_2" 2000 2001 3000).
  - exact caption_name_valid.
  - reflexivity.
  - reflexivity.
  - unfold Templates.maxTemplates. cbn. lia.
  - repeat constructor. vm_compute. discriminate.
Defined.

Lemma Templates_refused_write_witness :
  exists this',
    Templates.saveTemplate "  Caption " captionTemplate "tpl_2" 2000 2001
      (managerWith false)
    = (Thrown (mkError "Failed to save template: Failed to save templates"),
       this')
    /\ Templates.storage this' = Templates.storage (managerWith false)
    /\ exists t,
         In t (Templates.templates this')
         /\ Templates.name t = trim "  Caption "
         /\ Templates.settings t = Templates.cloneSettings captionTemplate
         /\ Templates.modified t = 2001%Z.
Proof.
  apply (Templates_a_refused_write_leaves_the_template_in_memory
           (managerWith false) "  Caption " captionTemplate "tpl_2" 2000 2001).
  - exact caption_name_valid.
  - reflexivity.
  - reflexivity.
  - unfold Templates.maxTemplates. cbn. lia.
Defined.

Lemma Templates_delete_witness :
  exists this',
    Templates.deleteTemplate (Templates.name storedLogo) (managerWith true)
    = (Returned storedLogo, this')
    /\ Templates.templates this'
       = filter (fun t' => negb (String.eqb (Templates.name t')
                                   (Templates.name storedLogo)))
           (Templates.templates (managerWith true))
    /\ Templates.item (Templates.storage this')
       = Some (Templates.templates this')
    /\ ~ In (Templates.name storedLogo)
         (map Templates.name (Templates.templates this')).
Proof.
  apply (Templates_delete_removes_the_named_template_only (managerWith true)
           storedLogo).
  - reflexivity.
  - exact (proj1 (managerWith_wellKept true)).
  - now left.
  - repeat constructor. vm_compute. discriminate.
Defined.

End TemplateExamples.

Section Duplicates.
Local Open Scope string_scope.

Lemma findIndex_app_left {A} (p : A -> bool) (l r : list A) (i : nat) :
  Templates.findIndex p l = Some i ->
  Templates.findIndex p (l ++ r) = Some i.
Proof.
  revert i. induction l as [|a l IH]; intros i; cbn [Templates.findIndex app];
    [discriminate|].
  destruct (p a); [trivial|].
  destruct (Templates.findIndex p l) as [j|]; [|discriminate].
  intros H. now rewrite (IH j eq_refl).
Qed.

Lemma findIndex_app_right {A} (p : A -> bool) (l : list A) (a : A) :
  Templates.findIndex p l = None -> p a = true ->
  Templates.findIndex p (l ++ [a]) = Some (List.length l).
Proof.
  induction l as [|b l IH]; cbn [Templates.findIndex app List.length];
    intros Hn Ha.
  - now rewrite Ha.
  - destruct (p b); [discriminate|].
    destruct (Templates.findIndex p l); [discriminate|].
    now rewrite (IH eq_refl Ha).
Qed.

Lemma findIndex_setAt {A} (q : A -> bool) (l : list A) (i : nat) (a v : A) :
  nth_error l i = Some a -> q v = q a ->
  Templates.findIndex q (Templates.setAt i v l) = Templates.findIndex q l.
Proof.
  revert i. induction l as [|b l IH]; intros [|i]; cbn; try discriminate.
  - intros H E. inversion H; subst. now rewrite E.
  - intros H E. now rewrite (IH i H E).
Qed.

Lemma nth_error_app_last {A} (l : list A) (a : A) :
  nth_error (l ++ [a]) (List.length l) = Some a.
Proof. induction l; cbn; trivial. Qed.

(** The name under which [duplicateTemplate] saves a copy of [t]. *)
Definition copyName (t : Templates.Template) : string :=
  Templates.name t ++ " (Copy)".

Lemma duplicateTemplate_run identifier newId createdNow modifiedNow now
    (this : Templates.TemplateManager) i t :
  truthyS identifier = true ->
  Templates.writable (Templates.storage this) = true ->
  Templates.findIndex (Templates.matches identifier) (Templates.templates this)
  = Some i ->
  nth_error (Templates.templates this) i = Some t ->
  validName (copyName t) ->
  validTemplateSettings (Templates.cloneSettings (Templates.settings t)) ->
  let l1 := Templates.setAt i (Templates.touch now t)
              (Templates.templates this) in
  let r := afterSave (copyName t)
             (Templates.cloneSettings (Templates.settings t))
             newId createdNow modifiedNow l1 in
  Templates.duplicateTemplate identifier None newId createdNow modifiedNow
    now this
  = (Returned (fst r),
     {| Templates.templates := snd r;
        Templates.storage := {| Templates.item := Some (snd r);
                                Templates.writable := true |} |}).
Proof.
  intros Hid Hw Hf Hn Hname Hset l1 r.
  unfold Templates.duplicateTemplate, try_catch, bind.
  pose proof (run_load identifier now this) as L. cbv zeta in L.
  rewrite Hid, Hf in L. cbn [negb] in L.
  destruct L as (t' & Hn' & L). rewrite Hn in Hn'. inversion Hn'; subst t'.
  rewrite L, Hw. cbv zeta.
  cbn [loaded Templates.name Templates.settings].
  fold (copyName t).
  rewrite (saveTemplate_run (copyName t)
             (Templates.cloneSettings (Templates.settings t))
             newId createdNow modifiedNow _ Hname Hset).
  cbn [Templates.templates Templates.storage Templates.writable].
  reflexivity.
Qed.

Lemma setAt_app_left {A} (i : nat) (v a : A) (l r : list A) :
  nth_error l i = Some a ->
  Templates.setAt i v (l ++ r) = (Templates.setAt i v l ++ r)%list.
Proof.
  revert i. induction l as [|b l IH]; intros [|i]; cbn; try discriminate;
    trivial.
  intros H. now rewrite (IH i H).
Qed.

Lemma setAt_setAt {A} (i : nat) (v w : A) (l : list A) :
  Templates.setAt i v (Templates.setAt i w l) = Templates.setAt i v l.
Proof.
  revert i. induction l as [|b l IH]; intros [|i]; cbn; trivial.
  now rewrite IH.
Qed.

Lemma setAt_app_last {A} (v a : A) (l : list A) :
  Templates.setAt (List.length l) v (l ++ [a]) = (l ++ [v])%list.
Proof. induction l as [|b l IH]; cbn; [trivial|now rewrite IH]. Qed.

Lemma afterSave_new name settings newId createdNow modifiedNow
    (l : list Templates.Template) :
  Templates.findIndex (byName (trim name)) l = None ->
  (List.length l < Templates.maxTemplates)%nat ->
  afterSave name settings newId createdNow modifiedNow l
  = (fresh name settings newId createdNow modifiedNow,
     (l ++ [fresh name settings newId createdNow modifiedNow])%list).
Proof.
  intros Hf Hl. unfold afterSave. rewrite Hf.
  assert (Nat.ltb Templates.maxTemplates
            (List.length
               (l ++ [fresh name settings newId createdNow modifiedNow]))
          = false) as ->; [|reflexivity].
  apply Nat.ltb_ge. rewrite length_app. cbn [List.length]. lia.
Qed.

Lemma afterSave_again name settings newId createdNow modifiedNow
    (l : list Templates.Template) (e : Templates.Template) :
  Templates.findIndex (byName (trim name)) l = None ->
  Templates.name e = trim name ->
  afterSave name settings newId createdNow modifiedNow (l ++ [e])
  = (replacing e name settings modifiedNow,
     (l ++ [replacing e name settings modifiedNow])%list).
Proof.
  intros Hf He. unfold afterSave.
  rewrite (findIndex_app_right (byName (trim name)) l e Hf)
    by (unfold byName; rewrite He; apply String.eqb_refl).
  rewrite nth_error_app_last, setAt_app_last. reflexivity.
Qed.

(** Duplicating a template a second time does not make a second copy:
    the copy is saved under the name of the original followed by
    [" (Copy)"], and a template of that name is overwritten in place.
    After two calls the manager holds the original and one copy, which
    has the identifier and the creation time of the first copy, the
    modification time of the second and the settings of the original. *)
Theorem Templates_duplicating_twice_leaves_one_copy
    (this : Templates.TemplateManager) (identifier : string) (i : nat)
    (t : Templates.Template)
    (newId1 newId2 : string) (created1 modified1 now1 : Z)
    (created2 modified2 now2 : Z) :
  truthyS identifier = true ->
  Templates.writable (Templates.storage this) = true ->
  Templates.findIndex (Templates.matches identifier) (Templates.templates this)
  = Some i ->
  nth_error (Templates.templates this) i = Some t ->
  validName (copyName t) ->
  validTemplateSettings (Templates.cloneSettings (Templates.settings t)) ->
  Forall (fun e => Templates.name e <> trim (copyName t))
    (Templates.templates this) ->
  (List.length (Templates.templates this) < Templates.maxTemplates)%nat ->
  exists copy1 this1 copy2 this2,
    Templates.duplicateTemplate identifier None newId1 created1 modified1
      now1 this = (Returned copy1, this1)
    /\ Templates.duplicateTemplate identifier None newId2 created2 modified2
         now2 this1 = (Returned copy2, this2)
    /\ Templates.templates this1
       = (Templates.setAt i (Templates.touch now1 t) (Templates.templates this)
          ++ [copy1])%list
    /\ Templates.templates this2
       = (Templates.setAt i (Templates.touch now2 t) (Templates.templates this)
          ++ [copy2])%list
    /\ Templates.item (Templates.storage this2)
       = Some (Templates.templates this2)
    /\ Templates.id copy1 = newId1 /\ Templates.id copy2 = newId1
    /\ Templates.created copy2 = created1
    /\ Templates.modified copy2 = modified2
    /\ Templates.name copy1 = trim (copyName t)
    /\ Templates.name copy2 = trim (copyName t)
    /\ Templates.settings copy1 = Templates.cloneSettings (Templates.settings t)
    /\ Templates.settings copy2 = Templates.cloneSettings (Templates.settings t).
Proof.
  intros Hid Hw Hf Hn Hname Hset Hnone Hlen.
  set (l := Templates.templates this) in *.
  set (N := copyName t) in *.
  set (S := Templates.cloneSettings (Templates.settings t)) in *.
  assert (Templates.findIndex (byName (trim N)) l = None) as Hfree.
  { destruct (Templates.findIndex (byName (trim N)) l) as [j|] eqn:E; trivial.
    destruct (findIndex_Some _ _ _ E) as (e & He & Hp & _).
    apply nth_error_In in He. rewrite Forall_forall in Hnone.
    apply String.eqb_eq in Hp. now apply Hnone in He. }
  assert (forall now,
             Templates.findIndex (byName (trim N))
               (Templates.setAt i (Templates.touch now t) l) = None) as Hfree'.
  { intros now. rewrite (findIndex_setAt _ l i t _ Hn); [exact Hfree|].
    reflexivity. }
  (* the first call *)
  pose proof (duplicateTemplate_run identifier newId1 created1 modified1 now1
                this i t Hid Hw Hf Hn Hname Hset) as R1.
  cbv zeta in R1. fold l N S in R1.
  rewrite (afterSave_new N S newId1 created1 modified1 _ (Hfree' now1)) in R1
    by (rewrite length_setAt; exact Hlen).
  cbn [fst snd] in R1.
  set (copy1 := fresh N S newId1 created1 modified1) in *.
  set (l1 := Templates.setAt i (Templates.touch now1 t) l) in *.
  set (this1 := {| Templates.templates := (l1 ++ [copy1])%list;
                   Templates.storage := _ |}) in R1.
  (* the second call *)
  assert (nth_error l1 i = Some (Templates.touch now1 t)) as Hn1
    by (apply (nth_error_setAt i _ t l Hn)).
  assert (Templates.findIndex (Templates.matches identifier)
            (Templates.templates this1) = Some i) as Hf1.
  { subst this1. cbn [Templates.templates].
    apply findIndex_app_left. subst l1.
    rewrite (findIndex_setAt _ l i t _ Hn); [exact Hf|reflexivity]. }
  assert (nth_error (Templates.templates this1) i
          = Some (Templates.touch now1 t)) as Hn1'.
  { subst this1. cbn [Templates.templates].
    rewrite nth_error_app1; [exact Hn1|].
    apply nth_error_Some. rewrite Hn1. discriminate. }
  pose proof (duplicateTemplate_run identifier newId2 created2 modified2 now2
                this1 i (Templates.touch now1 t) Hid eq_refl Hf1 Hn1'
                Hname Hset) as R2.
  cbv zeta in R2.
  change (copyName (Templates.touch now1 t)) with N in R2.
  change (Templates.cloneSettings
            (Templates.settings (Templates.touch now1 t))) with S in R2.
  change (Templates.touch now2 (Templates.touch now1 t))
    with (Templates.touch now2 t) in R2.
  assert (Templates.setAt i (Templates.touch now2 t)
            (Templates.templates this1)
          = (Templates.setAt i (Templates.touch now2 t) l ++ [copy1])%list)
    as El2.
  { subst this1. cbn [Templates.templates].
    rewrite (setAt_app_left i _ _ l1 [copy1] Hn1). subst l1.
    now rewrite setAt_setAt. }
  rewrite El2 in R2.
  rewrite (afterSave_again N S newId2 created2 modified2 _ copy1
             (Hfree' now2) eq_refl) in R2.
  cbn [fst snd] in R2.
  exists copy1, this1. eexists. eexists.
  split; [exact R1|]. split; [exact R2|].
  subst this1 copy1. cbn [Templates.templates Templates.storage
                           Templates.item replacing fresh Templates.id
                           Templates.created Templates.modified
                           Templates.name Templates.settings].
  subst S. rewrite cloneSettings_idempotent.
  repeat split; reflexivity.
Qed.
End Duplicates.

Section DuplicateExample.
Local Open Scope string_scope.

Lemma Templates_duplicating_twice_witness :
  exists copy1 this1 copy2 this2,
    Templates.duplicateTemplate "Logo" None "tpl_2" 2000 2000 1900
      (managerWith true) = (Returned copy1, this1)
    /\ Templates.duplicateTemplate "Logo" None "tpl_3" 3000 3000 2900
         this1 = (Returned copy2, this2)
    /\ Templates.templates this1
       = (Templates.setAt 0 (Templates.touch 1900 storedLogo)
            (Templates.templates (managerWith true)) ++ [copy1])%list
    /\ Templates.templates this2
       = (Templates.setAt 0 (Templates.touch 2900 storedLogo)
            (Templates.templates (managerWith true)) ++ [copy2])%list
    /\ Templates.item (Templates.storage this2)
       = Some (Templates.templates this2)
    /\ Templates.id copy1 = "tpl_2" /\ Templates.id copy2 = "tpl_2"
    /\ Templates.created copy2 = 2000%Z
    /\ Templates.modified copy2 = 3000%Z
    /\ Templates.name copy1 = trim (copyName storedLogo)
    /\ Templates.name copy2 = trim (copyName storedLogo)
    /\ Templates.settings copy1
       = Templates.cloneSettings (Templates.settings storedLogo)
    /\ Templates.settings copy2
       = Templates.cloneSettings (Templates.settings storedLogo).
Proof.
  apply (Templates_duplicating_twice_leaves_one_copy (managerWith true)
           "Logo" 0 storedLogo "tpl_2" "tpl_3" 2000 2000 1900 3000 3000 2900).
  - reflexivity.
  - reflexivity.
  - reflexivity.
  - reflexivity.
  - split; [reflexivity | vm_compute; discriminate].
  - vm_compute. reflexivity.
  - repeat constructor. vm_compute. discriminate.
  - vm_compute. lia.
Defined.
End DuplicateExample.

(** ** The batch queue: status, sizes, names and whole batches *)

Section QueueStatus.
Local Open Scope string_scope.

Lemma counts_disjoint (q : list Batch.QueueItem) :
  (Batch.countStatus "completed" q + Batch.countStatus "failed" q
   + Batch.countStatus "pending" q + Batch.countStatus "processing" q
   <= List.length q)%nat
  /\ (Batch.countStatus "completed" q <= List.length q)%nat.
Proof.
  unfold Batch.countStatus.
  induction q as [|it q [IH1 IH2]]; [cbn; split; lia|].
  cbn [filter List.length].
  destruct (String.eqb (Batch.status it) "completed") eqn:E1.
  { apply String.eqb_eq in E1. rewrite E1. cbn. split; lia. }
  destruct (String.eqb (Batch.status it) "failed") eqn:E2.
  { apply String.eqb_eq in E2. rewrite E2. cbn. split; lia. }
  destruct (String.eqb (Batch.status it) "pending") eqn:E3.
  { apply String.eqb_eq in E3. rewrite E3. cbn. split; lia. }
  destruct (String.eqb (Batch.status it) "processing") eqn:E4;
    cbn; split; lia.
Qed.

Lemma ofNat_le (a b : nat) : (a <= b)%nat -> Queue.ofNat a <= Queue.ofNat b.
Proof. intro H. unfold Queue.ofNat. rewrite <- Zle_Qle. lia. Qed.

Lemma ofNat_pos (a : nat) : (0 < a)%nat -> 0 < Queue.ofNat a.
Proof.
  intro H. unfold Queue.ofNat. change 0 with (inject_Z 0).
  rewrite <- Zlt_Qlt. lia.
Qed.

Lemma ofNat_mul (a b : nat) :
  Queue.ofNat (a * b) == Queue.ofNat a * Queue.ofNat b.
Proof.
  unfold Queue.ofNat. now rewrite Nat2Z.inj_mul, inject_Z_mult.
Qed.

Lemma Math_round_100 (x : Q) :
  (199 # 2) <= x -> x <= 100 -> Math_round x == 100.
Proof.
  intros Hl Hu.
  destruct (Math_round_bounds x) as [B1 B2].
  unfold Math_round in *.
  set (f := Qfloor (x + (1 # 2))) in *.
  assert (inject_Z 99 < inject_Z f) as L
    by (change (inject_Z 99) with 99; lra).
  assert (inject_Z f < inject_Z 101) as U
    by (change (inject_Z 101) with 101; lra).
  rewrite <- Zlt_Qlt in L, U.
  assert (f = 100%Z) as -> by lia. reflexivity.
Qed.

(** The [progress] of [getQueueStatus] is a whole percentage between 0
    and 100, 0 for an empty queue; the four counts never exceed the
    total; and the progress reads 100 as soon as 99.5 percent of the
    items are completed, in particular when all are. *)
Theorem Batch_progress_is_a_percentage_that_rounds_up_to_100 :
  forall this : Batch.BatchProcessor,
    0 <= Queue.qs_progress (Queue.getQueueStatus this) <= 100 /\
    (exists z, Queue.qs_progress (Queue.getQueueStatus this) = inject_Z z) /\
    (Queue.qs_completed (Queue.getQueueStatus this)
     + Queue.qs_failed (Queue.getQueueStatus this)
     + Queue.qs_pending (Queue.getQueueStatus this)
     + Queue.qs_processing (Queue.getQueueStatus this)
     <= Queue.qs_total (Queue.getQueueStatus this))%nat /\
    (Batch.processingQueue this = [] ->
     Queue.qs_progress (Queue.getQueueStatus this) == 0) /\
    (Batch.processingQueue this <> [] ->
     (199 * Queue.qs_total (Queue.getQueueStatus this)
      <= 200 * Queue.qs_completed (Queue.getQueueStatus this))%nat ->
     Queue.qs_progress (Queue.getQueueStatus this) == 100).
Proof.
  intros this. unfold Queue.getQueueStatus.
  cbn [Queue.qs_progress Queue.qs_total Queue.qs_completed Queue.qs_failed
       Queue.qs_pending Queue.qs_processing].
  destruct (counts_disjoint (Batch.processingQueue this)) as [Hsum Hc].
  set (q := Batch.processingQueue this) in *.
  set (c := Batch.countStatus "completed" q) in *.
  destruct (Nat.ltb 0 (List.length q)) eqn:Et.
  - apply Nat.ltb_lt in Et.
    pose proof (ofNat_pos _ Et) as Tp.
    pose proof (ofNat_le _ _ Hc) as Cl.
    assert (0 <= Queue.ofNat c) as C0
      by (unfold Queue.ofNat; change 0 with (inject_Z 0);
          rewrite <- Zle_Qle; lia).
    assert (0 <= Queue.ofNat c / Queue.ofNat (List.length q)) as A
      by (apply Qle_shift_div_l; lra).
    assert (Queue.ofNat c / Queue.ofNat (List.length q) <= 1) as B
      by (apply Qle_shift_div_r; lra).
    pose proof (Math_round_integer 0) as R0.
    pose proof (Math_round_integer 100) as R1.
    change (inject_Z 0) with 0 in R0. change (inject_Z 100) with 100 in R1.
    split; [|split; [|split; [|split]]].
    + split.
      * apply Qle_trans with (Math_round 0); [rewrite R0; lra|].
        apply Math_round_le. lra.
      * apply Qle_trans with (Math_round 100); [|rewrite R1; lra].
        apply Math_round_le. lra.
    + eexists. reflexivity.
    + exact Hsum.
    + intros E. rewrite E in Et. cbn in Et. lia.
    + intros _ H. apply Math_round_100; [|lra].
      assert (Queue.ofNat (199 * List.length q)
              <= Queue.ofNat (200 * c)) as H' by (apply ofNat_le; exact H).
      rewrite !ofNat_mul in H'.
      change (Queue.ofNat 199) with 199 in H'.
      change (Queue.ofNat 200) with 200 in H'.
      apply Qle_trans
        with ((199 # 200) * 100); [lra|].
      apply Qmult_le_compat_r; [|lra].
      apply Qle_shift_div_l; [exact Tp|]. lra.
  - apply Nat.ltb_ge in Et.
    split; [|split; [|split; [|split]]].
    + lra.
    + exists 0%Z. reflexivity.
    + exact Hsum.
    + reflexivity.
    + intros Hq. destruct q; [congruence|cbn in Et; lia].
Qed.
End QueueStatus.

Section DataUrls.
Local Open Scope string_scope.

Definition isComma (c : ascii) : bool := Ascii.eqb c ",".

Lemma splitComma_plain (s : string) :
  Queue.noneOf isComma s = true -> Queue.splitComma s = [s].
Proof.
  induction s as [|c s IH]; [reflexivity|].
  cbn [Queue.noneOf Queue.splitComma]. unfold isComma at 1.
  destruct (Ascii.eqb c ","); [discriminate|].
  cbn [negb andb]. intros H. now rewrite (IH H).
Qed.

Lemma splitComma_first (head rest : string) :
  Queue.noneOf isComma head = true ->
  Queue.splitComma (head ++ String "," rest)
  = head :: Queue.splitComma rest.
Proof.
  induction head as [|c s IH]; [reflexivity|].
  cbn [Queue.noneOf Queue.splitComma String.append]. unfold isComma at 1.
  destruct (Ascii.eqb c ","); [discriminate|].
  cbn [negb andb]. intros H. now rewrite (IH H).
Qed.

(** [estimateDataUrlSize] (and its twin [estimateFileSize] of the image
    processor) answers the exact number of bytes that a base64 payload
    encodes: for a data URL whose part after the comma has [4 * k]
    characters, [3 * k] less the number of its [=] signs; a string
    without a comma is answered by 0. *)
Theorem Batch_estimate_is_the_size_of_the_base64_payload
    (head payload : string) (k : nat) :
  Queue.noneOf isComma head = true ->
  Queue.noneOf isComma payload = true ->
  String.length payload = (4 * k)%nat ->
  Queue.estimateDataUrlSize (head ++ String "," payload)
  == Queue.ofNat (3 * k) - Queue.ofNat (Queue.countEquals payload)
  /\ Queue.estimateDataUrlSize head == 0.
Proof.
  intros Hh Hp Hl. unfold Queue.estimateDataUrlSize. split.
  - rewrite (splitComma_first head payload Hh), (splitComma_plain payload Hp).
    cbn [nth_error]. rewrite Hl.
    set (p := Queue.countEquals payload).
    assert (Queue.ofNat (4 * k) * (75 # 100) - Queue.ofNat p
            == inject_Z (Z.of_nat (3 * k) - Z.of_nat p)) as ->.
    { unfold Queue.ofNat, Z.sub.
      rewrite inject_Z_plus, inject_Z_opp, !Nat2Z.inj_mul, !inject_Z_mult.
      change (inject_Z (Z.of_nat 4)) with 4.
      change (inject_Z (Z.of_nat 3)) with 3. ring. }
    rewrite Math_round_integer. unfold Queue.ofNat, Z.sub.
    rewrite inject_Z_plus, inject_Z_opp. ring.
  - rewrite (splitComma_plain head Hh). reflexivity.
Qed.

Lemma Batch_estimate_witness :
  Queue.estimateDataUrlSize "data:image/png;base64,iVBORw0KGgo=" == 8
  /\ Queue.estimateDataUrlSize "data:image/png;base64" == 0.
Proof.
  exact (Batch_estimate_is_the_size_of_the_base64_payload
           "data:image/png;base64" "iVBORw0KGgo=" 3
           eq_refl eq_refl eq_refl).
Defined.
End DataUrls.

Section OutputNames.
Local Open Scope string_scope.

Definition dotOrSlash (d : ascii) : bool :=
  (Ascii.eqb d "/" || Ascii.eqb d ".")%bool.

Lemma beforeExtension_plain (s : string) :
  Queue.noneOf dotOrSlash s = true -> Queue.beforeExtension s = None.
Proof.
  induction s as [|c s IH]; [reflexivity|].
  cbn [Queue.noneOf Queue.beforeExtension]. unfold dotOrSlash at 1.
  intros H. apply andb_prop in H as [Hc Hs].
  rewrite (IH Hs).
  destruct (Ascii.eqb c "."); [|reflexivity].
  rewrite orb_true_r in Hc. discriminate.
Qed.

Lemma withoutExtension_strips (stem ext : string) :
  truthyS ext = true -> Queue.noneOf dotOrSlash ext = true ->
  Queue.withoutExtension (stem ++ String "." ext) = stem.
Proof.
  intros Hn Hc. unfold Queue.withoutExtension.
  assert (Queue.beforeExtension (stem ++ String "." ext) = Some stem) as ->;
    [|reflexivity].
  induction stem as [|c s IH].
  - cbn [String.append Queue.beforeExtension].
    rewrite (beforeExtension_plain ext Hc), Hn.
    change (Queue.noneOf _ ext) with (Queue.noneOf dotOrSlash ext).
    rewrite Hc. reflexivity.
  - cbn [String.append Queue.beforeExtension]. now rewrite IH.
Qed.

Lemma processImage_single (host : Host) (img : Batch.SourceImage)
    (s : Settings.t) (c c' : Canvas) (r : Batch.Result) :
  Batch.processImage host (Some img) (Batch.One s) c = (Returned r, c') ->
  exists data g,
    Batch.imageData img = Some data /\
    Engine.generateWatermarkedImage host data s c = (Returned g, c') /\
    Batch.res_format r = format g /\
    Batch.res_dataUrl r = dataUrl g /\
    Batch.originalName r = Batch.name img.
Proof.
  unfold Batch.processImage, try_catch. unfold bind at 1.
  cbn [ret]. unfold bind at 1.
  destruct (Batch.imageData img) as [data|]; [|discriminate].
  cbn [ret]. unfold bind at 1. unfold Batch.checkSettings.
  destruct (negb (Validation.isValid (Engine.validateSettings s)));
    [discriminate|].
  cbn [ret]. unfold bind at 1. unfold Batch.describe, when.
  assert ((if String.eqb (Settings.type s) "text"
           then bind (prop "content" (Settings.text s))
                  (fun _ : Text.t => ret tt)
           else ret tt) c = (Returned tt, c)
          \/ exists e, (if String.eqb (Settings.type s) "text"
           then bind (prop "content" (Settings.text s))
                  (fun _ : Text.t => ret tt)
           else ret tt) c = (Thrown e, c)) as [-> | [e ->]];
    [|idtac|discriminate].
  { destruct (String.eqb (Settings.type s) "text"); [|now left].
    unfold bind, prop. destruct (Settings.text s); [now left|].
    right. eexists. reflexivity. }
  unfold bind.
  destruct (Engine.generateWatermarkedImage host data s c)
    as [[g| |] c1] eqn:E; try discriminate.
  cbn [ret]. intros H. inversion H; subst.
  exists data, g. repeat split; try reflexivity. exact E.
Qed.

(** The name of a batch result keeps what stands before the extension
    of the original name and ends in [jpg], [png] or [webp] as the
    settings ask, while the picture itself is encoded as JPEG for the
    format [jpeg] and as PNG for every other one: for settings that ask
    for [webp] the result is a PNG picture under a name in [.webp]. *)
Theorem Batch_result_name_and_encoding_agree_for_jpeg_and_png_only
    (host : Host) (stem ext iso nowText : string) (s : Settings.t)
    (o : Output.t) :
  Settings.output s = Some o ->
  truthyS ext = true -> Queue.noneOf dotOrSlash ext = true ->
  Queue.generateOutputFilename (stem ++ String "." ext) s iso nowText
  = stem ++ "_watermarked_" ++ Queue.dashed (String.substring 0 19 iso)
    ++ "."
    ++ (if String.eqb (Output.format o) "jpeg" then "jpg"
        else if String.eqb (Output.format o) "png" then "png" else "webp")
  /\ forall data c r c',
       Batch.processImage host
         (Some {| Batch.name := stem ++ String "." ext;
                  Batch.imageData := data |}) (Batch.One s) c
       = (Returned r, c') ->
       Batch.res_format r
       = (if String.eqb (Output.format o) "jpeg" then "image/jpeg"
          else "image/png")
       /\ enc_type (Batch.res_dataUrl r) = Batch.res_format r.
Proof.
  intros Ho Hn Hc. split.
  - unfold Queue.generateOutputFilename. rewrite Ho.
    rewrite (withoutExtension_strips stem ext Hn Hc). reflexivity.
  - intros data c r c' H.
    apply processImage_single in H
      as (d & g & _ & Hg & Hf & Hu & _).
    destruct (generateWatermarkedImageWith_format _ _ _ _ _ _ _ Ho Hg)
      as [F1 F2].
    rewrite Hf, Hu, F1, F2. split; reflexivity.
Qed.
End OutputNames.

Section OutputNameExample.
Local Open Scope string_scope.

Definition webpCaption : Settings.t :=
  {| Settings.type := "text";
     Settings.text := Some (Text.mk "Sample" "Arial" 48 "#ffffff" 80 0);
     Settings.image := None;
     Settings.position := Some (Position.mk "center" (JNum 0) (JNum 0));
     Settings.transform :=
       Some {| Transform.x := 100; Transform.y := 50;
               Transform.width := 200; Transform.height := 60;
               Transform.rotation := 0;
               Transform.previewCanvasWidth := Some 800;
               Transform.previewCanvasHeight := Some 600 |};
     Settings.output := Some (Output.mk "webp" 90) |}.

Lemma Batch_result_name_witness :
  (Queue.generateOutputFilename "holiday.2024.jpeg" webpCaption
     "2024-05-06T07:08:09.123Z" "1714979289123"
   = "holiday.2024_watermarked_2024-05-06T07-08-09.webp"
   /\ forall data c r c',
        Batch.processImage previewHost
          (Some {| Batch.name := "holiday.2024.jpeg";
                   Batch.imageData := data |})
          (Batch.One webpCaption) c
        = (Returned r, c') ->
        Batch.res_format r = "image/png"
        /\ enc_type (Batch.res_dataUrl r) = Batch.res_format r)
  /\ exists r c',
       Batch.processImage previewHost
         (Some {| Batch.name := "holiday.2024.jpeg";
                  Batch.imageData := Some previewSource |})
         (Batch.One webpCaption) freshCanvas
       = (Returned r, c')
       /\ Batch.res_format r = "image/png".
Proof.
  split.
  - exact (Batch_result_name_and_encoding_agree_for_jpeg_and_png_only
             previewHost "holiday.2024" "jpeg" "2024-05-06T07:08:09.123Z"
             "1714979289123" webpCaption (Output.mk "webp" 90)
             eq_refl eq_refl eq_refl).
  - eexists. eexists. split; [vm_compute; reflexivity|reflexivity].
Defined.
End OutputNameExample.

Section Returned.
Context {S : Type}.

Lemma bind_returned {A B} (c : Js S A) (k : A -> Js S B) s r s' :
  bind c k s = (Returned r, s') ->
  exists a s1, c s = (Returned a, s1) /\ k a s1 = (Returned r, s').
Proof.
  unfold bind. destruct (c s) as [[a| |] s1]; try discriminate.
  intros H. now exists a, s1.
Qed.

Lemma try_catch_throw_returned {A} (c : Js S A) (f : JsError -> JsError)
    s r s' :
  try_catch c (fun e => throw (f e)) s = (Returned r, s') ->
  c s = (Returned r, s').
Proof.
  unfold try_catch. destruct (c s) as [[a| |] s1]; try discriminate; trivial.
Qed.
End Returned.

Section Pipeline.
Local Open Scope string_scope.
Context (host : Host).

Lemma processImage_name (img : Batch.SourceImage) (st : Batch.SettingsArg)
    (c c' : Canvas) (r : Batch.Result) :
  Batch.processImage host (Some img) st c = (Returned r, c') ->
  Batch.originalName r = Batch.name img.
Proof.
  unfold Batch.processImage, try_catch. intros H.
  destruct (bind _ _ c) as [[r0|e|] c0] eqn:E; try discriminate.
  inversion H; subst. clear H.
  apply bind_returned in E as (image & c1 & Hi & E).
  inversion Hi; subst. clear Hi.
  apply bind_returned in E as (data & c2 & _ & E).
  apply bind_returned in E as (? & c3 & _ & E).
  apply bind_returned in E as (? & c4 & _ & E).
  apply bind_returned in E as (g & c5 & _ & E).
  inversion E. reflexivity.
Qed.

(** The clone that [addToQueue] makes of the settings names the same
    image sources. *)
Lemma imageSourceOf_clone (s : Settings.t) :
  imageSourceOf (Queue.cloneSettings s) = imageSourceOf s.
Proof.
  unfold imageSourceOf, drawsImage, Queue.cloneSettings, App.setImage,
    App.cloneImage.
  cbn [Settings.image Settings.type].
  destruct (_ || _); [|reflexivity].
  destruct (Settings.image s) as [im|]; [|reflexivity].
  cbn [Image.imageData].
  destruct (Image.imageData im) as [[src|o]|]; reflexivity.
Qed.

Lemma allDecode_clone (settings : Batch.SettingsArg) :
  allDecode host settings ->
  allDecode host (Queue.cloneSettingsArg settings).
Proof.
  destruct settings as [s|l]; cbn [allDecode Queue.cloneSettingsArg].
  - intros H src. rewrite imageSourceOf_clone. apply H.
  - intros H. apply Forall_map. eapply Forall_impl; [|exact H].
    intros s Hs src. rewrite imageSourceOf_clone. apply Hs.
Qed.

(** The items that [addToQueue] makes. *)
Definition queuedItems (images : list (option Batch.SourceImage))
    (settings : Batch.SettingsArg) : list Batch.QueueItem :=
  map (fun image =>
         {| Batch.image := image;
            Batch.settings := Queue.cloneSettingsArg settings;
            Batch.status := "pending"; Batch.result := None;
            Batch.error := None |}) images.

Lemma queued_then_processed (images : list (option Batch.SourceImage))
    (settings : Batch.SettingsArg) (P : Batch.QueueItem -> Prop)
    (Q : Batch.QueueItem -> Batch.QueueItem -> Prop)
    (q' : list Batch.QueueItem) :
  Forall2 (fun it it' =>
             Batch.image it' = Batch.image it /\
             Batch.settings it' = Batch.settings it /\ P it' /\ Q it it')
    (queuedItems images settings) q' ->
  map Batch.image q' = images /\
  Forall (fun it' =>
            Batch.settings it' = Queue.cloneSettingsArg settings /\ P it') q'.
Proof.
  revert q'. induction images as [|img images IH]; intros q' H;
    inversion H as [|it it' l l' (Hi & Hs & Hp & _) Hr]; subst.
  - split; constructor.
  - destruct (IH _ Hr) as [IH1 IH2]. split.
    + cbn [map]. now rewrite Hi, IH1.
    + constructor; [|exact IH2]. split; [exact Hs|exact Hp].
Qed.

Lemma queuedItems_queueable (images : list (option Batch.SourceImage))
    (settings : Batch.SettingsArg) :
  Forall (fun image => image <> None) images ->
  allDecode host settings ->
  Forall (queueable host) (queuedItems images settings).
Proof.
  intros Hi Hd. unfold queuedItems. apply Forall_map.
  eapply Forall_impl; [|exact Hi].
  intros image Him. split; [exact Him|].
  cbn [Batch.settings]. now apply allDecode_clone.
Qed.

Lemma processBatch_idle (images : list (option Batch.SourceImage))
    (settings : Batch.SettingsArg) (now : nat -> Z)
    (this : Batch.BatchProcessor) :
  Batch.isProcessing this = false ->
  Queue.processBatch host images settings now this
  = Batch.processQueue host
      {| Batch.processingQueue := queuedItems images settings;
         Batch.isProcessing := false;
         Batch.results := []; Batch.errors := [];
         Batch.shouldStop := Batch.shouldStop this;
         Batch.canvas := Batch.canvas this |}.
Proof.
  intros Hp.
  unfold Queue.processBatch, Queue.clearQueue, Queue.addToQueue,
    Queue.stopProcessing, Batch.withQueue, try_catch, bind, when,
    modify, Batch.get, ret.
  rewrite Hp.
  cbn [Batch.processingQueue Batch.isProcessing Batch.results
       Batch.errors Batch.shouldStop Batch.canvas app].
  rewrite Hp. reflexivity.
Qed.

End Pipeline.

Section PipelineExample.
Local Open Scope string_scope.

Definition shot (n : string) : Batch.SourceImage :=
  {| Batch.name := n; Batch.imageData := Some previewSource |}.

(** A processor that still holds the one item of an earlier batch. *)
Definition usedProcessor (busy : bool) : Batch.BatchProcessor :=
  {| Batch.processingQueue :=
       [{| Batch.image := Some (shot "old.png");
           Batch.settings := Batch.One previewCaption;
           Batch.status := "completed"; Batch.result := None;
           Batch.error := None |}];
     Batch.isProcessing := busy;
     Batch.results := [];
     Batch.errors := [];
     Batch.shouldStop := false;
     Batch.canvas := freshCanvas |}.

Lemma logo_decodes : allDecode logoHost (Batch.Many [webpCaption; logo]).
Proof.
  repeat constructor.
  - intros src H. discriminate H.
  - intros src H. vm_compute in H. inversion H; subst. discriminate.
Qed.

End PipelineExample.

Section CustomSettings.
Local Open Scope string_scope.
Context (host : Host).

Definition withCanvas (this : Batch.BatchProcessor) (cv : Canvas)
  : Batch.BatchProcessor :=
  {| Batch.processingQueue := Batch.processingQueue this;
     Batch.isProcessing := Batch.isProcessing this;
     Batch.results := Batch.results this;
     Batch.errors := Batch.errors this;
     Batch.shouldStop := Batch.shouldStop this;
     Batch.canvas := cv |}.

(** A pair that the loop can take: it has an image, and the image
    sources that its settings name decode. *)
Definition takable (pair : option Batch.SourceImage * Batch.SettingsArg)
  : Prop :=
  fst pair <> None /\ allDecode host (snd pair).

(** The names of the images of the pairs, in their order. *)
Fixpoint pairNames
    (pairs : list (option Batch.SourceImage * Batch.SettingsArg))
  : list string :=
  match pairs with
  | [] => []
  | (Some image, _) :: rest => Batch.name image :: pairNames rest
  | (None, _) :: rest => pairNames rest
  end.

Lemma customAttempt_Some (img : Batch.SourceImage) (st : Batch.SettingsArg)
    (this : Batch.BatchProcessor) :
  Queue.customAttempt host (Some img, st) this
  = Batch.onCanvas (Batch.processImage host (Some img) st) this.
Proof. reflexivity. Qed.

Lemma customRounds_run :
  forall (pairs : list (option Batch.SourceImage * Batch.SettingsArg))
         (this : Batch.BatchProcessor)
         (rs : list Batch.Result) (es : list Batch.ErrorEntry),
  Forall takable pairs ->
  exists cv rs' es',
    for_of pairs (Queue.customRound host) (this, (rs, es))
    = (Returned tt, (withCanvas this cv, ((rs ++ rs')%list, (es ++ es')%list)))
    /\ (List.length rs' + List.length es' = List.length pairs)%nat
    /\ Permutation
         (map Batch.originalName rs' ++ map Batch.err_image es')%list
         (pairNames pairs).
Proof.
  induction pairs as [|pair pairs IH]; intros this rs es Hgood.
  - exists (Batch.canvas this), [], []. rewrite !app_nil_r.
    split; [|split; [reflexivity|constructor]].
    destruct this; reflexivity.
  - inversion Hgood as [|x l [Himg Hdec] Hgood']; subst.
    destruct pair as [[img|] st]; [|now cbn in Himg].
    cbn [fst snd] in Hdec.
    cbn [for_of]. unfold bind, Queue.customRound at 1.
    rewrite customAttempt_Some. unfold Batch.onCanvas. cbn [fst].
    pose proof (settles_processImage host (Some img) st Hdec
                  (Batch.canvas this)) as Hs.
    destruct (Batch.processImage host (Some img) st
                (Batch.canvas this)) as [[r|e|] cv] eqn:E;
      [| |now cbn in Hs].
    + destruct (IH (withCanvas this cv) (rs ++ [r])%list es Hgood')
        as (cv' & rs' & es' & Hrun & Hl & Hperm).
      unfold withCanvas in Hrun at 1. rewrite Hrun.
      exists cv', (r :: rs'), es'. rewrite <- app_assoc.
      split; [reflexivity|]. split; [cbn; lia|].
      cbn [map app pairNames].
      rewrite (processImage_name host _ _ _ _ _ E).
      now constructor.
    + destruct (IH (withCanvas this cv) rs
                  (es ++ [{| Batch.err_image := Batch.name img;
                             Batch.err_error := message e |}])%list Hgood')
        as (cv' & rs' & es' & Hrun & Hl & Hperm).
      unfold withCanvas in Hrun at 1. rewrite Hrun.
      exists cv', rs',
        ({| Batch.err_image := Batch.name img;
            Batch.err_error := message e |} :: es').
      rewrite <- app_assoc.
      split; [reflexivity|]. split; [cbn; lia|].
      cbn [map Batch.err_image pairNames].
      apply Permutation_sym, Permutation_cons_app, Permutation_sym.
      exact Hperm.
Qed.

Lemma customRound_without_image (st : Batch.SettingsArg)
    (this : Batch.BatchProcessor) rs es :
  Queue.customRound host (None, st) (this, (rs, es))
  = (Thrown (TypeError "name"), (this, (rs, es))).
Proof.
  unfold Queue.customRound, Queue.customAttempt, bind. cbn [fst prop throw].
  reflexivity.
Qed.

Lemma clearQueue_run (this : Batch.BatchProcessor) :
  exists this0,
    Queue.clearQueue this = (Returned tt, this0) /\
    Batch.processingQueue this0 = [] /\
    Batch.results this0 = [] /\ Batch.errors this0 = [].
Proof.
  unfold Queue.clearQueue, Queue.stopProcessing, bind, when,
    modify, Batch.get, ret.
  destruct (Batch.isProcessing this); eexists; repeat split; reflexivity.
Qed.

End CustomSettings.

Section CustomSettingsExample.
Local Open Scope string_scope.

End CustomSettingsExample.

(** ** Text settings without a transform, and the stack of the surface *)

Section TextWithoutTransform.
Local Open Scope string_scope.
Context (host : Host).

Lemma Engine_text_without_transform (s : Settings.t) (b : Bounds.t) (sf : Q)
    (c : Canvas) :
  Settings.type s = "text" -> Settings.transform s = None ->
  Engine.applyWatermark host s b sf c = (Returned tt, oneSaveDeeper c).
Proof.
  intros Ht Hn.
  unfold Engine.applyWatermark, applyWatermarkWith, Engine.applyTextWatermark.
  rewrite Ht, Hn. cbn [String.eqb Ascii.eqb Bool.eqb option_map].
  destruct (Settings.text s) as [t|]; reflexivity.
Qed.

Lemma valid_text_has_text (s : Settings.t) :
  Settings.type s = "text" ->
  Validation.isValid (Engine.validateSettings s) = true ->
  exists t, Settings.text s = Some t.
Proof.
  intros Ht. destruct (Settings.text s) as [t|] eqn:E; [now exists t|].
  unfold Engine.validateSettings, validationOf, validateContent.
  rewrite Ht, E. cbn. discriminate.
Qed.

(** Text settings without a [transform] pass the validator of the
    transform-based engine, whose verdict does not look at the
    transform; yet that engine draws nothing for them and reports no
    error: [applyWatermark] returns with the surface as it was but for
    one saved state left on the stack, and a batch item with such
    settings is completed with the bare source picture. *)
Theorem Engine_text_without_a_transform_is_valid_but_never_drawn
    (s : Settings.t) (o : Output.t) :
  Settings.type s = "text" -> Settings.transform s = None ->
  Settings.output s = Some o ->
  Validation.isValid (Engine.validateSettings s) = true ->
  (forall b sf c,
      Engine.applyWatermark host s b sf c = (Returned tt, oneSaveDeeper c)) /\
  (forall n img c,
      exists r,
        Batch.processImage host
          (Some {| Batch.name := n;
                   Batch.imageData := Some {| element := Some img |} |})
          (Batch.One s) c
        = (Returned r, oneSaveDeeper (sourceDrawn img)) /\
        enc_pixels (Batch.res_dataUrl r) = painted (sourceDrawn img)) /\
  (forall tr,
      Engine.validateSettings
        {| Settings.type := Settings.type s; Settings.text := Settings.text s;
           Settings.image := Settings.image s;
           Settings.position := Settings.position s;
           Settings.transform := Some tr;
           Settings.output := Settings.output s |}
      = Engine.validateSettings s).
Proof.
  intros Ht Hn Ho Hv. split; [|split].
  - intros b sf c. now apply Engine_text_without_transform.
  - intros n img c.
    destruct (valid_text_has_text s Ht Hv) as [t Et].
    unfold Batch.processImage, try_catch, bind at 1.
    cbn [ret]. unfold bind at 1.
    cbn [Batch.imageData ret]. unfold bind at 1, Batch.checkSettings.
    rewrite Hv. cbn [negb ret]. unfold bind at 1, Batch.describe, when.
    rewrite Ht, Et. cbn [String.eqb Ascii.eqb Bool.eqb].
    unfold bind at 1, prop. cbn [ret]. unfold bind at 1.
    unfold Engine.generateWatermarkedImage, generateWatermarkedImageWith,
      try_catch, bind at 1, prop.
    cbn [element ret]. unfold bind at 1. cbn [modify].
    unfold bind at 1. cbn [clearRect paint modify].
    unfold bind at 1. cbn [drawImage paint modify].
    unfold bind at 1.
    match goal with
    | |- context [Engine.applyWatermark host s ?b ?sf ?c0] =>
        rewrite (Engine_text_without_transform s b sf c0 Ht Hn)
    end.
    rewrite Ho. unfold bind, toDataURL, ret.
    eexists. split; reflexivity.
  - intros tr. reflexivity.
Qed.

End TextWithoutTransform.

Section TextWithoutTransformExample.
Local Open Scope string_scope.

(** A caption placed by an anchor, as the anchor-only engine takes it. *)
Definition anchoredCaption : Settings.t :=
  {| Settings.type := "text";
     Settings.text := Some (Text.mk "Sample" "Arial" 48 "#ffffff" 80 0);
     Settings.image := None;
     Settings.position := Some (Position.mk "bottom-right" (JNum 20) (JNum 20));
     Settings.transform := None;
     Settings.output := Some (Output.mk "png" 95) |}.

Definition landscape : Raster :=
  {| naturalWidth := 1600; naturalHeight := 1200; pixels := "photo" |}.

Lemma Engine_text_without_a_transform_witness :
  Validation.isValid (Engine.validateSettings anchoredCaption) = true /\
  Engine.applyWatermark previewHost anchoredCaption (Bounds.mk 0 0 800 600) 1
    freshCanvas = (Returned tt, oneSaveDeeper freshCanvas) /\
  exists r,
    Batch.processImage previewHost
      (Some {| Batch.name := "a.png";
               Batch.imageData := Some {| element := Some landscape |} |})
      (Batch.One anchoredCaption) freshCanvas
    = (Returned r, oneSaveDeeper (sourceDrawn landscape)) /\
    enc_pixels (Batch.res_dataUrl r) = painted (sourceDrawn landscape).
Proof.
  split; [reflexivity|].
  destruct (Engine_text_without_a_transform_is_valid_but_never_drawn
              previewHost anchoredCaption (Output.mk "png" 95)
              eq_refl eq_refl eq_refl eq_refl) as (H1 & H2 & _).
  split; [apply H1 | apply H2].
Defined.

(** A surface in use: a paint state of its own, and one state saved. *)
Definition surfaceInUse : Canvas :=
  {| state := measuring (Text.mk "x" "serif" 10 "#000000" 100 0) 1;
     saved := [defaultPaint];
     painted := [ClearRect 0 0 800 600] |}.

Lemma Legacy_applyWatermark_restores_witness :
  (exists c',
      Legacy.applyWatermark previewHost anchoredCaption
        (Bounds.mk 0 0 800 600) 1 surfaceInUse = (Returned tt, c') /\
      state c' = state surfaceInUse /\ saved c' = [defaultPaint] /\
      List.length (painted c') = 3%nat) /\
  (exists c',
      LegacyPreview.applyWatermark previewHost anchoredCaption
        (Bounds.mk 0 0 800 600) 1 surfaceInUse = (Returned tt, c') /\
      saved c' = [] /\
      state c' = measuring (Text.mk "Sample" "Arial" 48 "#ffffff" 80 0) 1).
Proof.
  pose proof (Legacy_applyWatermark_restores previewHost anchoredCaption
                (Bounds.mk 0 0 800 600) 1 surfaceInUse) as [H1 H2].
  split.
  - eexists. split; [vm_compute; reflexivity|].
    split; [|split].
    + apply H1. vm_compute. reflexivity.
    + apply H1. vm_compute. reflexivity.
    + reflexivity.
  - apply (H2 (Text.mk "Sample" "Arial" 48 "#ffffff" 80 0));
      try reflexivity.
    vm_compute. discriminate.
Defined.
End TextWithoutTransformExample.

(** ** Dragging *)

Section Dragging.

Lemma onFound_at (p : App.Watermark -> bool) f before w after :
  Forall (fun v => p v = false) before -> p w = true ->
  Drag.onFound p f (before ++ w :: after) = (before ++ f w :: after)%list.
Proof.
  induction 1 as [|v before Hv _ IH]; intros Hw; cbn [Drag.onFound app].
  - now rewrite Hw.
  - now rewrite Hv, IH.
Qed.

Lemma onFound_none (p : App.Watermark -> bool) f l :
  Forall (fun v => p v = false) l -> Drag.onFound p f l = l.
Proof.
  induction 1 as [|v l Hv _ IH]; cbn [Drag.onFound]; [reflexivity|].
  now rewrite Hv, IH.
Qed.

Lemma dragged_coordinate (pointer limit : Q) :
  6 <= Math_round (Math_max 6 (Math_min pointer limit))
  /\ (6 <= limit ->
      Math_round (Math_max 6 (Math_min pointer limit)) <= limit + (1 # 2))
  /\ (limit < 6 -> Math_round (Math_max 6 (Math_min pointer limit)) == 6)
  /\ (6 <= pointer <= limit ->
      Math_round (Math_max 6 (Math_min pointer limit))
      == Math_round pointer).
Proof.
  pose proof (Math_round_integer 6) as R6. change (inject_Z 6) with 6 in R6.
  set (v := Math_max 6 (Math_min pointer limit)).
  assert (6 <= v) as L.
  { subst v. destruct (Math_max_spec 6 (Math_min pointer limit))
      as [[H ->]|[H ->]]; lra. }
  assert (6 <= limit -> v <= limit) as U.
  { intros Hl. subst v.
    destruct (Math_min_spec pointer limit) as [[H ->]|[H ->]];
      destruct (Math_max_spec 6 pointer) as [[H' E]|[H' E]];
      destruct (Math_max_spec 6 limit) as [[H2 E2]|[H2 E2]];
      rewrite ?E, ?E2; lra. }
  split; [|split; [|split]].
  - apply Qle_trans with (Math_round 6); [rewrite R6; lra|].
    now apply Math_round_le.
  - intros Hl. destruct (Math_round_bounds v) as [_ B].
    specialize (U Hl). lra.
  - intros Hl. rewrite <- R6. apply Math_round_compat. subst v.
    destruct (Math_min_spec pointer limit) as [[H E]|[H E]]; rewrite E;
      [destruct (Math_max_spec 6 pointer) as [[H' E']|[H' E']]
      |destruct (Math_max_spec 6 limit) as [[H' E']|[H' E']]];
      rewrite E'; lra.
  - intros [H1 H2]. apply Math_round_compat. subst v.
    destruct (Math_min_spec pointer limit) as [[H E]|[H E]]; rewrite E;
      [destruct (Math_max_spec 6 pointer) as [[H' E']|[H' E']]
      |destruct (Math_max_spec 6 limit) as [[H' E']|[H' E']]];
      rewrite E'; lra.
Qed.


End Dragging.
